(** * PayPal MCP server: token lifecycle, request gateway, validation, redaction

    A shallow embedding of the TypeScript sources of the server:

      - the configuration module ([config]);
      - the logger ([logger]) and the validation utilities ([validateInput],
        [sanitizeForLogging], [schemaMap]);
      - the payment, business and user schema modules (the Zod shapes);
      - the authentication service ([PayPalAuthService]) with the two
        interceptors of its HTTP instance;
      - the payment, business and user tool modules (the three registries);
      - the server ([PayPalMcpServer]): [listTools], [callTool], [run].

    Conventions.  JavaScript strings are modelled as [string] (ASCII), JSON
    numbers as rationals [Q], integers held in [number] fields (timestamps,
    lifetimes, status codes) as [Z].  Tool arguments are JSON values of
    any kind, [null] included; a call that leaves its arguments out
    ([undefined]) is not modelled.  Everything the process cannot decide on
    its own (the clock, the replies of the remote endpoints, the format
    predicates of the validation library, [JSON.stringify]) is read from
    an environment record [Env]; the mutable state of the process is a
    [World], which also keeps the history of what was done.  The semantics
    of the validation library (Zod 3: how shapes parse, which issues they
    raise, the default messages) and of the HTTP client (axios: interceptor
    chain, [settle]) are modelled as far as the sources rely on them. *)

From Stdlib Require Import String Ascii List ZArith QArith Bool Lia Arith.
From Stdlib Require Import DecimalString.
Import ListNotations.

Set Implicit Arguments.
Close Scope Q_scope.
Open Scope string_scope.
Open Scope list_scope.

(* ================================================================== *)
(** ** JSON values *)
(* ================================================================== *)

Unset Elimination Schemes.
Inductive Json : Type :=
| JNull
| JBool (b : bool)
| JNum (n : Q)
| JStr (s : string)
| JArr (items : list Json)
| JObj (fields : list (string * Json)).
Set Elimination Schemes.

(** Structural induction that also descends into array items and object
    fields. *)
Section JsonInduction.
Variable P : Json -> Prop.
Hypothesis Hnull : P JNull.
Hypothesis Hbool : forall b, P (JBool b).
Hypothesis Hnum : forall n, P (JNum n).
Hypothesis Hstr : forall s, P (JStr s).
Hypothesis Harr : forall items, Forall P items -> P (JArr items).
Hypothesis Hobj : forall fields, Forall (fun kv => P (snd kv)) fields -> P (JObj fields).

Fixpoint Json_ind (j : Json) : P j :=
  match j with
  | JNull => Hnull
  | JBool b => Hbool b
  | JNum n => Hnum n
  | JStr s => Hstr s
  | JArr items =>
      Harr ((fix go (l : list Json) : Forall P l :=
               match l with
               | [] => Forall_nil P
               | x :: r => Forall_cons x (Json_ind x) (go r)
               end) items)
  | JObj fields =>
      Hobj ((fix go (l : list (string * Json)) : Forall (fun kv => P (snd kv)) l :=
               match l with
               | [] => Forall_nil _
               | kv :: r => Forall_cons kv (Json_ind (snd kv)) (go r)
               end) fields)
  end.
End JsonInduction.

(** [typeof v === 'object' && v !== null] *)
Definition is_object (v : Json) : bool :=
  match v with
  | JArr _ | JObj _ => true
  | _ => false
  end.

(** Property read [obj[key]]; [None] is [undefined]. *)
Fixpoint lookup (key : string) (fields : list (string * Json)) : option Json :=
  match fields with
  | [] => None
  | (k, v) :: rest => if String.eqb k key then Some v else lookup key rest
  end.

(* ================================================================== *)
(** ** String helpers of the JavaScript runtime *)
(* ================================================================== *)

Definition lower_ascii (c : ascii) : ascii :=
  let n := nat_of_ascii c in
  if (65 <=? n)%nat && (n <=? 90)%nat then ascii_of_nat (n + 32) else c.

(** [String.prototype.toLowerCase] *)
Fixpoint toLowerCase (s : string) : string :=
  match s with
  | EmptyString => EmptyString
  | String c r => String (lower_ascii c) (toLowerCase r)
  end.

(** [Array.prototype.includes] on an array of strings *)
Definition includes (xs : list string) (x : string) : bool :=
  existsb (String.eqb x) xs.

(** [Array.prototype.join] *)
Fixpoint join (sep : string) (xs : list string) : string :=
  match xs with
  | [] => ""
  | [x] => x
  | x :: rest => x ++ sep ++ join sep rest
  end.

(** Decimal rendering of an array index or an integer. *)
Definition string_of_nat (n : nat) : string := NilEmpty.string_of_uint (Nat.to_uint n).
Definition string_of_Z (z : Z) : string := NilZero.string_of_int (Z.to_int z).

(* ================================================================== *)
(** ** [sanitizeForLogging] (src/utils/validation.ts) *)
(* ================================================================== *)

Definition sensitiveFields : list string :=
  [ "client_secret"; "clientSecret"; "secret"; "password"; "security_code";
    "cvv"; "cvv2"; "card_number"; "number"; "access_token"; "refresh_token";
    "token" ].

Definition REDACTED : Json := JStr "[REDACTED]".

(** The test of the loop body: [sensitiveFields.includes(key.toLowerCase())]. *)
Definition is_sensitive (key : string) : bool :=
  includes sensitiveFields (toLowerCase key).

(** The body of [for (const key in result)]: the value [result[key]] holds
    after the iteration for [key]; [self] is the recursive call. *)
Definition sanitize_entry (self : Json -> Json) (key : string) (v : Json) : Json :=
  if is_sensitive key then REDACTED
  else if is_object v then self v
  else v.

(** [if (!data || typeof data !== 'object') return data] leaves every
    primitive alone; the copy [result] of an array is walked by its index
    keys ["0"], ["1"], ..., the copy of an object by its property names. *)
Fixpoint sanitizeForLogging (data : Json) : Json :=
  match data with
  | JArr items =>
      JArr ((fix go (i : nat) (l : list Json) : list Json :=
               match l with
               | [] => []
               | v :: r => sanitize_entry sanitizeForLogging (string_of_nat i) v :: go (S i) r
               end) 0%nat items)
  | JObj fields =>
      JObj ((fix go (l : list (string * Json)) : list (string * Json) :=
               match l with
               | [] => []
               | (k, v) :: r => (k, sanitize_entry sanitizeForLogging k v) :: go r
               end) fields)
  | _ => data
  end.

(* ================================================================== *)
(** ** Regular expressions used by the schema files *)
(* ================================================================== *)

(** The five literals of the schema files are anchored ([^...$]) and use
    only character ranges, sequence, option and bounded repetition.  They
    are matched with Brzozowski derivatives. *)
Inductive Regex : Type :=
| RNone
| REps
| RRange (lo hi : ascii)
| RSeq (a b : Regex)
| RAlt (a b : Regex)
| RStar (a : Regex).

Fixpoint nullable (r : Regex) : bool :=
  match r with
  | RNone => false
  | REps => true
  | RRange _ _ => false
  | RSeq a b => nullable a && nullable b
  | RAlt a b => nullable a || nullable b
  | RStar _ => true
  end.

Definition in_range (lo hi c : ascii) : bool :=
  (nat_of_ascii lo <=? nat_of_ascii c)%nat && (nat_of_ascii c <=? nat_of_ascii hi)%nat.

Fixpoint deriv (c : ascii) (r : Regex) : Regex :=
  match r with
  | RNone => RNone
  | REps => RNone
  | RRange lo hi => if in_range lo hi c then REps else RNone
  | RSeq a b =>
      if nullable a then RAlt (RSeq (deriv c a) b) (deriv c b)
      else RSeq (deriv c a) b
  | RAlt a b => RAlt (deriv c a) (deriv c b)
  | RStar a => RSeq (deriv c a) (RStar a)
  end.

(** [re.test(s)] for an anchored pattern *)
Fixpoint regex_test (r : Regex) (s : string) : bool :=
  match s with
  | EmptyString => nullable r
  | String c rest => regex_test (deriv c r) rest
  end.

Definition RChar (c : ascii) : Regex := RRange c c.
Definition ROpt (a : Regex) : Regex := RAlt REps a.
Definition RPlus (a : Regex) : Regex := RSeq a (RStar a).
Fixpoint RTimes (n : nat) (a : Regex) : Regex :=
  match n with
  | O => REps
  | S k => RSeq a (RTimes k a)
  end.
(** [a{n,n+extra}] *)
Definition RBetween (n extra : nat) (a : Regex) : Regex :=
  RSeq (RTimes n a) (RTimes extra (ROpt a)).

Definition digit : Regex := RRange "0" "9".

(** [/^\d+\.?\d*$/] *)
Definition re_amount_value : Regex := RSeq (RPlus digit) (RSeq (ROpt (RChar ".")) (RStar digit)).
(** [/^\d{13,19}$/] *)
Definition re_card_number : Regex := RBetween 13 6 digit.
(** [/^\d{4}$/] *)
Definition re_card_expiry : Regex := RTimes 4 digit.
(** [/^\d{3,4}$/] *)
Definition re_security_code : Regex := RBetween 3 1 digit.
(** [/^[a-z]{2}[-_][A-Z]{2}$/] *)
Definition re_locale_code : Regex :=
  RSeq (RTimes 2 (RRange "a" "z"))
       (RSeq (RAlt (RChar "-") (RChar "_")) (RTimes 2 (RRange "A" "Z"))).

(* ================================================================== *)
(** ** The validation library: shapes, issues, parsing *)
(* ================================================================== *)

(** Format predicates that live inside the validation library
    ([.email()], [.url()], [.datetime()]). *)
Record ZodFormats : Type := {
  isEmail : string -> bool;
  isUrl : string -> bool;
  isDatetime : string -> bool
}.

Inductive StringCheck : Type :=
| SMin (n : nat)
| SMax (n : nat)
| SRegex (re : Regex)
| SEmail
| SUrl
| SDatetime.

Inductive NumberCheck : Type :=
| NMin (bound : Z)         (* [.min(bound)], inclusive *)
| NMax (bound : Z)         (* [.max(bound)], inclusive *)
| NInt                     (* [.int()] *)
| NPositive.               (* [.positive()] *)

(** What an object shape does with keys it does not declare: [z.object]
    strips them, [.strict()] reports them, [.passthrough()] keeps them. *)
Inductive UnknownKeys : Type := strip | strict | passthrough.

Unset Elimination Schemes.
Inductive Schema : Type :=
| ZString (checks : list StringCheck)
| ZNumber (checks : list NumberCheck)
| ZBoolean
| ZEnum (values : list string)
| ZArray (element : Schema) (minLength : option nat)
| ZObject (shape : list (string * Schema)) (unknownKeys : UnknownKeys)
| ZOptional (inner : Schema).
Set Elimination Schemes.

(** Structural induction that also descends into the fields of an object
    shape. *)
Section SchemaInduction.
Variable P : Schema -> Prop.
Hypothesis Hstring : forall checks, P (ZString checks).
Hypothesis Hnumber : forall checks, P (ZNumber checks).
Hypothesis Hboolean : P ZBoolean.
Hypothesis Henum : forall values, P (ZEnum values).
Hypothesis Harray : forall element minLength, P element -> P (ZArray element minLength).
Hypothesis Hobject :
  forall shape unknownKeys, Forall (fun ks => P (snd ks)) shape -> P (ZObject shape unknownKeys).
Hypothesis Hoptional : forall inner, P inner -> P (ZOptional inner).

Fixpoint Schema_ind (s : Schema) : P s :=
  match s with
  | ZString checks => Hstring checks
  | ZNumber checks => Hnumber checks
  | ZBoolean => Hboolean
  | ZEnum values => Henum values
  | ZArray element minLength => Harray minLength (Schema_ind element)
  | ZObject shape unknownKeys =>
      Hobject unknownKeys
        ((fix go (l : list (string * Schema)) : Forall (fun ks => P (snd ks)) l :=
            match l with
            | [] => Forall_nil _
            | ks :: r => Forall_cons ks (Schema_ind (snd ks)) (go r)
            end) shape)
  | ZOptional inner => Hoptional (Schema_ind inner)
  end.
End SchemaInduction.

Inductive PathSeg : Type :=
| Key (k : string)
| Idx (i : nat).

Record Issue : Type := { path : list PathSeg; message : string }.

(** [getParsedType] *)
Definition parsedType (input : option Json) : string :=
  match input with
  | None => "undefined"
  | Some JNull => "null"
  | Some (JBool _) => "boolean"
  | Some (JNum _) => "number"
  | Some (JStr _) => "string"
  | Some (JArr _) => "array"
  | Some (JObj _) => "object"
  end.

(** [util.joinValues]: string values are quoted. *)
Definition joinValues (values : list string) (sep : string) : string :=
  join sep (map (fun v => ("'" ++ v ++ "'")%string) values).

(** The default error map, for the issue codes the shapes can raise. *)
Definition invalid_type (p : list PathSeg) (expected : string) (input : option Json) : Issue :=
  {| path := p;
     message := match input with
                | None => "Required"
                | Some _ => "Expected " ++ expected ++ ", received " ++ parsedType input
                end |}.

Definition string_check_issue (fmt : ZodFormats) (p : list PathSeg) (s : string)
    (c : StringCheck) : list Issue :=
  match c with
  | SMin n =>
      if (String.length s <? n)%nat
      then [{| path := p; message := "String must contain at least " ++ string_of_nat n ++ " character(s)" |}]
      else []
  | SMax n =>
      if (n <? String.length s)%nat
      then [{| path := p; message := "String must contain at most " ++ string_of_nat n ++ " character(s)" |}]
      else []
  | SRegex re => if regex_test re s then [] else [{| path := p; message := "Invalid" |}]
  | SEmail => if isEmail fmt s then [] else [{| path := p; message := "Invalid email" |}]
  | SUrl => if isUrl fmt s then [] else [{| path := p; message := "Invalid url" |}]
  | SDatetime => if isDatetime fmt s then [] else [{| path := p; message := "Invalid datetime" |}]
  end.

Definition is_integer (q : Q) : bool := (Qnum q mod Zpos (Qden q) =? 0)%Z.

Definition number_check_issue (p : list PathSeg) (q : Q) (c : NumberCheck) : list Issue :=
  match c with
  | NMin b =>
      if Qle_bool (inject_Z b) q then []
      else [{| path := p; message := "Number must be greater than or equal to " ++ string_of_Z b |}]
  | NMax b =>
      if Qle_bool q (inject_Z b) then []
      else [{| path := p; message := "Number must be less than or equal to " ++ string_of_Z b |}]
  | NInt =>
      if is_integer q then []
      else [{| path := p; message := "Expected integer, received float" |}]
  | NPositive =>
      if Qle_bool q 0 then [{| path := p; message := "Number must be greater than 0" |}]
      else []
  end.

Definition shape_keys (shape : list (string * Schema)) : list string := map fst shape.

(** The keys of the input that the shape does not declare, in input order. *)
Definition extra_keys (shape : list (string * Schema)) (fields : list (string * Json)) : list string :=
  filter (fun k => negb (includes (shape_keys shape) k)) (map fst fields).

(** The outcome of [_parse]: the issues raised, in order, and the parsed
    value ([None] is [undefined]).  The value is meaningful only when no
    issue was raised. *)
Definition ParseReturn : Type := (list Issue * option Json)%type.

Definition parsed_field (k : string) (r : ParseReturn) : list (string * Json) :=
  match snd r with
  | Some v => [(k, v)]
  | None => []
  end.

Fixpoint zparse (fmt : ZodFormats) (s : Schema) (p : list PathSeg) (input : option Json)
    {struct s} : ParseReturn :=
  match s with
  | ZString checks =>
      match input with
      | Some (JStr str) => (flat_map (string_check_issue fmt p str) checks, input)
      | _ => ([invalid_type p "string" input], None)
      end
  | ZNumber checks =>
      match input with
      | Some (JNum q) => (flat_map (number_check_issue p q) checks, input)
      | _ => ([invalid_type p "number" input], None)
      end
  | ZBoolean =>
      match input with
      | Some (JBool _) => ([], input)
      | _ => ([invalid_type p "boolean" input], None)
      end
  | ZEnum values =>
      match input with
      | Some (JStr str) =>
          if includes values str then ([], input)
          else ([{| path := p;
                    message := "Invalid enum value. Expected " ++ joinValues values " | "
                               ++ ", received '" ++ str ++ "'" |}], None)
      | _ => ([invalid_type p (joinValues values " | ") input], None)
      end
  | ZArray element minLength =>
      match input with
      | Some (JArr items) =>
          let short :=
            match minLength with
            | Some n =>
                if (List.length items <? n)%nat
                then [{| path := p;
                         message := "Array must contain at least " ++ string_of_nat n ++ " element(s)" |}]
                else []
            | None => []
            end in
          let results :=
            (fix go (i : nat) (l : list Json) : list ParseReturn :=
               match l with
               | [] => []
               | x :: r => zparse fmt element (p ++ [Idx i]) (Some x) :: go (S i) r
               end) 0%nat items in
          (short ++ flat_map fst results,
           Some (JArr (flat_map (fun r => match snd r with Some v => [v] | None => [] end) results)))
      | _ => ([invalid_type p "array" input], None)
      end
  | ZObject shape unknownKeys =>
      match input with
      | Some (JObj fields) =>
          let results :=
            (fix go (l : list (string * Schema)) : list (string * ParseReturn) :=
               match l with
               | [] => []
               | (k, sk) :: r => (k, zparse fmt sk (p ++ [Key k]) (lookup k fields)) :: go r
               end) shape in
          let extras := extra_keys shape fields in
          let unrecognized :=
            match unknownKeys, extras with
            | strict, _ :: _ =>
                [{| path := p;
                    message := "Unrecognized key(s) in object: " ++ joinValues extras ", " |}]
            | _, _ => []
            end in
          let kept :=
            match unknownKeys with
            | passthrough => filter (fun kv => negb (includes (shape_keys shape) (fst kv))) fields
            | _ => []
            end in
          (flat_map (fun kr => fst (snd kr)) results ++ unrecognized,
           Some (JObj (flat_map (fun kr => parsed_field (fst kr) (snd kr)) results ++ kept)))
      | _ => ([invalid_type p "object" input], None)
      end
  | ZOptional inner =>
      match input with
      | None => ([], None)
      | Some _ => zparse fmt inner p input
      end
  end.

(** [schema.parse(data)]: the parsed value, or the issues of the thrown
    [ZodError]. *)
Definition parse (fmt : ZodFormats) (s : Schema) (data : Json) : Json + list Issue :=
  match zparse fmt s [] (Some data) with
  | ([], Some v) => inl v
  | ([], None) => inl data
  | (issues, _) => inr issues
  end.

(* ================================================================== *)
(** ** The registered shapes (src/schemas) *)
(* ================================================================== *)

Definition z_string : Schema := ZString [].
Definition z_object (shape : list (string * Schema)) : Schema := ZObject shape strip.
Definition z_strict (shape : list (string * Schema)) : Schema := ZObject shape strict.
Definition optional (s : Schema) : Schema := ZOptional s.
Definition z_array (s : Schema) : Schema := ZArray s None.

Module PaymentSchemas.

Definition amountSchema : Schema :=
  z_object [ ("currency_code", ZString [SMin 3; SMax 3]);
             ("value", ZString [SRegex re_amount_value]) ].

Definition addressSchema : Schema :=
  z_object [ ("address_line_1", optional z_string);
             ("address_line_2", optional z_string);
             ("admin_area_1", optional z_string);
             ("admin_area_2", optional z_string);
             ("postal_code", optional z_string);
             ("country_code", ZString [SMin 2; SMax 2]) ].

Definition nameSchema : Schema :=
  z_object [ ("given_name", z_string); ("surname", optional z_string) ].

Definition payerSchema : Schema :=
  z_object [ ("name", optional nameSchema);
             ("email_address", optional (ZString [SEmail]));
             ("payer_id", optional z_string);
             ("address", optional addressSchema) ].

Definition applicationContextSchema : Schema :=
  z_object [ ("brand_name", optional z_string);
             ("locale", optional z_string);
             ("landing_page", optional (ZEnum ["LOGIN"; "BILLING"; "NO_PREFERENCE"]));
             ("shipping_preference",
               optional (ZEnum ["GET_FROM_FILE"; "NO_SHIPPING"; "SET_PROVIDED_ADDRESS"]));
             ("user_action", optional (ZEnum ["CONTINUE"; "PAY_NOW"]));
             ("return_url", optional (ZString [SUrl]));
             ("cancel_url", optional (ZString [SUrl])) ].

Definition createPaymentTokenSchema : Schema :=
  z_object
    [ ("customer",
        z_object [ ("id", optional z_string);
                   ("email_address", optional (ZString [SEmail]));
                   ("phone",
                     optional (z_object [ ("phone_number", z_string);
                                          ("phone_type", ZEnum ["HOME"; "WORK"; "MOBILE"; "OTHER"]) ])) ]);
      ("payment_source",
        z_object [ ("card",
                     z_object [ ("number", ZString [SRegex re_card_number]);
                                ("expiry", ZString [SRegex re_card_expiry]);
                                ("name", z_string);
                                ("security_code", ZString [SRegex re_security_code]);
                                ("billing_address", optional addressSchema) ]) ]) ].

Definition createOrderSchema : Schema :=
  z_object
    [ ("intent", ZEnum ["CAPTURE"; "AUTHORIZE"]);
      ("purchase_units",
        ZArray
          (z_object [ ("reference_id", optional z_string);
                      ("description", optional z_string);
                      ("custom_id", optional z_string);
                      ("invoice_id", optional z_string);
                      ("amount", amountSchema);
                      ("payee",
                        optional (z_object [ ("email_address", optional (ZString [SEmail]));
                                             ("merchant_id", optional z_string) ]));
                      ("shipping",
                        optional (z_object [ ("name", nameSchema);
                                             ("address", addressSchema) ])) ])
          (Some 1%nat));
      ("payer", optional payerSchema);
      ("application_context", optional applicationContextSchema) ].

Definition captureOrderSchema : Schema :=
  z_object
    [ ("order_id", z_string);
      ("payment_source",
        optional (z_object [ ("token", z_object [ ("id", z_string); ("type", z_string) ]) ])) ].

Definition createPaymentSchema : Schema :=
  z_object
    [ ("intent", ZEnum ["sale"; "authorize"; "order"]);
      ("payer",
        z_object
          [ ("payment_method", ZEnum ["paypal"; "credit_card"]);
            ("funding_instruments",
              optional
                (z_array
                   (z_object
                      [ ("credit_card",
                          z_object [ ("number", ZString [SRegex re_card_number]);
                                     ("type", z_string);
                                     ("expire_month", ZNumber [NMin 1; NMax 12]);
                                     ("expire_year", ZNumber [NMin 2000]);
                                     ("cvv2", ZString [SRegex re_security_code]);
                                     ("first_name", z_string);
                                     ("last_name", z_string);
                                     ("billing_address", optional addressSchema) ]) ]))) ]);
      ("transactions",
        z_array
          (z_object
             [ ("amount", amountSchema);
               ("description", optional z_string);
               ("custom", optional z_string);
               ("invoice_number", optional z_string);
               ("item_list",
                 optional
                   (z_object
                      [ ("items",
                          optional
                            (z_array
                               (z_object [ ("name", z_string);
                                           ("sku", optional z_string);
                                           ("price", z_string);
                                           ("currency", ZString [SMin 3; SMax 3]);
                                           ("quantity", ZNumber [NInt; NPositive]) ])));
                        ("shipping_address", optional addressSchema) ])) ]));
      ("redirect_urls",
        z_object [ ("return_url", ZString [SUrl]); ("cancel_url", ZString [SUrl]) ]) ].

Definition createSubscriptionSchema : Schema :=
  z_object
    [ ("plan_id", z_string);
      ("start_time", optional (ZString [SDatetime]));
      ("quantity", optional z_string);
      ("shipping_amount", optional amountSchema);
      ("subscriber",
        z_object [ ("name", nameSchema);
                   ("email_address", ZString [SEmail]);
                   ("shipping_address", optional addressSchema) ]);
      ("application_context", optional applicationContextSchema) ].

End PaymentSchemas.

Module BusinessSchemas.

Definition amountSchema : Schema :=
  z_object [ ("currency_code", ZString [SMin 3; SMax 3]);
             ("value", ZString [SRegex re_amount_value]) ].

Definition addressSchema : Schema :=
  z_object [ ("address_line_1", optional z_string);
             ("address_line_2", optional z_string);
             ("admin_area_1", optional z_string);
             ("admin_area_2", optional z_string);
             ("postal_code", optional z_string);
             ("country_code", ZString [SMin 2; SMax 2]) ].

Definition phoneSchema : Schema :=
  z_object [ ("country_code", optional z_string);
             ("national_number", z_string);
             ("extension_number", optional z_string);
             ("phone_type", optional (ZEnum ["FAX"; "HOME"; "MOBILE"; "OTHER"; "PAGER"])) ].

Definition createProductSchema : Schema :=
  z_object
    [ ("name", ZString [SMin 1; SMax 127]);
      ("description", optional (ZString [SMax 256]));
      ("type", ZEnum ["PHYSICAL"; "DIGITAL"; "SERVICE"]);
      ("category",
        optional
          (ZEnum [ "ACCOMMODATION"; "ACCESSORIES"; "APPAREL"; "ART"; "AUTOMOTIVE"; "BABY";
                   "BOOKS"; "COLLECTIBLES"; "COMPUTER"; "CRAFTS"; "ELECTRONICS";
                   "ENTERTAINMENT"; "FITNESS"; "FOOD"; "FURNITURE"; "GIFT_CARDS"; "HEALTH";
                   "HOME"; "JEWELRY"; "MERCHANDISE"; "MUSIC"; "OFFICE"; "OTHER"; "PETS";
                   "PHOTOGRAPHY"; "SERVICES"; "SOFTWARE"; "SPORTS"; "TICKETS"; "TOYS";
                   "TRAVEL"; "VIDEO_GAMES" ]));
      ("image_url", optional (ZString [SUrl]));
      ("home_url", optional (ZString [SUrl])) ].

Definition personName : Schema :=
  z_object [ ("given_name", optional (ZString [SMax 140]));
             ("surname", optional (ZString [SMax 140])) ].

Definition createInvoiceSchema : Schema :=
  z_object
    [ ("detail",
        z_object
          [ ("invoice_number", optional (ZString [SMax 25]));
            ("reference", optional (ZString [SMax 60]));
            ("invoice_date", optional (ZString [SDatetime]));
            ("currency_code", ZString [SMin 3; SMax 3]);
            ("note", optional (ZString [SMax 4000]));
            ("term", optional (ZString [SMax 4000]));
            ("memo", optional (ZString [SMax 4000]));
            ("payment_term",
              optional
                (z_object
                   [ ("term_type",
                       ZEnum [ "DUE_ON_RECEIPT"; "DUE_ON_DATE_SPECIFIED"; "NET_10"; "NET_15";
                               "NET_30"; "NET_45"; "NET_60"; "NET_90" ]);
                     ("due_date", optional (ZString [SDatetime])) ])) ]);
      ("invoicer",
        optional
          (z_object
             [ ("name", optional personName);
               ("address", optional addressSchema);
               ("email_address", optional (ZString [SEmail; SMax 260]));
               ("phones", optional (z_array phoneSchema));
               ("website", optional (ZString [SUrl; SMax 2048]));
               ("tax_id", optional (ZString [SMax 100]));
               ("logo_url", optional (ZString [SUrl; SMax 2048])) ]));
      ("primary_recipients",
        optional
          (z_array
             (z_object
                [ ("billing_info",
                    optional
                      (z_object
                         [ ("name", optional personName);
                           ("address", optional addressSchema);
                           ("email_address", optional (ZString [SEmail; SMax 260]));
                           ("phones", optional (z_array phoneSchema)) ]));
                  ("shipping_info",
                    optional
                      (z_object [ ("name", optional personName);
                                  ("address", optional addressSchema) ])) ])));
      ("items",
        optional
          (z_array
             (z_object
                [ ("name", ZString [SMax 200]);
                  ("description", optional (ZString [SMax 1000]));
                  ("quantity", ZNumber [NPositive]);
                  ("unit_amount", amountSchema);
                  ("tax", optional amountSchema);
                  ("discount", optional amountSchema);
                  ("unit_of_measure", optional (ZString [SMax 20])) ])));
      ("configuration",
        optional
          (z_object
             [ ("partial_payment",
                 optional
                   (z_object [ ("allow_partial_payment", ZBoolean);
                               ("minimum_amount_due", optional amountSchema) ]));
               ("allow_tip", optional ZBoolean);
               ("tax_calculated_after_discount", optional ZBoolean);
               ("tax_inclusive", optional ZBoolean) ]));
      ("amount",
        optional
          (z_object
             [ ("breakdown",
                 optional
                   (z_object
                      [ ("custom",
                          optional (z_object [ ("label", ZString [SMax 25]);
                                               ("amount", amountSchema) ]));
                        ("shipping", optional amountSchema);
                        ("discount", optional amountSchema) ])) ])) ].

Definition createPayoutSchema : Schema :=
  z_object
    [ ("sender_batch_header",
        z_object [ ("sender_batch_id", ZString [SMax 50]);
                   ("email_subject", optional (ZString [SMax 255]));
                   ("email_message", optional (ZString [SMax 1000]));
                   ("recipient_type", optional (ZEnum ["EMAIL"; "PHONE"; "PAYPAL_ID"])) ]);
      ("items",
        z_array
          (z_object [ ("recipient_type", optional (ZEnum ["EMAIL"; "PHONE"; "PAYPAL_ID"]));
                      ("amount", amountSchema);
                      ("note", optional (ZString [SMax 1000]));
                      ("receiver", ZString [SMax 127]);
                      ("sender_item_id", optional (ZString [SMax 50])) ])) ].

End BusinessSchemas.

Module UserSchemas.

Definition getUserInfoSchema : Schema := z_strict [].

Definition flow_config : Schema :=
  z_object [ ("landing_page_type", optional (ZEnum ["billing"; "login"]));
             ("bank_txn_pending_url", optional (ZString [SUrl]));
             ("user_action", optional (ZEnum ["commit"; "continue"]));
             ("return_uri_http_method", optional (ZEnum ["GET"; "POST"])) ].

Definition input_fields : Schema :=
  z_object [ ("allow_note", optional ZBoolean);
             ("no_shipping", optional (ZNumber [NInt; NMin 0; NMax 2]));
             ("address_override", optional (ZNumber [NInt; NMin 0; NMax 1])) ].

Definition presentation : Schema :=
  z_object [ ("brand_name", optional (ZString [SMax 127]));
             ("logo_image", optional (ZString [SUrl]));
             ("locale_code", optional (ZString [SRegex re_locale_code]));
             ("return_url_label", optional (ZString [SMax 50]));
             ("note_to_seller_label", optional (ZString [SMax 50])) ].

Definition createWebProfileSchema : Schema :=
  z_strict [ ("name", ZString [SMin 1; SMax 50]);
             ("temporary", optional ZBoolean);
             ("flow_config", optional flow_config);
             ("input_fields", optional input_fields);
             ("presentation", optional presentation) ].

Definition getWebProfilesSchema : Schema := z_strict [].

Definition getWebProfileSchema : Schema := z_strict [ ("profile_id", z_string) ].

Definition updateWebProfileSchema : Schema :=
  z_strict [ ("profile_id", z_string);
             ("name", optional (ZString [SMin 1; SMax 50]));
             ("flow_config", optional flow_config);
             ("input_fields", optional input_fields);
             ("presentation", optional presentation) ].

Definition deleteWebProfileSchema : Schema := z_strict [ ("profile_id", z_string) ].

End UserSchemas.

(** [schemaMap] of src/utils/validation.ts: tool name to shape, on the
    map's own keys. *)
Definition schemaMap : list (string * Schema) :=
  [ ("create_payment_token", PaymentSchemas.createPaymentTokenSchema);
    ("create_order", PaymentSchemas.createOrderSchema);
    ("capture_order", PaymentSchemas.captureOrderSchema);
    ("create_payment", PaymentSchemas.createPaymentSchema);
    ("create_subscription", PaymentSchemas.createSubscriptionSchema);
    ("create_product", BusinessSchemas.createProductSchema);
    ("create_invoice", BusinessSchemas.createInvoiceSchema);
    ("create_payout", BusinessSchemas.createPayoutSchema);
    ("get_userinfo", UserSchemas.getUserInfoSchema);
    ("create_web_profile", UserSchemas.createWebProfileSchema) ].

Fixpoint schema_for (toolName : string) (m : list (string * Schema)) : option Schema :=
  match m with
  | [] => None
  | (k, s) :: rest => if String.eqb k toolName then Some s else schema_for toolName rest
  end.

(** [schemaMap] is an object literal, so a read of a name it does not own
    falls through to [Object.prototype]. *)
Definition Object_prototype_keys : list string :=
  [ "constructor"; "__defineGetter__"; "__defineSetter__"; "hasOwnProperty";
    "__lookupGetter__"; "__lookupSetter__"; "isPrototypeOf"; "propertyIsEnumerable";
    "toString"; "valueOf"; "__proto__"; "toLocaleString" ].

Inductive MapValue : Type :=
| Registered (s : Schema)       (* a shape of the map *)
| Inherited.                    (* a member of [Object.prototype]: truthy, not a shape *)

(** [schemaMap[toolName]]; [None] is [undefined]. *)
Definition schemaMap_get (toolName : string) : option MapValue :=
  match schema_for toolName schemaMap with
  | Some s => Some (Registered s)
  | None => if includes Object_prototype_keys toolName then Some Inherited else None
  end.

(* ================================================================== *)
(** ** Configuration (src/config.ts) *)
(* ================================================================== *)

Inductive PayPalEnvironment : Type := sandbox | live.
Inductive LogLevel : Type := LvError | LvWarn | LvInfo | LvDebug.

Record PayPalSettings : Type := {
  clientId : string;
  clientSecret : string;
  environment : PayPalEnvironment;
  apiBaseUrl : string;
  tokenCacheSeconds : option Z          (* [parseInt]; [None] is [NaN] *)
}.

Record ServerSettings : Type := {
  logLevel : LogLevel;
  requestTimeout : option Z;
  maxRetries : option Z;
  retryDelay : option Z
}.

Record Config : Type := { paypal : PayPalSettings; server : ServerSettings }.

Section LoadConfig.
(** [process.env] and [parseInt(_, 10)] *)
Variable process_env : string -> option string.
Variable parseInt : string -> option Z.

Definition getRequiredEnv (key : string) : string + string :=
  match process_env key with
  | Some v => if String.eqb v "" then inr ("Missing required environment variable: " ++ key)%string
              else inl v
  | None => inr ("Missing required environment variable: " ++ key)%string
  end.

Definition getOptionalEnv (key defaultValue : string) : string :=
  match process_env key with
  | Some v => if String.eqb v "" then defaultValue else v
  | None => defaultValue
  end.

Definition parse_log_level (s : string) : LogLevel :=
  if String.eqb s "error" then LvError
  else if String.eqb s "warn" then LvWarn
  else if String.eqb s "debug" then LvDebug
  else LvInfo.                         (* ['info'], and the default for an invalid level *)

(** The module body: the [config] object, or the message of the error
    that aborts start-up. *)
Definition loadConfig : Config + string :=
  match getRequiredEnv "PAYPAL_CLIENT_ID" with
  | inr msg => inr msg
  | inl cid =>
      match getRequiredEnv "PAYPAL_CLIENT_SECRET" with
      | inr msg => inr msg
      | inl secret =>
          let env_name := getOptionalEnv "PAYPAL_ENVIRONMENT" "sandbox" in
          let settings (e : PayPalEnvironment) :=
            {| paypal :=
                 {| clientId := cid;
                    clientSecret := secret;
                    environment := e;
                    apiBaseUrl := if String.eqb env_name "sandbox"
                                  then "https://api-m.sandbox.paypal.com"
                                  else "https://api-m.paypal.com";
                    tokenCacheSeconds :=
                      parseInt (getOptionalEnv "PAYPAL_TOKEN_CACHE_SECONDS" "3500") |};
               server :=
                 {| logLevel := parse_log_level (getOptionalEnv "LOG_LEVEL" "info");
                    requestTimeout := parseInt (getOptionalEnv "REQUEST_TIMEOUT" "30000");
                    maxRetries := parseInt (getOptionalEnv "MAX_RETRIES" "3");
                    retryDelay := parseInt (getOptionalEnv "RETRY_DELAY" "1000") |} |} in
          if String.eqb env_name "sandbox" then inl (settings sandbox)
          else if String.eqb env_name "live" then inl (settings live)
          else inr ("Invalid PayPal environment: " ++ env_name
                    ++ ". Must be 'sandbox' or 'live'.")%string
      end
  end.
End LoadConfig.

(* ================================================================== *)
(** ** Requests, errors, events *)
(* ================================================================== *)

(** [TokenResponse] of src/services/auth.service.ts *)
Record TokenResponse : Type := {
  access_token : string;
  token_type : string;
  app_id : string;
  expires_in : Z;
  nonce : string;
  scope : string;
  expiration : option Z                 (* added locally, not from PayPal *)
}.

Definition with_expiration (t : TokenResponse) (e : Z) : TokenResponse :=
  {| access_token := access_token t;
     token_type := token_type t;
     app_id := app_id t;
     expires_in := expires_in t;
     nonce := nonce t;
     scope := scope t;
     expiration := Some e |}.

(** The request configuration, as far as the service reads or writes it. *)
Record Request : Type := {
  url : string;
  method : string;
  data : option Json;
  Authorization : option string;        (* [headers.Authorization] *)
  __isRetry : bool
}.

Record Response : Type := { status : Z; response_data : Json }.

Inductive ErrorCode : Type := InvalidParams | MethodNotFound.

Inductive Err : Type :=
| McpError (code : ErrorCode) (msg : string)
| Error (msg : string)
| AxiosError (config : Request) (response : option Response)
| TypeError (msg : string).

(** [error.message] *)
Definition error_message (e : Err) : string :=
  match e with
  | McpError _ msg => msg
  | Error msg => msg
  | AxiosError _ (Some r) => "Request failed with status code " ++ string_of_Z (status r)
  | AxiosError _ None => "Network Error"
  | TypeError msg => msg
  end.

Inductive LogArg : Type :=
| LogJson (j : Json)
| LogText (s : string)
| LogErr (e : Err).

Inductive Event : Type :=
| EvTokenExchange (target : string) (credentials : string)
    (* [POST target] with [Authorization: Basic base64(credentials)] *)
| EvRequest (config : Request)          (* a request leaves for a resource endpoint *)
| EvLog (level : LogLevel) (msg : string) (args : list LogArg).

(** What the process cannot decide on its own. *)
Record Env : Type := {
  Date_now : nat -> N;                               (* the n-th reading of the clock:
                                                        milliseconds since the epoch *)
  token_endpoint : nat -> TokenResponse + Err;       (* the n-th exchange: the body of a 2xx
                                                        reply, a token response as the
                                                        [TokenResponse] interface declares it,
                                                        or what [axios.post] rejects with *)
  resource_endpoint : nat -> Request -> option Response;
                                                     (* the n-th request; [None]: no response *)
  formats : ZodFormats;
  JSON_stringify : Json -> string;
  JSON_stringify_indented : Json -> string;          (* [JSON.stringify(v, null, 2)] *)
  String_of : option Json -> string;                 (* conversion in a template literal *)
  transport_connects : bool                          (* [server.connect(transport)] resolves *)
}.

Record PayPalAuthConfig : Type := {
  auth_clientId : string;
  auth_clientSecret : string;
  auth_environment : PayPalEnvironment
}.

Record PayPalAuthService : Type := {
  config : PayPalAuthConfig;
  baseUrl : string;
  tokenData : option TokenResponse
}.

(** The mutable state of the process: the service object, how often the
    environment has been consulted, and the history of what was done. *)
Record World : Type := {
  authService : PayPalAuthService;
  clock_reads : nat;
  exchanges_made : nat;
  requests_made : nat;
  trace : list Event
}.

(** [new PayPalAuthService(config)] *)
Definition new_PayPalAuthService (c : PayPalAuthConfig) : PayPalAuthService :=
  {| config := c;
     baseUrl := match auth_environment c with
                | sandbox => "https://api-m.sandbox.paypal.com"
                | live => "https://api-m.paypal.com"
                end;
     tokenData := None |}.

(* ================================================================== *)
(** ** The computation monad: state, exceptions, environment *)
(* ================================================================== *)

Inductive Result (A : Type) : Type :=
| Ok (a : A)
| Throw (e : Err)
| OutOfFuel.
Arguments Ok {A} a.
Arguments Throw {A} e.
Arguments OutOfFuel {A}.

Definition M (A : Type) : Type := Env -> World -> Result A * World.

Definition ret {A} (a : A) : M A := fun _ w => (Ok a, w).

Definition bind {A B} (m : M A) (k : A -> M B) : M B :=
  fun env w =>
    match m env w with
    | (Ok a, w') => k a env w'
    | (Throw e, w') => (Throw e, w')
    | (OutOfFuel, w') => (OutOfFuel, w')
    end.

Definition throw {A} (e : Err) : M A := fun _ w => (Throw e, w).

(** [try { m } catch (error) { handler(error) }] *)
Definition try_catch {A} (m : M A) (handler : Err -> M A) : M A :=
  fun env w =>
    match m env w with
    | (Throw e, w') => handler e env w'
    | r => r
    end.

Declare Scope monad_scope.
Delimit Scope monad_scope with monad.
Notation "x <- c1 ;; c2" := (bind c1 (fun x => c2))
  (at level 100, c1 at next level, right associativity) : monad_scope.
Notation "c1 ;; c2" := (bind c1 (fun _ => c2))
  (at level 100, right associativity) : monad_scope.
Open Scope monad_scope.

Definition emit (ev : Event) : M unit :=
  fun _ w =>
    (Ok tt, {| authService := authService w;
               clock_reads := clock_reads w;
               exchanges_made := exchanges_made w;
               requests_made := requests_made w;
               trace := trace w ++ [ev] |}).

(** [Date.now()] *)
Definition now : M Z :=
  fun env w =>
    (Ok (Z.of_N (Date_now env (clock_reads w))),
     {| authService := authService w;
        clock_reads := S (clock_reads w);
        exchanges_made := exchanges_made w;
        requests_made := requests_made w;
        trace := trace w |}).

Definition get_service : M PayPalAuthService := fun _ w => (Ok (authService w), w).

(** [this.tokenData = v] *)
Definition set_tokenData (v : option TokenResponse) : M unit :=
  fun _ w =>
    (Ok tt, {| authService := {| config := config (authService w);
                                 baseUrl := baseUrl (authService w);
                                 tokenData := v |};
               clock_reads := clock_reads w;
               exchanges_made := exchanges_made w;
               requests_made := requests_made w;
               trace := trace w |}).

Definition ask {A} (f : Env -> A) : M A := fun env w => (Ok (f env), w).

(* ================================================================== *)
(** ** The logger (src/utils/logger.ts) *)
(* ================================================================== *)

Definition LOG_LEVELS (l : LogLevel) : nat :=
  match l with
  | LvError => 0
  | LvWarn => 1
  | LvInfo => 2
  | LvDebug => 3
  end.

(** A call of [logger.error], [logger.warn], [logger.info] or
    [logger.debug] is recorded in the history; whether it reaches the
    console is decided by [console_output] below. *)
Definition logger (level : LogLevel) (msg : string) (args : list LogArg) : M unit :=
  emit (EvLog level msg args).

(** The guard of each logger method: [currentLevel >= LOG_LEVELS.level]. *)
Definition level_enabled (currentLevel level : LogLevel) : bool :=
  (LOG_LEVELS level <=? LOG_LEVELS currentLevel)%nat.

(** The lines written to the console under configuration [c] (without the
    timestamp and the rendering of [formatLogMessage]). *)
Definition console_output (c : Config) (t : list Event) : list Event :=
  filter (fun ev => match ev with
                    | EvLog level _ _ => level_enabled (logLevel (server c)) level
                    | _ => false
                    end) t.

(* ================================================================== *)
(** ** [validateInput] (src/utils/validation.ts) *)
(* ================================================================== *)

Definition path_segment (seg : PathSeg) : string :=
  match seg with
  | Key k => k
  | Idx i => string_of_nat i
  end.

(** [`${err.path.join('.')}: ${err.message}`] *)
Definition formatIssue (err : Issue) : string :=
  join "." (map path_segment (path err)) ++ ": " ++ message err.

Definition validateInput (toolName : string) (args : Json) : M Json :=
  match schemaMap_get toolName with
  | None =>
      logger LvWarn ("No validation schema found for tool: " ++ toolName) [] ;;
      ret args
  | Some Inherited =>
      (* not a [ZodError]: rethrown as it is *)
      throw (TypeError "schema.parse is not a function")
  | Some (Registered schema) =>
      fmt <- ask formats ;;
      match parse fmt schema args with
      | inl v => ret v
      | inr issues =>
          let formattedErrors := join ", " (map formatIssue issues) in
          logger LvError ("Validation error for " ++ toolName ++ ":") [LogText formattedErrors] ;;
          throw (McpError InvalidParams
                   ("Invalid parameters for " ++ toolName ++ ": " ++ formattedErrors))
      end
  end.

(* ================================================================== *)
(** ** [PayPalAuthService] (src/services/auth.service.ts) *)
(* ================================================================== *)

Definition token_path : string := "/v1/oauth2/token".

(** The global [axios.post] to the token endpoint: it does not pass
    through the interceptors of the service's own instance. *)
Definition axios_post_token (target credentials : string) : M TokenResponse :=
  fun env w =>
    let w' := {| authService := authService w;
                 clock_reads := clock_reads w;
                 exchanges_made := S (exchanges_made w);
                 requests_made := requests_made w;
                 trace := trace w ++ [EvTokenExchange target credentials] |} in
    match token_endpoint env (exchanges_made w) with
    | inl r => (Ok r, w')
    | inr e => (Throw e, w')
    end.

(** [getAccessToken] *)
Definition getAccessToken : M string :=
  try_catch
    (logger LvDebug "Getting new access token from PayPal" [] ;;
     svc <- get_service ;;
     let auth := (auth_clientId (config svc) ++ ":" ++ auth_clientSecret (config svc))%string in
     response <- axios_post_token (baseUrl svc ++ token_path) auth ;;
     set_tokenData (Some response) ;;
     t <- now ;;
     let stored := with_expiration response (t + expires_in response * 1000 - 60000)%Z in
     set_tokenData (Some stored) ;;
     logger LvInfo "Successfully obtained new access token" [] ;;
     ret (access_token stored))
    (fun error =>
       logger LvError "Failed to get access token:" [LogErr error] ;;
       throw (Error "Failed to authenticate with PayPal API")).

(** [ensureAccessToken]: the conjunction short-circuits, so the clock is
    read only when a credential with a truthy [expiration] is cached. *)
Definition ensureAccessToken : M string :=
  svc <- get_service ;;
  match tokenData svc with
  | Some td =>
      match expiration td with
      | Some e =>
          if (e =? 0)%Z then getAccessToken
          else
            t <- now ;;
            if (t <? e)%Z then ret (access_token td) else getAccessToken
      | None => getAccessToken
      end
  | None => getAccessToken
  end.

(** [verifyCredentials] *)
Definition verifyCredentials : M bool :=
  try_catch
    (getAccessToken ;; ret true)
    (fun error =>
       logger LvError "Failed to verify PayPal credentials:" [LogErr error] ;;
       ret false).

Definition with_Authorization (c : Request) (h : string) : Request :=
  {| url := url c; method := method c; data := data c;
     Authorization := Some h; __isRetry := __isRetry c |}.

(** [{ ...config, __isRetry: true }] *)
Definition as_retry (c : Request) : Request :=
  {| url := url c; method := method c; data := data c;
     Authorization := Authorization c; __isRetry := true |}.

(** [`${token_type} ${access_token}`] *)
Definition bearer (td : TokenResponse) : string :=
  token_type td ++ " " ++ access_token td.

(** The request interceptor. *)
Definition requestInterceptor (c : Request) : M Request :=
  if String.eqb (url c) token_path then ret c
  else
    ensureAccessToken ;;
    svc <- get_service ;;
    match tokenData svc with
    | Some td => ret (with_Authorization c (bearer td))
    | None => ret c
    end.

(** [settle]: a reply with a 2xx status resolves, any other reply and the
    absence of a reply reject. *)
Definition settle (c : Request) (reply : option Response) : Result Response :=
  match reply with
  | Some r =>
      if ((200 <=? status r) && (status r <? 300))%Z then Ok r
      else Throw (AxiosError c (Some r))
  | None => Throw (AxiosError c None)
  end.

(** The adapter: the request leaves and the reply is settled. *)
Definition dispatchRequest (c : Request) : M Response :=
  fun env w =>
    (settle c (resource_endpoint env (requests_made w) c),
     {| authService := authService w;
        clock_reads := clock_reads w;
        exchanges_made := exchanges_made w;
        requests_made := S (requests_made w);
        trace := trace w ++ [EvRequest c] |}).

(** The rejection handler of the response interceptor; [self] is
    [this.axiosInstance]. *)
Definition responseRejected (self : Request -> M Response) (error : Err) : M Response :=
  match error with
  | AxiosError c (Some r) =>
      logger LvError "PayPal API Error:"
        [LogJson (JObj [ ("status", JNum (inject_Z (status r)));
                         ("data", sanitizeForLogging (response_data r));
                         ("url", JStr (url c));
                         ("method", JStr (method c)) ])] ;;
      if (status r =? 401)%Z && negb (__isRetry c) then
        logger LvInfo "Access token expired, refreshing..." [] ;;
        set_tokenData None ;;
        ensureAccessToken ;;
        let newRequest := as_retry c in
        svc <- get_service ;;
        let newRequest :=
          match tokenData svc with
          | Some td => with_Authorization newRequest (bearer td)
          | None => newRequest
          end in
        self newRequest
      else throw error
  | _ => throw error
  end.

(** One pass through the instance: request interceptor, adapter, response
    interceptor. *)
Definition axios_pass (self : Request -> M Response) (c : Request) : M Response :=
  try_catch (c' <- requestInterceptor c ;; dispatchRequest c') (responseRejected self).

(** The instance calls itself from its own rejection handler; [fuel]
    bounds the depth of that recursion. *)
Fixpoint axiosInstance_fuel (fuel : nat) (c : Request) : M Response :=
  match fuel with
  | O => fun _ w => (OutOfFuel, w)
  | S n => axios_pass (axiosInstance_fuel n) c
  end.

(** [getAxiosInstance()]: two levels always suffice, since a replayed
    request carries [__isRetry] and is never replayed again. *)
Definition axiosInstance : Request -> M Response := axiosInstance_fuel 2.

Definition new_request (m u : string) (d : option Json) : Request :=
  {| url := u; method := m; data := d; Authorization := None; __isRetry := false |}.

Definition axios_get (u : string) : M Response := axiosInstance (new_request "get" u None).
Definition axios_delete (u : string) : M Response := axiosInstance (new_request "delete" u None).
Definition axios_post (u : string) (d : Json) : M Response :=
  axiosInstance (new_request "post" u (Some d)).
Definition axios_put (u : string) (d : Json) : M Response :=
  axiosInstance (new_request "put" u (Some d)).

(* ================================================================== *)
(** ** The tool registries (src/tools) *)
(* ================================================================== *)

(** A tool descriptor.  The static [inputSchema] document that is shown
    to clients is not modelled. *)
Record Tool : Type := {
  name : string;
  description : string;
  handler : Json -> M Json
}.

(** The value of [args.key] for the property names the handlers read
    (identifiers such as [order_id], never an index or a built-in
    member): an object answers its field, every other value that is not
    [null] answers [undefined]. *)
Definition prop (args : Json) (key : string) : option Json :=
  match args with
  | JObj fields => lookup key fields
  | _ => None
  end.

(** The read [args.key] as the handlers perform it, outside their [try]
    block: on [null] it throws (the message is the one of V8). *)
Definition read_prop (args : Json) (key : string) : M (option Json) :=
  match args with
  | JNull => throw (TypeError ("Cannot read properties of null (reading '" ++ key ++ "')"))
  | _ => ret (prop args key)
  end.

(** Items under their index keys ["0"], ["1"], ... *)
Fixpoint index_keys (i : nat) (items : list Json) : list (string * Json) :=
  match items with
  | [] => []
  | x :: r => (string_of_nat i, x) :: index_keys (S i) r
  end.

(** The own enumerable properties a rest pattern copies: the fields of an
    object, the items of an array and the characters of a string under
    their index keys, nothing for a number or a boolean. *)
Definition own_properties (args : Json) : list (string * Json) :=
  match args with
  | JObj fields => fields
  | JArr items => index_keys 0 items
  | JStr s => index_keys 0 (map (fun c => JStr (String c "")) (list_ascii_of_string s))
  | _ => []
  end.

(** [payload] of [const { key, ...payload } = args].  The handlers that
    destructure have read [args.key] before, so [null] does not arrive
    here. *)
Definition without_key (key : string) (args : Json) : Json :=
  JObj (filter (fun kv => negb (String.eqb (fst kv) key)) (own_properties args)).

Definition truthy (v : Json) : bool :=
  match v with
  | JNull => false
  | JBool b => b
  | JNum q => negb (Qeq_bool q 0)
  | JStr s => negb (String.eqb s "")
  | JArr _ | JObj _ => true
  end.

(** [{ success: true, profile_id }]; a property holding [undefined] is
    left out, as it is when the result is serialised. *)
Definition success_object (profile_id : option Json) : Json :=
  JObj (("success", JBool true)
        :: match profile_id with
           | Some v => [("profile_id", v)]
           | None => []
           end).

(** The pattern every handler follows: announce, call, and convert any
    failure of the call into a tool-specific error. *)
Definition guarded_call (announce : string) (call : M Json) (failure : string) : M Json :=
  logger LvInfo announce [] ;;
  try_catch call
    (fun error =>
       logger LvError (failure ++ ":") [LogErr error] ;;
       throw (Error failure)).

Definition post_tool (announce target failure : string) (args : Json) : M Json :=
  guarded_call announce
    (response <- axios_post target args ;; ret (response_data response))
    failure.

(** A tool whose target embeds [args.key]; the first read of [args.key]
    is in the announcement, before the [try] block. *)
Definition get_by_id (announce key target failure : string) (args : Json) : M Json :=
  value <- read_prop args key ;;
  id <- ask (fun env => String_of env value) ;;
  guarded_call (announce ++ id)
    (response <- axios_get (target ++ id) ;; ret (response_data response))
    (failure ++ id).

Module PaymentTools.

Definition createPaymentToken : Tool :=
  {| name := "create_payment_token";
     description := "Create a payment token for future use";
     handler := post_tool "Creating payment token" "/v1/vault/payment-tokens"
                          "Failed to create payment token" |}.

Definition createOrder : Tool :=
  {| name := "create_order";
     description := "Create a new order in PayPal";
     handler := post_tool "Creating order" "/v2/checkout/orders" "Failed to create order" |}.

Definition captureOrder : Tool :=
  {| name := "capture_order";
     description := "Capture payment for an authorized order";
     handler := fun args =>
       value <- read_prop args "order_id" ;;
       order_id <- ask (fun env => String_of env value) ;;
       guarded_call ("Capturing order: " ++ order_id)
         (response <- axios_post ("/v2/checkout/orders/" ++ order_id ++ "/capture")
                                 (without_key "order_id" args) ;;
          ret (response_data response))
         ("Failed to capture order " ++ order_id) |}.

Definition createPayment : Tool :=
  {| name := "create_payment";
     description := "Create a direct payment";
     handler := post_tool "Creating payment" "/v1/payments/payment" "Failed to create payment" |}.

Definition createSubscription : Tool :=
  {| name := "create_subscription";
     description := "Create a subscription for recurring billing";
     handler := post_tool "Creating subscription" "/v1/billing/subscriptions"
                          "Failed to create subscription" |}.

Definition paymentTools : list Tool :=
  [createPaymentToken; createOrder; captureOrder; createPayment; createSubscription].

End PaymentTools.

Module BusinessTools.

Definition createProduct : Tool :=
  {| name := "create_product";
     description := "Create a new product in the catalog";
     handler := post_tool "Creating product" "/v1/catalogs/products" "Failed to create product" |}.

Definition createInvoice : Tool :=
  {| name := "create_invoice";
     description := "Generate a new invoice";
     handler := post_tool "Creating invoice" "/v2/invoicing/invoices" "Failed to create invoice" |}.

Definition createPayout : Tool :=
  {| name := "create_payout";
     description := "Process a batch payout";
     handler := post_tool "Creating payout" "/v1/payments/payouts" "Failed to create payout" |}.

Definition getProduct : Tool :=
  {| name := "get_product";
     description := "Get a product from the catalog";
     handler := get_by_id "Getting product: " "product_id" "/v1/catalogs/products/"
                          "Failed to get product " |}.

Definition getInvoice : Tool :=
  {| name := "get_invoice";
     description := "Get an invoice";
     handler := get_by_id "Getting invoice: " "invoice_id" "/v2/invoicing/invoices/"
                          "Failed to get invoice " |}.

Definition businessTools : list Tool :=
  [createProduct; createInvoice; createPayout; getProduct; getInvoice].

End BusinessTools.

Module UserTools.

Definition getUserInfo : Tool :=
  {| name := "get_userinfo";
     description := "Retrieve user information";
     handler := fun _ =>
       guarded_call "Getting user information"
         (response <- axios_get "/v1/identity/oauth2/userinfo?schema=paypalv1.1" ;;
          ret (response_data response))
         "Failed to get user information" |}.

Definition createWebProfile : Tool :=
  {| name := "create_web_profile";
     description := "Create a web experience profile";
     handler := post_tool "Creating web profile" "/v1/payment-experience/web-profiles"
                          "Failed to create web profile" |}.

Definition getWebProfiles : Tool :=
  {| name := "get_web_profiles";
     description := "Get list of web experience profiles";
     handler := fun _ =>
       guarded_call "Getting web profiles"
         (response <- axios_get "/v1/payment-experience/web-profiles" ;;
          ret (response_data response))
         "Failed to get web profiles" |}.

Definition getWebProfile : Tool :=
  {| name := "get_web_profile";
     description := "Get a specific web experience profile";
     handler := get_by_id "Getting web profile: " "profile_id"
                          "/v1/payment-experience/web-profiles/"
                          "Failed to get web profile " |}.

Definition updateWebProfile : Tool :=
  {| name := "update_web_profile";
     description := "Update a web experience profile";
     handler := fun args =>
       value <- read_prop args "profile_id" ;;
       profile_id <- ask (fun env => String_of env value) ;;
       guarded_call ("Updating web profile: " ++ profile_id)
         (response <- axios_put ("/v1/payment-experience/web-profiles/" ++ profile_id)
                                (without_key "profile_id" args) ;;
          ret (if truthy (response_data response) then response_data response
               else success_object (prop args "profile_id")))
         ("Failed to update web profile " ++ profile_id) |}.

Definition deleteWebProfile : Tool :=
  {| name := "delete_web_profile";
     description := "Delete a web experience profile";
     handler := fun args =>
       value <- read_prop args "profile_id" ;;
       profile_id <- ask (fun env => String_of env value) ;;
       guarded_call ("Deleting web profile: " ++ profile_id)
         (axios_delete ("/v1/payment-experience/web-profiles/" ++ profile_id) ;;
          ret (success_object (prop args "profile_id")))
         ("Failed to delete web profile " ++ profile_id) |}.

Definition userTools : list Tool :=
  [getUserInfo; createWebProfile; getWebProfiles; getWebProfile; updateWebProfile;
   deleteWebProfile].

End UserTools.

(* ================================================================== *)
(** ** [PayPalMcpServer] (src/index.ts) *)
(* ================================================================== *)

Record TextContent : Type := { type : string; text : string }.

(** The result of a tool call; [isError] absent is [false]. *)
Record CallToolResult : Type := { content : list TextContent; isError : bool }.

Inductive ServerStatus : Type :=
| Running
| Exited (code : Z).

(** The constructor: the authentication service receives the client
    identifier, the client secret and the environment, and nothing else. *)
Definition PayPalMcpServer_new (c : Config) : World :=
  {| authService :=
       new_PayPalAuthService
         {| auth_clientId := clientId (paypal c);
            auth_clientSecret := clientSecret (paypal c);
            auth_environment := environment (paypal c) |};
     clock_reads := 0;
     exchanges_made := 0;
     requests_made := 0;
     trace := [] |}.

Definition environment_name (e : PayPalEnvironment) : string :=
  match e with
  | sandbox => "sandbox"
  | live => "live"
  end.

(** [tools.find(tool => tool.name === toolName)?.handler] *)
Definition find_handler (tools : list Tool) (toolName : string) : option (Json -> M Json) :=
  match find (fun tool => String.eqb (name tool) toolName) tools with
  | Some tool => Some (handler tool)
  | None => None
  end.

Section Dispatcher.
(** The three imported registries. *)
Variables paymentTools businessTools userTools : list Tool.

(** The handler of [ListToolsRequestSchema] *)
Definition listTools : list Tool := paymentTools ++ businessTools ++ userTools.

Definition getToolHandler (toolName : string) : option (Json -> M Json) :=
  match find_handler paymentTools toolName with
  | Some h => Some h
  | None =>
      match find_handler businessTools toolName with
      | Some h => Some h
      | None => find_handler userTools toolName
      end
  end.

(** The handler of [CallToolRequestSchema] *)
Definition callTool (toolName : string) (args : Json) : M CallToolResult :=
  logger LvInfo ("Tool call: " ++ toolName) [] ;;
  rendered <- ask (fun env => JSON_stringify env args) ;;
  logger LvDebug ("Tool arguments: " ++ rendered) [] ;;
  try_catch
    (ensureAccessToken ;;
     match getToolHandler toolName with
     | None => throw (McpError MethodNotFound ("Unknown tool: " ++ toolName))
     | Some h =>
         validatedArgs <- validateInput toolName args ;;
         result <- h validatedArgs ;;
         shown <- ask (fun env => JSON_stringify_indented env result) ;;
         ret {| content := [{| type := "text"; text := shown |}]; isError := false |}
     end)
    (fun error =>
       match error with
       | McpError _ _ => throw error
       | _ =>
           logger LvError ("Error executing tool " ++ toolName ++ ":") [LogErr error] ;;
           ret {| content := [{| type := "text";
                                 text := "Error: " ++ error_message error |}];
                  isError := true |}
       end).

End Dispatcher.

(** [run]: the outcome of [verifyCredentials] is not inspected; a failure
    to connect the transport ends the process with code 1.  The environment
    named in the last message is the one the service was built with. *)
Definition run : M ServerStatus :=
  try_catch
    (verifyCredentials ;;
     connected <- ask transport_connects ;;
     (if connected : bool then ret tt else throw (Error "transport failed to connect")) ;;
     svc <- get_service ;;
     logger LvInfo ("PayPal MCP server running on "
                    ++ environment_name (auth_environment (config svc)) ++ " environment") [] ;;
     ret Running)
    (fun error =>
       logger LvError "Failed to start PayPal MCP server:" [LogErr error] ;;
       ret (Exited 1)).

(** Start-up of a server linked with the given registries:
    [new PayPalMcpServer()] followed by [run()].  Neither reads them. *)
Definition startup (paymentTools businessTools userTools : list Tool) (c : Config)
    : Env -> Result ServerStatus * World :=
  fun env => run env (PayPalMcpServer_new c).

(** The server as shipped. *)
Definition server_callTool : string -> Json -> M CallToolResult :=
  callTool PaymentTools.paymentTools BusinessTools.businessTools UserTools.userTools.

Definition server_listTools : list Tool :=
  listTools PaymentTools.paymentTools BusinessTools.businessTools UserTools.userTools.

Definition server_getToolHandler : string -> option (Json -> M Json) :=
  getToolHandler PaymentTools.paymentTools BusinessTools.businessTools UserTools.userTools.

(* ================================================================== *)
(** ** Vocabulary of the statements *)
(* ================================================================== *)

(** What [sanitizeForLogging] does to one field of an object. *)
Definition sanitize_field (kv : string * Json) : string * Json :=
  (fst kv, if is_sensitive (fst kv) then REDACTED else sanitizeForLogging (snd kv)).

(** Every field of the output whose lower-cased name is in the list holds
    the marker, at any depth. *)
Fixpoint masked (j : Json) : Prop :=
  match j with
  | JArr items =>
      (fix all (l : list Json) : Prop :=
         match l with
         | [] => True
         | x :: r => masked x /\ all r
         end) items
  | JObj fields =>
      (fix all (l : list (string * Json)) : Prop :=
         match l with
         | [] => True
         | (k, v) :: r => (if is_sensitive k then v = REDACTED else masked v) /\ all r
         end) fields
  | _ => True
  end.

(** [s] is an [.optional()] shape. *)
Definition is_optional (s : Schema) : bool :=
  match s with
  | ZOptional _ => true
  | _ => false
  end.

(** The keys a shape requires: those whose shape is not [.optional()]. *)
Definition required_keys (shape : list (string * Schema)) : list string :=
  map fst (filter (fun ks => negb (is_optional (snd ks))) shape).

(** The input without the fields the shape does not declare. *)
Definition declared_only (shape : list (string * Schema)) (fields : list (string * Json))
    : list (string * Json) :=
  filter (fun kv => includes (shape_keys shape) (fst kv)) fields.

(** An argument object that supplies exactly the required fields of a
    shape, each with a value its field shape accepts. *)
Definition supplies_exactly_required (fmt : ZodFormats) (shape : list (string * Schema))
    (fields : list (string * Json)) : Prop :=
  (forall k, In k (map fst fields) -> In k (required_keys shape)) /\
  (forall k sk, In (k, sk) shape -> is_optional sk = false ->
     exists v, lookup k fields = Some v /\ fst (zparse fmt sk [Key k] (Some v)) = []).

(** The parse results of the declared fields, and the issue a strict shape
    raises for the undeclared ones. *)
Definition field_results (fmt : ZodFormats) (shape : list (string * Schema))
    (p : list PathSeg) (fields : list (string * Json)) : list (string * ParseReturn) :=
  map (fun ks => (fst ks, zparse fmt (snd ks) (p ++ [Key (fst ks)]) (lookup (fst ks) fields))) shape.

Definition unrecognized_issue (p : list PathSeg) (uk : UnknownKeys) (extras : list string)
    : list Issue :=
  match uk, extras with
  | strict, _ :: _ =>
      [{| path := p; message := "Unrecognized key(s) in object: " ++ joinValues extras ", " |}]
  | _, _ => []
  end.

(** Stand-ins for the library's format predicates, used to run examples. *)
Definition sample_formats : ZodFormats :=
  {| isEmail := fun s => String.eqb s "buyer@example.com";
     isUrl := fun s => String.eqb s "https://example.com/return";
     isDatetime := fun s => String.eqb s "2026-01-01T00:00:00Z" |}.

(** A sample environment: the identity endpoint issues [sample_token], the
    resource endpoints answer 201. *)
Definition sample_token : TokenResponse :=
  {| access_token := "A21AAFEpH4PsADK7qSS7pSRsgz";
     token_type := "Bearer";
     app_id := "APP-80W284485P519543T";
     expires_in := 32400;
     nonce := "2026-01-01T00:00:00Z-nonce";
     scope := "openid";
     expiration := None |}.

Definition sample_env : Env :=
  {| Date_now := fun n => (1767225600000 + N.of_nat n)%N;
     token_endpoint := fun _ => inl sample_token;
     resource_endpoint := fun _ _ =>
       Some {| status := 201; response_data := JObj [("id", JStr "5O190127TN364715T")] |};
     formats := sample_formats;
     JSON_stringify := fun _ => "{}";
     JSON_stringify_indented := fun _ => "{}";
     String_of := fun v => match v with Some (JStr s) => s | _ => "undefined" end;
     transport_connects := true |}.

Definition sample_config : Config :=
  {| paypal := {| clientId := "client-id";
                  clientSecret := "client-secret";
                  environment := sandbox;
                  apiBaseUrl := "https://api-m.sandbox.paypal.com";
                  tokenCacheSeconds := Some 3500%Z |};
     server := {| logLevel := LvInfo;
                  requestTimeout := Some 30000%Z;
                  maxRetries := Some 3%Z;
                  retryDelay := Some 1000%Z |} |}.

Definition sample_world : World := PayPalMcpServer_new sample_config.

(** The token exchanges and the resource requests of a stretch of history *)
Fixpoint token_exchanges (t : list Event) : nat :=
  match t with
  | [] => 0
  | EvTokenExchange _ _ :: r => S (token_exchanges r)
  | _ :: r => token_exchanges r
  end.

Fixpoint sent_requests (t : list Event) : list Request :=
  match t with
  | [] => []
  | EvRequest c :: r => c :: sent_requests r
  | _ :: r => sent_requests r
  end.

(** A credential is cached and its stored expiry lies strictly after the
    instant [t] ([t < expiry]); the result is that credential. *)
Definition cached_and_unexpired (svc : PayPalAuthService) (t : Z) : option TokenResponse :=
  match tokenData svc with
  | Some td =>
      match expiration td with
      | Some e => if (t <? e)%Z then Some td else None
      | None => None
      end
  | None => None
  end.

(** The token exchange of a service, as it appears in the history. *)
Definition exchange_event (svc : PayPalAuthService) : Event :=
  EvTokenExchange (baseUrl svc ++ token_path)
    (auth_clientId (config svc) ++ ":" ++ auth_clientSecret (config svc)).

(** The expiry stored for a reply received when the clock shows [t]. *)
Definition stored_expiry (t : N) (reply : TokenResponse) : Z :=
  (Z.of_N t + expires_in reply * 1000 - 60000)%Z.

(** The world after a successful and after a failed exchange. *)
Definition after_exchange (env : Env) (w : World) (reply : TokenResponse) : World :=
  {| authService :=
       {| config := config (authService w);
          baseUrl := baseUrl (authService w);
          tokenData :=
            Some (with_expiration reply (stored_expiry (Date_now env (clock_reads w)) reply)) |};
     clock_reads := S (clock_reads w);
     exchanges_made := S (exchanges_made w);
     requests_made := requests_made w;
     trace := trace w ++ [ EvLog LvDebug "Getting new access token from PayPal" [];
                           exchange_event (authService w);
                           EvLog LvInfo "Successfully obtained new access token" [] ] |}.

Definition after_failed_exchange (w : World) (e : Err) : World :=
  {| authService := authService w;
     clock_reads := clock_reads w;
     exchanges_made := S (exchanges_made w);
     requests_made := requests_made w;
     trace := trace w ++ [ EvLog LvDebug "Getting new access token from PayPal" [];
                           exchange_event (authService w);
                           EvLog LvError "Failed to get access token:" [LogErr e] ] |}.

(** The error [getAccessToken] throws. *)
Definition auth_failure : Err := Error "Failed to authenticate with PayPal API".

(** The world after a clock reading. *)
Definition tick (w : World) : World :=
  {| authService := authService w;
     clock_reads := S (clock_reads w);
     exchanges_made := exchanges_made w;
     requests_made := requests_made w;
     trace := trace w |}.

(** Two configurations that differ at most in [tokenCacheSeconds]. *)
Definition same_but_tokenCacheSeconds (c1 c2 : Config) : Prop :=
  clientId (paypal c1) = clientId (paypal c2) /\
  clientSecret (paypal c1) = clientSecret (paypal c2) /\
  environment (paypal c1) = environment (paypal c2) /\
  apiBaseUrl (paypal c1) = apiBaseUrl (paypal c2) /\
  server c1 = server c2.

(** The world after an event is recorded, after a request has left, and
    after the cached credential is dropped. *)
Definition record (w : World) (ev : Event) : World :=
  {| authService := authService w;
     clock_reads := clock_reads w;
     exchanges_made := exchanges_made w;
     requests_made := requests_made w;
     trace := trace w ++ [ev] |}.

Definition sent (w : World) (c : Request) : World :=
  {| authService := authService w;
     clock_reads := clock_reads w;
     exchanges_made := exchanges_made w;
     requests_made := S (requests_made w);
     trace := trace w ++ [EvRequest c] |}.

Definition cleared (w : World) : World :=
  {| authService := {| config := config (authService w);
                       baseUrl := baseUrl (authService w);
                       tokenData := None |};
     clock_reads := clock_reads w;
     exchanges_made := exchanges_made w;
     requests_made := requests_made w;
     trace := trace w |}.

(** The two log entries of the rejection handler. *)
Definition api_error_log (c : Request) (r : Response) : Event :=
  EvLog LvError "PayPal API Error:"
    [LogJson (JObj [ ("status", JNum (inject_Z (status r)));
                     ("data", sanitizeForLogging (response_data r));
                     ("url", JStr (url c));
                     ("method", JStr (method c)) ])].

Definition refreshing_log : Event :=
  EvLog LvInfo "Access token expired, refreshing..." [].

(** The identity endpoint accepts every exchange. *)
Definition token_endpoint_accepts (env : Env) : Prop :=
  forall n, exists reply, token_endpoint env n = inl reply.

(** A state in which a credential is cached and not yet expired. *)
Definition cached_world : World := snd (ensureAccessToken sample_env sample_world).

(** A request as a tool handler builds it, and a 401 reply. *)
Definition order_request : Request :=
  new_request "post" "/v2/checkout/orders" (Some (JObj [("intent", JStr "CAPTURE")])).

Definition unauthorized : Response :=
  {| status := 401; response_data := JObj [("error", JStr "invalid_token")] |}.

(** The resource endpoint rejects the credential and the identity endpoint
    refuses to issue another. *)
Definition env_revoked : Env :=
  {| Date_now := Date_now sample_env;
     token_endpoint := fun _ =>
       inr (AxiosError
              (new_request "post" "https://api-m.sandbox.paypal.com/v1/oauth2/token"
                 (Some (JStr "grant_type=client_credentials")))
              (Some {| status := 401;
                       response_data := JObj [("error", JStr "invalid_client")] |}));
     resource_endpoint := fun _ _ => Some unauthorized;
     formats := sample_formats;
     JSON_stringify := JSON_stringify sample_env;
     JSON_stringify_indented := JSON_stringify_indented sample_env;
     String_of := String_of sample_env;
     transport_connects := true |}.

(** The resource endpoint rejects the first request and accepts the
    next. *)
Definition env_expired_once : Env :=
  {| Date_now := Date_now sample_env;
     token_endpoint := token_endpoint sample_env;
     resource_endpoint := fun n _ =>
       match n with
       | O => Some unauthorized
       | S _ => Some {| status := 201;
                        response_data := JObj [("id", JStr "5O190127TN364715T")] |}
       end;
     formats := sample_formats;
     JSON_stringify := JSON_stringify sample_env;
     JSON_stringify_indented := JSON_stringify_indented sample_env;
     String_of := String_of sample_env;
     transport_connects := true |}.

(** The state once the call has been announced to the logger. *)
Definition announced (env : Env) (w : World) (toolName : string) (args : Json) : World :=
  record (record w (EvLog LvInfo ("Tool call: " ++ toolName) []))
         (EvLog LvDebug ("Tool arguments: " ++ JSON_stringify env args) []).

(** The two result envelopes of [callTool] and the log entry of its
    [catch] block. *)
Definition text_result (s : string) : CallToolResult :=
  {| content := [{| type := "text"; text := s |}]; isError := false |}.

Definition error_result (e : Err) : CallToolResult :=
  {| content := [{| type := "text"; text := "Error: " ++ error_message e |}];
     isError := true |}.

Definition execution_error_log (toolName : string) (e : Err) : Event :=
  EvLog LvError ("Error executing tool " ++ toolName ++ ":") [LogErr e].

(** The [catch] block of the handler. *)
Definition caught (toolName : string) (e : Err) (w : World) : Result CallToolResult * World :=
  match e with
  | McpError _ _ => (Throw e, w)
  | _ => (Ok (error_result e), record w (execution_error_log toolName e))
  end.

(** The resource endpoints are down. *)
Definition env_down : Env :=
  {| Date_now := Date_now sample_env;
     token_endpoint := token_endpoint sample_env;
     resource_endpoint := fun _ _ =>
       Some {| status := 503; response_data := JObj [("name", JStr "SERVICE_UNAVAILABLE")] |};
     formats := sample_formats;
     JSON_stringify := JSON_stringify sample_env;
     JSON_stringify_indented := JSON_stringify_indented sample_env;
     String_of := String_of sample_env;
     transport_connects := true |}.

(** The smallest valid argument object of [create_order]. *)
Definition minimal_order : Json :=
  JObj [("intent", JStr "CAPTURE");
        ("purchase_units",
          JArr [JObj [("amount", JObj [("currency_code", JStr "USD");
                                       ("value", JStr "10.00")])]])].

(** [k] consecutive calls of [ensureAccessToken], with their results. *)
Fixpoint ensure_many (k : nat) : M (list string) :=
  match k with
  | O => ret []
  | S n =>
      tok <- ensureAccessToken ;;
      rest <- ensure_many n ;;
      ret (tok :: rest)
  end.

(** The world after [k] readings of the clock. *)
Fixpoint ticks (k : nat) (w : World) : World :=
  match k with
  | O => w
  | S n => ticks n (tick w)
  end.

(** The log entry of a failed [verifyCredentials]. *)
Definition verification_failed_log : Event :=
  EvLog LvError "Failed to verify PayPal credentials:" [LogErr auth_failure].

(** An identity endpoint that issues credentials valid for thirty
    seconds. *)
Definition short_lived_token : TokenResponse :=
  {| access_token := "A21AAshortlived";
     token_type := "Bearer";
     app_id := "APP-80W284485P519543T";
     expires_in := 30;
     nonce := "2026-01-01T00:00:00Z-nonce";
     scope := "openid";
     expiration := None |}.

Definition env_short_lived : Env :=
  {| Date_now := Date_now sample_env;
     token_endpoint := fun _ => inl short_lived_token;
     resource_endpoint := resource_endpoint sample_env;
     formats := sample_formats;
     JSON_stringify := JSON_stringify sample_env;
     JSON_stringify_indented := JSON_stringify_indented sample_env;
     String_of := String_of sample_env;
     transport_connects := true |}.

(** The resource endpoint rejects every credential; the identity
    endpoint answers the refresh with a credential that lives thirty
    seconds and rejects the exchange after it.  The exchange numbered 0 is
    the one that filled the cache of [cached_world]. *)
Definition env_short_refresh : Env :=
  {| Date_now := Date_now sample_env;
     token_endpoint := fun n =>
       match n with
       | 1 => inl short_lived_token
       | _ => inr (AxiosError
                     (new_request "post" "https://api-m.sandbox.paypal.com/v1/oauth2/token"
                        (Some (JStr "grant_type=client_credentials")))
                     (Some {| status := 401;
                              response_data := JObj [("error", JStr "invalid_client")] |}))
       end;
     resource_endpoint := fun _ _ => Some unauthorized;
     formats := sample_formats;
     JSON_stringify := JSON_stringify sample_env;
     JSON_stringify_indented := JSON_stringify_indented sample_env;
     String_of := String_of sample_env;
     transport_connects := true |}.

(** [h] is the header of a credential of the service over a stretch of
    execution that starts in [w] and ends in [w']: the header built from
    the credential cached in [w] and not expired then, or from one the
    identity endpoint issued in between. *)
Definition credential_header (env : Env) (w w' : World) (h : string) : Prop :=
  (exists td,
     cached_and_unexpired (authService w) (Z.of_N (Date_now env (clock_reads w))) = Some td /\
     h = bearer td) \/
  (exists k reply,
     exchanges_made w <= k < exchanges_made w' /\
     token_endpoint env k = inl reply /\
     h = bearer reply).

(** A request put on the wire for the caller's request [c] between [w]
    and [w']: same target, method and body, and an [Authorization] header
    that is the header of a credential of the service. *)
Definition authenticated_copy (env : Env) (w w' : World) (c c' : Request) : Prop :=
  url c' = url c /\ method c' = method c /\ data c' = data c /\
  exists h, Authorization c' = Some h /\ credential_header env w w' h.

(** After a first 401 to [c1], sent in [w1]: the request [c2] is the one
    replay of the stretch [delta], nothing but logging follows it, and
    its outcome, a second 401 included, is the outcome of the call. *)
Definition replayed_once (env : Env) (w1 : World) (c2 : Request) (delta : list Event)
    (res : Result Response) : Prop :=
  (exists pre post,
     delta = pre ++ EvRequest c2 :: post /\
     sent_requests pre = [] /\ sent_requests post = [] /\ token_exchanges post = 0) /\
  res = settle c2 (resource_endpoint env (S (requests_made w1)) c2) /\
  (forall resp2,
     resource_endpoint env (S (requests_made w1)) c2 = Some resp2 ->
     status resp2 = 401%Z ->
     res = Throw (AxiosError c2 (Some resp2))).

(** ... or nothing is replayed and the authentication failure is
    surfaced. *)
Definition not_replayed (delta : list Event) (res : Result Response) : Prop :=
  sent_requests delta = [] /\ res = Throw auth_failure.

(** A reply with a 2xx status. *)
Definition is_2xx (r : Response) : bool := ((200 <=? status r) && (status r <? 300))%Z.

(** The outcomes of a call through the instance. *)
Definition instance_outcome (c : Request) (sent_list : list Request) (res : Result Response)
    : Prop :=
  match res with
  | Ok r => is_2xx r = true /\ sent_list <> []
  | Throw e =>
      e = auth_failure \/
      exists c' reply,
        e = AxiosError c' reply /\ In c' sent_list /\
        match reply with Some r => is_2xx r = false | None => True end
  | OutOfFuel => False
  end.

(** The creation tools and the endpoint each one posts to. *)
Definition creation_endpoints : list (string * string) :=
  [ ("create_payment_token", "/v1/vault/payment-tokens");
    ("create_order", "/v2/checkout/orders");
    ("create_payment", "/v1/payments/payment");
    ("create_subscription", "/v1/billing/subscriptions");
    ("create_product", "/v1/catalogs/products");
    ("create_invoice", "/v2/invoicing/invoices");
    ("create_payout", "/v1/payments/payouts");
    ("create_web_profile", "/v1/payment-experience/web-profiles") ].


(** The listed tools for which [schemaMap] holds no shape. *)
Definition unvalidated_tools : list string :=
  [ "get_product"; "get_invoice"; "get_web_profiles"; "get_web_profile";
    "update_web_profile"; "delete_web_profile" ].

(** What the [catch] block of the dispatcher answers for an error. *)
Definition answer_of (e : Err) : Result CallToolResult :=
  match e with
  | McpError _ _ => Throw e
  | _ => Ok (error_result e)
  end.

(** The parse results of the items of an array, from index [i] on. *)
Fixpoint array_results (fmt : ZodFormats) (element : Schema) (p : list PathSeg) (i : nat)
    (items : list Json) : list ParseReturn :=
  match items with
  | [] => []
  | x :: r => zparse fmt element (p ++ [Idx i]) (Some x) :: array_results fmt element p (S i) r
  end.

(** The values of a list of parse results. *)
Definition parsed_items (results : list ParseReturn) : list Json :=
  flat_map (fun r => match snd r with Some v => [v] | None => [] end) results.

(** No string occurs twice. *)
Fixpoint nodupb (l : list string) : bool :=
  match l with
  | [] => true
  | x :: r => negb (includes r x) && nodupb r
  end.

(** Every object shape inside [s] declares each key once, as an object
    literal does. *)
Fixpoint distinct_keys (s : Schema) : bool :=
  match s with
  | ZArray element _ => distinct_keys element
  | ZObject shape _ =>
      nodupb (shape_keys shape)
      && (fix all (l : list (string * Schema)) : bool :=
            match l with
            | [] => true
            | (_, sk) :: r => distinct_keys sk && all r
            end) shape
  | ZOptional inner => distinct_keys inner
  | _ => true
  end.

(** No object shape inside [s] is [.passthrough()]. *)
Fixpoint closed_shape (s : Schema) : bool :=
  match s with
  | ZArray element _ => closed_shape element
  | ZObject shape uk =>
      match uk with passthrough => false | _ => true end
      && (fix all (l : list (string * Schema)) : bool :=
            match l with
            | [] => true
            | (_, sk) :: r => closed_shape sk && all r
            end) shape
  | ZOptional inner => closed_shape inner
  | _ => true
  end.

(** [v] has the form [s] describes, at every depth: the declared types,
    enumeration members, array lengths, every required field, and no
    field an object shape does not declare. *)
Fixpoint conforms (s : Schema) (v : Json) : Prop :=
  match s with
  | ZString _ => exists str, v = JStr str
  | ZNumber _ => exists q, v = JNum q
  | ZBoolean => exists b, v = JBool b
  | ZEnum values => exists str, v = JStr str /\ In str values
  | ZArray element minLength =>
      exists items,
        v = JArr items /\
        Forall (conforms element) items /\
        match minLength with Some n => n <= List.length items | None => True end
  | ZObject shape _ =>
      exists fields,
        v = JObj fields /\
        (forall k, In k (map fst fields) -> In k (shape_keys shape)) /\
        (fix all (l : list (string * Schema)) : Prop :=
           match l with
           | [] => True
           | (k, sk) :: r =>
               match lookup k fields with
               | Some x => conforms sk x
               | None => is_optional sk = true
               end /\ all r
           end) shape
  | ZOptional inner => conforms inner v
  end.

(** The fields of a parsed object. *)
Definition parsed_fields (results : list (string * ParseReturn)) : list (string * Json) :=
  flat_map (fun kr => parsed_field (fst kr) (snd kr)) results.

(** [b] is [a] with the values of the sensitive-named fields replaced by
    the marker and nothing else changed: same constructors, same items in
    the same order, same field names in the same order. *)
Fixpoint redaction_of (a b : Json) : Prop :=
  match a with
  | JArr xs =>
      exists ys, b = JArr ys /\
        (fix go (l : list Json) (m : list Json) : Prop :=
           match l, m with
           | [], [] => True
           | x :: xr, y :: yr => redaction_of x y /\ go xr yr
           | _, _ => False
           end) xs ys
  | JObj fs =>
      exists gs, b = JObj gs /\
        (fix go (l : list (string * Json)) (m : list (string * Json)) : Prop :=
           match l, m with
           | [], [] => True
           | (k, x) :: fr, (k', y) :: gr =>
               k' = k /\ (if is_sensitive k then y = REDACTED else redaction_of x y) /\ go fr gr
           | _, _ => False
           end) fs gs
  | _ => b = a
  end.

(** No object inside [j] has a field with a sensitive name. *)
Fixpoint no_sensitive_key (j : Json) : Prop :=
  match j with
  | JArr items =>
      (fix all (l : list Json) : Prop :=
         match l with
         | [] => True
         | x :: r => no_sensitive_key x /\ all r
         end) items
  | JObj fields =>
      (fix all (l : list (string * Json)) : Prop :=
         match l with
         | [] => True
         | (k, v) :: r => is_sensitive k = false /\ no_sensitive_key v /\ all r
         end) fields
  | _ => True
  end.

(** The strings a pattern denotes. *)
Inductive Matches : Regex -> string -> Prop :=
| MEps : Matches REps ""
| MRange (lo hi c : ascii) : in_range lo hi c = true -> Matches (RRange lo hi) (String c "")
| MSeq (a b : Regex) (s1 s2 : string) :
    Matches a s1 -> Matches b s2 -> Matches (RSeq a b) (s1 ++ s2)
| MAltL (a b : Regex) (s : string) : Matches a s -> Matches (RAlt a b) s
| MAltR (a b : Regex) (s : string) : Matches b s -> Matches (RAlt a b) s
| MStar0 (a : Regex) : Matches (RStar a) ""
| MStarS (a : Regex) (s1 s2 : string) :
    Matches a s1 -> Matches (RStar a) s2 -> Matches (RStar a) (s1 ++ s2).

(** [\d] *)
Definition is_digit (c : ascii) : bool := in_range "0" "9" c.

Fixpoint all_digits (s : string) : bool :=
  match s with
  | EmptyString => true
  | String c r => is_digit c && all_digits r
  end.

(** The sample configuration with the log level lowered to [error]. *)
Definition error_only_config : Config :=
  {| paypal := paypal sample_config;
     server := {| logLevel := LvError;
                  requestTimeout := requestTimeout (server sample_config);
                  maxRetries := maxRetries (server sample_config);
                  retryDelay := retryDelay (server sample_config) |} |}.

(** The shapes the user schema module exports for tools under whose
    names [schemaMap] holds nothing. *)
Definition unregistered_user_shapes : list (string * Schema) :=
  [ ("get_web_profiles", UserSchemas.getWebProfilesSchema);
    ("get_web_profile", UserSchemas.getWebProfileSchema);
    ("update_web_profile", UserSchemas.updateWebProfileSchema);
    ("delete_web_profile", UserSchemas.deleteWebProfileSchema) ].

(* ================================================================== *)
(** * Properties *)
(* ================================================================== *)

(** ** The logging sanitizer *)

Example sanitize_nested :
  sanitizeForLogging
    (JObj [("payment_source",
            JObj [("card", JObj [("number", JStr "4111111111111111");
                                 ("expiry", JStr "2027");
                                 ("Security_Code", JStr "123")])]);
           ("items", JArr [JObj [("token", JObj [("id", JStr "x")])]; JNull])])
  = JObj [("payment_source",
            JObj [("card", JObj [("number", REDACTED);
                                 ("expiry", JStr "2027");
                                 ("Security_Code", REDACTED)])]);
           ("items", JArr [JObj [("token", REDACTED)]; JNull])].
Proof. reflexivity. Qed.

(** An array index never names a sensitive field. *)
Lemma index_key_not_sensitive (i : nat) : is_sensitive (string_of_nat i) = false.
Proof.
  unfold string_of_nat.
  destruct (Nat.to_uint i); reflexivity.
Qed.

Lemma sanitize_primitive (v : Json) : is_object v = false -> sanitizeForLogging v = v.
Proof. destruct v; simpl; intros H; try reflexivity; discriminate. Qed.

Lemma sanitize_entry_eq (k : string) (v : Json) :
  sanitize_entry sanitizeForLogging k v
  = if is_sensitive k then REDACTED else sanitizeForLogging v.
Proof.
  unfold sanitize_entry.
  destruct (is_sensitive k); [reflexivity|].
  destruct (is_object v) eqn:E; [reflexivity|].
  symmetry; apply sanitize_primitive; assumption.
Qed.

Lemma sanitize_array (items : list Json) :
  sanitizeForLogging (JArr items) = JArr (map sanitizeForLogging items).
Proof.
  simpl. f_equal.
  generalize 0%nat.
  induction items as [|v r IH]; intros i; [reflexivity|].
  rewrite sanitize_entry_eq, index_key_not_sensitive.
  simpl. f_equal. apply IH.
Qed.

Lemma sanitize_object (fields : list (string * Json)) :
  sanitizeForLogging (JObj fields) = JObj (map sanitize_field fields).
Proof.
  simpl. f_equal.
  induction fields as [|[k v] r IH]; [reflexivity|].
  rewrite sanitize_entry_eq. unfold sanitize_field at 1. simpl. f_equal. apply IH.
Qed.

(** X4: in the output of the sanitizer every object field, at any depth,
    whose lower-cased name is in the list of sensitive names holds the
    marker. *)
Lemma sanitize_masked (data : Json) : masked (sanitizeForLogging data).
Proof.
  induction data as [| | | |items IH|fields IH] using Json_ind; try exact I.
  - rewrite sanitize_array. simpl.
    induction IH as [|x r Hx _ IHr]; simpl; auto.
  - rewrite sanitize_object. simpl.
    induction IH as [|[k v] r Hx _ IHr]; simpl; [exact I|].
    split; [|exact IHr].
    destruct (is_sensitive k); [reflexivity | exact Hx].
Qed.

(** C9: the sanitizer is idempotent: a second application changes
    nothing; masked and sensitive-named fields stay ["[REDACTED]"], every
    other field is left as the first application produced it. *)
Theorem sanitizeForLogging_idempotent (data : Json) :
  sanitizeForLogging (sanitizeForLogging data) = sanitizeForLogging data.
Proof.
  induction data as [| | | |items IH|fields IH] using Json_ind; try reflexivity.
  - rewrite !sanitize_array. f_equal.
    rewrite map_map.
    induction IH as [|x r Hx _ IHr]; simpl; [reflexivity|].
    rewrite Hx, IHr. reflexivity.
  - rewrite !sanitize_object. f_equal.
    rewrite map_map.
    induction IH as [|[k v] r Hx _ IHr]; simpl; [reflexivity|].
    rewrite IHr. f_equal.
    unfold sanitize_field; simpl.
    destruct (is_sensitive k); [reflexivity|].
    simpl in Hx. rewrite Hx. reflexivity.
Qed.

(** C5: the list of sensitive names contains ["clientSecret"], but the
    key is lower-cased before the comparison, so a field of that name is
    passed to the log unmasked, at the top level and below it. *)
Theorem clientSecret_is_not_masked :
  sanitizeForLogging (JObj [("clientSecret", JStr "EL8vZ-secret")])
  = JObj [("clientSecret", JStr "EL8vZ-secret")]
  /\ sanitizeForLogging
       (JObj [("config", JObj [("clientId", JStr "AbC"); ("clientSecret", JStr "EL8vZ-secret")])])
     = JObj [("config", JObj [("clientId", JStr "AbC"); ("clientSecret", JStr "EL8vZ-secret")])]
  /\ In "clientSecret" sensitiveFields
  /\ is_sensitive "clientSecret" = false
  /\ is_sensitive "client_secret" = true.
Proof.
  repeat split; try reflexivity.
  simpl; auto.
Qed.

Lemma lower_ascii_not_S (c : ascii) : lower_ascii c <> "S"%char.
Proof.
  destruct c as [[] [] [] [] [] [] [] []]; vm_compute; discriminate.
Qed.

(** What the sanitizer does mask: a field is replaced exactly when its
    lower-cased name is one of the eleven lower-case entries of the
    list. *)
Lemma is_sensitive_spec (k : string) :
  is_sensitive k = true <->
  In (toLowerCase k)
     [ "client_secret"; "secret"; "password"; "security_code"; "cvv"; "cvv2";
       "card_number"; "number"; "access_token"; "refresh_token"; "token" ].
Proof.
  unfold is_sensitive, includes, sensitiveFields.
  assert (Hl : forall s, toLowerCase s <> "clientSecret").
  { intros s H.
    do 7 (destruct s as [|? s]; [discriminate|]).
    simpl in H. injection H; intros.
    match goal with
    | E : lower_ascii ?c = "S"%char |- _ => exact (lower_ascii_not_S c E)
    end. }
  rewrite existsb_exists. split.
  - intros [x [Hin Heq]]. apply String.eqb_eq in Heq. subst x.
    simpl in Hin.
    destruct Hin as [H|[H|Hin]]; [simpl; auto | symmetry in H; apply Hl in H; contradiction |].
    simpl. right. exact Hin.
  - intros Hin. exists (toLowerCase k). split; [|apply String.eqb_refl].
    simpl in Hin. simpl. intuition.
Qed.

(** ** Shapes: undeclared and required fields *)

Lemma zparse_object (fmt : ZodFormats) (shape : list (string * Schema)) (uk : UnknownKeys)
    (p : list PathSeg) (fields : list (string * Json)) :
  zparse fmt (ZObject shape uk) p (Some (JObj fields))
  = (flat_map (fun kr => fst (snd kr)) (field_results fmt shape p fields)
       ++ unrecognized_issue p uk (extra_keys shape fields),
     Some (JObj (flat_map (fun kr => parsed_field (fst kr) (snd kr))
                          (field_results fmt shape p fields)
                 ++ match uk with
                    | passthrough =>
                        filter (fun kv => negb (includes (shape_keys shape) (fst kv))) fields
                    | _ => []
                    end))).
Proof.
  assert (E : (fix go (l : list (string * Schema)) : list (string * ParseReturn) :=
                 match l with
                 | [] => []
                 | (k, sk) :: r => (k, zparse fmt sk (p ++ [Key k]) (lookup k fields)) :: go r
                 end) shape = field_results fmt shape p fields).
  { induction shape as [|[k sk] r IH]; [reflexivity|]. simpl. f_equal. exact IH. }
  cbn [zparse]. rewrite E. reflexivity.
Qed.

Lemma parse_inl (fmt : ZodFormats) (s : Schema) (data : Json) :
  fst (zparse fmt s [] (Some data)) = [] -> exists v, parse fmt s data = inl v.
Proof.
  unfold parse. destruct (zparse fmt s [] (Some data)) as [issues v]. simpl.
  intros ->. destruct v; eauto.
Qed.

Lemma parse_inr (fmt : ZodFormats) (s : Schema) (data : Json) :
  fst (zparse fmt s [] (Some data)) <> [] ->
  parse fmt s data = inr (fst (zparse fmt s [] (Some data))).
Proof.
  unfold parse. destruct (zparse fmt s [] (Some data)) as [issues v]. simpl.
  destruct issues; [congruence|]. destruct v; reflexivity.
Qed.

(** A defined input that raises no issue parses to a defined value: the
    last case of [parse] does not arise. *)
Lemma zparse_defined (fmt : ZodFormats) (s : Schema) :
  forall p d, fst (zparse fmt s p (Some d)) = [] ->
              exists v, snd (zparse fmt s p (Some d)) = Some v.
Proof.
  induction s as [checks|checks| |values|element minLength IH|shape uk IH|inner IH]
    using Schema_ind; intros p d.
  - destruct d; cbn; try discriminate. eauto.
  - destruct d; cbn; try discriminate. eauto.
  - destruct d; cbn; try discriminate. eauto.
  - destruct d; cbn; try discriminate.
    destruct (includes values s); cbn; try discriminate. eauto.
  - destruct d; try (cbn; discriminate). cbn [zparse snd]. eauto.
  - destruct d; try (cbn; discriminate). rewrite zparse_object. cbn [snd]. eauto.
  - cbn [zparse]. apply IH.
Qed.

Lemma parse_inl_value (fmt : ZodFormats) (s : Schema) (data v : Json) :
  parse fmt s data = inl v <->
  zparse fmt s [] (Some data) = ([], Some v).
Proof.
  unfold parse. pose proof (@zparse_defined fmt s [] data) as H.
  destruct (zparse fmt s [] (Some data)) as [issues value]. cbn in H.
  destruct issues as [|i r].
  - destruct (H eq_refl) as [v' ->]. split; intros E; inversion E; reflexivity.
  - split; intros E; [destruct value|]; discriminate.
Qed.

Lemma includes_In (xs : list string) (x : string) : includes xs x = true <-> In x xs.
Proof.
  unfold includes. rewrite existsb_exists. split.
  - intros [y [Hy E]]. apply String.eqb_eq in E. subst. exact Hy.
  - intros H. exists x. split; [exact H | apply String.eqb_refl].
Qed.

Lemma lookup_declared_only (shape : list (string * Schema)) (fields : list (string * Json))
    (k : string) :
  In k (shape_keys shape) -> lookup k (declared_only shape fields) = lookup k fields.
Proof.
  intros Hk. unfold declared_only.
  induction fields as [|[k' v] r IH]; [reflexivity|].
  simpl. destruct (includes (shape_keys shape) k') eqn:E; simpl.
  - rewrite IH. reflexivity.
  - destruct (String.eqb_spec k' k) as [->|_]; [|exact IH].
    apply includes_In in Hk. congruence.
Qed.

Lemma lookup_Some_In (fields : list (string * Json)) (k : string) (v : Json) :
  lookup k fields = Some v -> In k (map fst fields).
Proof.
  induction fields as [|[k' v'] r IH]; simpl; [discriminate|].
  destruct (String.eqb_spec k' k) as [->|_]; auto.
Qed.

Lemma extra_keys_declared_only (shape : list (string * Schema)) (fields : list (string * Json)) :
  extra_keys shape (declared_only shape fields) = [].
Proof.
  unfold extra_keys, declared_only.
  induction fields as [|[k v] r IH]; [reflexivity|].
  simpl. destruct (includes (shape_keys shape) k) eqn:E; simpl; [rewrite E; simpl|]; exact IH.
Qed.

(** A shape that strips unknown keys does not see them. *)
Lemma strip_ignores_undeclared (fmt : ZodFormats) (shape : list (string * Schema))
    (p : list PathSeg) (fields : list (string * Json)) :
  zparse fmt (ZObject shape strip) p (Some (JObj fields))
  = zparse fmt (ZObject shape strip) p (Some (JObj (declared_only shape fields))).
Proof.
  rewrite !zparse_object. simpl.
  assert (E : field_results fmt shape p (declared_only shape fields)
              = field_results fmt shape p fields).
  { unfold field_results. apply map_ext_in. intros [k sk] Hin. simpl.
    rewrite lookup_declared_only; [reflexivity|].
    unfold shape_keys. apply (in_map fst) in Hin. exact Hin. }
  rewrite E. reflexivity.
Qed.

(** A strict shape reports the keys it does not declare. *)
Lemma strict_rejects_undeclared (fmt : ZodFormats) (shape : list (string * Schema))
    (fields : list (string * Json)) :
  extra_keys shape fields <> [] ->
  exists issues,
    parse fmt (ZObject shape strict) (JObj fields) = inr issues /\
    In {| path := [];
          message := "Unrecognized key(s) in object: "
                     ++ joinValues (extra_keys shape fields) ", " |} issues.
Proof.
  intros Hex.
  assert (Hz : In {| path := [];
                     message := "Unrecognized key(s) in object: "
                                ++ joinValues (extra_keys shape fields) ", " |}
                  (fst (zparse fmt (ZObject shape strict) [] (Some (JObj fields))))).
  { rewrite zparse_object. simpl. apply in_or_app. right.
    destruct (extra_keys shape fields); [congruence|]. left. reflexivity. }
  eexists. split; [|exact Hz].
  apply parse_inr. intros E. rewrite E in Hz. exact Hz.
Qed.

(** Exactly the required fields, each conforming: accepted, whatever the
    policy on unknown keys. *)
Lemma required_fields_accepted (fmt : ZodFormats) (shape : list (string * Schema))
    (uk : UnknownKeys) (fields : list (string * Json)) :
  NoDup (shape_keys shape) ->
  supplies_exactly_required fmt shape fields ->
  exists v, parse fmt (ZObject shape uk) (JObj fields) = inl v.
Proof.
  intros Hnd [Honly Hreq].
  apply parse_inl. rewrite zparse_object. simpl.
  assert (Hsub : forall k, In k (required_keys shape) -> In k (shape_keys shape)).
  { unfold required_keys, shape_keys. intros k Hk.
    apply in_map_iff in Hk. destruct Hk as [[k' sk] [E Hin]]. simpl in E. subst k'.
    apply filter_In in Hin. destruct Hin as [Hin _].
    apply (in_map fst) in Hin. exact Hin. }
  assert (Hextra : extra_keys shape fields = []).
  { unfold extra_keys.
    assert (Hall : forall k, In k (map fst fields) -> includes (shape_keys shape) k = true).
    { intros k Hk. apply includes_In. auto. }
    revert Hall. generalize (map fst fields) as ks.
    induction ks as [|k r IH]; intros Hall; [reflexivity|].
    simpl. rewrite (Hall k) by (left; reflexivity). simpl.
    apply IH. intros k' Hk'. apply Hall. right. exact Hk'. }
  rewrite Hextra.
  replace (unrecognized_issue [] uk []) with (@nil Issue) by (destruct uk; reflexivity).
  rewrite app_nil_r.
  (* every field of the shape parses without an issue *)
  unfold field_results.
  assert (Hfields : forall ks, In ks shape ->
            fst (zparse fmt (snd ks) [Key (fst ks)] (lookup (fst ks) fields)) = []).
  { intros [k sk] Hin. simpl.
    destruct (is_optional sk) eqn:Eo.
    - destruct sk; try discriminate.
      destruct (lookup k fields) as [v|] eqn:El; [|reflexivity].
      exfalso.
      apply lookup_Some_In in El. apply Honly in El.
      unfold required_keys in El. apply in_map_iff in El.
      destruct El as [[k' sk'] [E Hin']]. simpl in E. subst k'.
      apply filter_In in Hin'. destruct Hin' as [Hin' Hopt]. simpl in Hopt.
      assert (sk' = ZOptional sk).
      { clear - Hnd Hin Hin'.
        induction shape as [|[k0 s0] r IH]; [contradiction|].
        simpl in Hnd. inversion Hnd as [|? ? Hnot Hnd']; subst.
        destruct Hin as [E1|H1], Hin' as [E2|H2].
        - congruence.
        - inversion E1; subst. exfalso. apply Hnot.
          apply (in_map fst) in H2. exact H2.
        - inversion E2; subst. exfalso. apply Hnot.
          apply (in_map fst) in H1. exact H1.
        - apply IH; assumption. }
      subst sk'. discriminate.
    - destruct (Hreq k sk Hin Eo) as [v [El Hv]]. rewrite El. exact Hv. }
  clear - Hfields.
  induction shape as [|ks r IH]; [reflexivity|].
  simpl. rewrite (Hfields ks) by (left; reflexivity). simpl.
  apply IH. intros ks' Hin. apply Hfields. right. exact Hin.
Qed.

Lemma parse_strip_declared_only (fmt : ZodFormats) (shape : list (string * Schema))
    (fields : list (string * Json)) :
  parse fmt (ZObject shape strip) (JObj fields)
  = parse fmt (ZObject shape strip) (JObj (declared_only shape fields)).
Proof.
  unfold parse. rewrite strip_ignores_undeclared. rewrite zparse_object.
  destruct (_ ++ _); reflexivity.
Qed.

Ltac unfold_registered_shape :=
  cbv delta [ PaymentSchemas.createPaymentTokenSchema PaymentSchemas.createOrderSchema
              PaymentSchemas.captureOrderSchema PaymentSchemas.createPaymentSchema
              PaymentSchemas.createSubscriptionSchema BusinessSchemas.createProductSchema
              BusinessSchemas.createInvoiceSchema BusinessSchemas.createPayoutSchema
              UserSchemas.getUserInfoSchema UserSchemas.createWebProfileSchema
              z_object z_strict ];
  cbv beta.

Ltac nodup_keys :=
  cbv [shape_keys map fst];
  repeat (apply NoDup_cons; [simpl; intuition discriminate|]);
  apply NoDup_nil.

(** Every registered shape is an object shape with distinct keys; the two
    user shapes are strict, the eight payment and business shapes strip. *)
Lemma registered_shape_inv (toolName : string) (s : Schema) :
  schema_for toolName schemaMap = Some s ->
  exists shape uk,
    s = ZObject shape uk /\
    NoDup (shape_keys shape) /\
    ((uk = strict /\ (toolName = "get_userinfo" \/ toolName = "create_web_profile")) \/
     (uk = strip /\ toolName <> "get_userinfo" /\ toolName <> "create_web_profile")).
Proof.
  unfold schemaMap. cbn [schema_for].
  repeat match goal with
         | |- (if String.eqb ?k toolName then _ else _) = _ -> _ =>
             destruct (String.eqb_spec k toolName) as [<-|_]
         end;
    try discriminate;
    intros H; injection H as <-;
    unfold_registered_shape;
    do 2 eexists; (split; [reflexivity|]); (split; [nodup_keys|]);
    first [ left; split; [reflexivity|]; auto; fail
          | right; split; [reflexivity|]; split; discriminate ].
Qed.

(** C4 (as amended): for a registered shape, a field the shape does not
    declare is rejected only by the two strict shapes ([get_userinfo],
    [create_web_profile]); the payment and business shapes strip it and
    validate the rest.  Exactly the required fields with conforming values
    are accepted by every registered shape. *)
Theorem registered_shapes_undeclared_and_required (fmt : ZodFormats) (toolName : string)
    (s : Schema) :
  schema_for toolName schemaMap = Some s ->
  exists shape uk,
    s = ZObject shape uk /\
    (uk = strict <-> (toolName = "get_userinfo" \/ toolName = "create_web_profile")) /\
    (forall fields, extra_keys shape fields <> [] ->
       match uk with
       | strict =>
           exists issues,
             parse fmt s (JObj fields) = inr issues /\
             In {| path := [];
                   message := "Unrecognized key(s) in object: "
                              ++ joinValues (extra_keys shape fields) ", " |} issues
       | _ => parse fmt s (JObj fields) = parse fmt s (JObj (declared_only shape fields))
              /\ extra_keys shape (declared_only shape fields) = []
       end) /\
    (forall fields, supplies_exactly_required fmt shape fields ->
       exists v, parse fmt s (JObj fields) = inl v).
Proof.
  intros H.
  destruct (registered_shape_inv _ H) as [shape [uk [-> [Hnd Hk]]]].
  exists shape, uk. split; [reflexivity|]. split; [|split].
  - destruct Hk as [[-> Hn]|[-> [H1 H2]]]; split; auto.
    + discriminate.
    + intros [E|E]; contradiction.
  - intros fields Hex.
    destruct Hk as [[-> _]|[-> _]].
    + apply strict_rejects_undeclared. exact Hex.
    + split; [apply parse_strip_declared_only | apply extra_keys_declared_only].
  - intros fields Hs. apply required_fields_accepted; assumption.
Qed.

(** The user shapes are strict only at the top: a nested object of
    [create_web_profile] strips like any other. *)
Example web_profile_nested_fields_are_stripped (fmt : ZodFormats) :
  parse fmt UserSchemas.createWebProfileSchema
    (JObj [("name", JStr "checkout"); ("input_fields", JObj [("colour", JStr "red")])])
  = inl (JObj [("name", JStr "checkout"); ("input_fields", JObj [])]).
Proof. reflexivity. Qed.

Example create_order_minimal (fmt : ZodFormats) :
  parse fmt PaymentSchemas.createOrderSchema
    (JObj [("intent", JStr "CAPTURE");
           ("purchase_units",
             JArr [JObj [("amount", JObj [("currency_code", JStr "USD");
                                          ("value", JStr "10.00")])]])])
  = inl (JObj [("intent", JStr "CAPTURE");
               ("purchase_units",
                 JArr [JObj [("amount", JObj [("currency_code", JStr "USD");
                                              ("value", JStr "10.00")])]])]).
Proof. reflexivity. Qed.

Example create_order_missing_purchase_units (fmt : ZodFormats) :
  parse fmt PaymentSchemas.createOrderSchema (JObj [("intent", JStr "CAPTURE")])
  = inr [{| path := [Key "purchase_units"]; message := "Required" |}].
Proof. reflexivity. Qed.

(** ** [validateInput] *)

Lemma schemaMap_get_registered (toolName : string) (s : Schema) :
  schema_for toolName schemaMap = Some s -> schemaMap_get toolName = Some (Registered s).
Proof. unfold schemaMap_get. intros ->. reflexivity. Qed.

Lemma validateInput_registered (toolName : string) (s : Schema) (args : Json)
    (env : Env) (w : World) :
  schema_for toolName schemaMap = Some s ->
  validateInput toolName args env w
  = match parse (formats env) s args with
    | inl v => (Ok v, w)
    | inr issues =>
        (Throw (McpError InvalidParams
                  ("Invalid parameters for " ++ toolName ++ ": "
                   ++ join ", " (map formatIssue issues))),
         {| authService := authService w;
            clock_reads := clock_reads w;
            exchanges_made := exchanges_made w;
            requests_made := requests_made w;
            trace := trace w ++ [EvLog LvError ("Validation error for " ++ toolName ++ ":")
                                       [LogText (join ", " (map formatIssue issues))]] |})
    end.
Proof.
  intros H. unfold validateInput. rewrite (schemaMap_get_registered _ H).
  unfold bind, ask. destruct (parse (formats env) s args); reflexivity.
Qed.

(** C4 (as stated) fails: [capture_order] is validated against a shape
    that does not declare [unexpected], and the object is accepted; the
    undeclared field is dropped from what the handler receives.  The same
    holds for [create_order]. *)
Lemma undeclared_field_is_accepted :
  schema_for "capture_order" schemaMap = Some PaymentSchemas.captureOrderSchema
  /\ (forall env w,
        validateInput "capture_order"
          (JObj [("order_id", JStr "5O190127TN364715T"); ("unexpected", JBool true)]) env w
        = (Ok (JObj [("order_id", JStr "5O190127TN364715T")]), w))
  /\ (forall env w,
        validateInput "create_order"
          (JObj [("intent", JStr "CAPTURE");
                 ("purchase_units",
                   JArr [JObj [("amount", JObj [("currency_code", JStr "USD");
                                                ("value", JStr "10.00")])]]);
                 ("unexpected", JBool true)]) env w
        = (Ok (JObj [("intent", JStr "CAPTURE");
                     ("purchase_units",
                       JArr [JObj [("amount", JObj [("currency_code", JStr "USD");
                                                    ("value", JStr "10.00")])]])]), w)).
Proof.
  split; [reflexivity|]. split; intros env w.
  - rewrite (@validateInput_registered _ PaymentSchemas.captureOrderSchema) by reflexivity.
    reflexivity.
  - rewrite (@validateInput_registered _ PaymentSchemas.createOrderSchema) by reflexivity.
    reflexivity.
Qed.

Lemma registered_shapes_witness :
  exists shape uk,
    UserSchemas.createWebProfileSchema = ZObject shape uk /\
    (uk = strict <-> ("create_web_profile" = "get_userinfo"
                      \/ "create_web_profile" = "create_web_profile")) /\
    (forall fields, extra_keys shape fields <> [] ->
       match uk with
       | strict =>
           exists issues,
             parse sample_formats UserSchemas.createWebProfileSchema (JObj fields) = inr issues /\
             In {| path := [];
                   message := "Unrecognized key(s) in object: "
                              ++ joinValues (extra_keys shape fields) ", " |} issues
       | _ => parse sample_formats UserSchemas.createWebProfileSchema (JObj fields)
              = parse sample_formats UserSchemas.createWebProfileSchema
                  (JObj (declared_only shape fields))
              /\ extra_keys shape (declared_only shape fields) = []
       end) /\
    (forall fields, supplies_exactly_required sample_formats shape fields ->
       exists v, parse sample_formats UserSchemas.createWebProfileSchema (JObj fields) = inl v).
Proof.
  exact (@registered_shapes_undeclared_and_required sample_formats "create_web_profile"
           UserSchemas.createWebProfileSchema eq_refl).
Defined.

(** The names of the shipped registries are either registered in
    [schemaMap] or unknown to it; none is a member of [Object.prototype]. *)
Lemma registry_names_are_not_inherited (t : Tool) :
  In t server_listTools -> schemaMap_get (name t) <> Some Inherited.
Proof.
  intros Hin.
  cbv [server_listTools listTools PaymentTools.paymentTools BusinessTools.businessTools
       UserTools.userTools app] in Hin.
  cbn [In] in Hin.
  repeat (destruct Hin as [<-|Hin]); try contradiction; vm_compute; discriminate.
Qed.




(** ** The credential cache *)

Lemma getAccessToken_eq (env : Env) (w : World) :
  getAccessToken env w
  = match token_endpoint env (exchanges_made w) with
    | inl reply => (Ok (access_token reply), after_exchange env w reply)
    | inr e => (Throw auth_failure, after_failed_exchange w e)
    end.
Proof.
  unfold getAccessToken, try_catch, bind, logger, emit, get_service, axios_post_token,
    set_tokenData, now, ret, throw.
  cbn. destruct (token_endpoint env (exchanges_made w)) as [reply|e]; cbn.
  - unfold after_exchange, exchange_event, stored_expiry. cbn.
    rewrite <- !app_assoc. reflexivity.
  - unfold after_failed_exchange, exchange_event, auth_failure. cbn.
    rewrite <- !app_assoc. reflexivity.
Qed.

Lemma ensureAccessToken_eq (env : Env) (w : World) :
  ensureAccessToken env w
  = match tokenData (authService w) with
    | Some td =>
        match expiration td with
        | Some e =>
            if (e =? 0)%Z then getAccessToken env w
            else if (Z.of_N (Date_now env (clock_reads w)) <? e)%Z
                 then (Ok (access_token td), tick w)
                 else getAccessToken env (tick w)
        | None => getAccessToken env w
        end
    | None => getAccessToken env w
    end.
Proof.
  unfold ensureAccessToken, bind, get_service, now, ret. cbn.
  destruct (tokenData (authService w)) as [td|]; [|reflexivity].
  destruct (expiration td) as [e|]; [|reflexivity].
  destruct (e =? 0)%Z; [reflexivity|]. cbn.
  destruct (Z.of_N (Date_now env (clock_reads w)) <? e)%Z; reflexivity.
Qed.

(** The two ways [ensureAccessToken] can go: the cached credential after
    one reading of the clock, or [getAccessToken]. *)
Lemma ensureAccessToken_cases (env : Env) (w : World) :
  (exists td,
     cached_and_unexpired (authService w) (Z.of_N (Date_now env (clock_reads w))) = Some td /\
     ensureAccessToken env w = (Ok (access_token td), tick w))
  \/
  (cached_and_unexpired (authService w) (Z.of_N (Date_now env (clock_reads w))) = None /\
   exists w0, (w0 = w \/ w0 = tick w) /\ ensureAccessToken env w = getAccessToken env w0).
Proof.
  rewrite ensureAccessToken_eq. unfold cached_and_unexpired.
  destruct (tokenData (authService w)) as [td|]; [|right; eauto].
  destruct (expiration td) as [e|]; [|right; eauto].
  destruct (Z.eqb_spec e 0) as [->|Hne].
  - (* an expiry of 0 is falsy; no instant of the clock precedes it *)
    replace (Z.of_N (Date_now env (clock_reads w)) <? 0)%Z with false
      by (symmetry; apply Z.ltb_ge; apply N2Z.is_nonneg).
    right; eauto.
  - destruct (Z.of_N (Date_now env (clock_reads w)) <? e)%Z; [left|right]; eauto.
Qed.

(** C1: [ensureAccessToken] returns the cached credential, with no
    exchange, when one is cached and its stored expiry lies strictly after
    the current instant; in every other case it performs exactly one token
    exchange and returns the credential just acquired (or, when the
    exchange is rejected, fails with the authentication error). *)
Theorem ensureAccessToken_cached_or_one_exchange (env : Env) (w : World) :
  exists delta,
    trace (snd (ensureAccessToken env w)) = trace w ++ delta /\
    sent_requests delta = [] /\
    match cached_and_unexpired (authService w) (Z.of_N (Date_now env (clock_reads w))) with
    | Some td =>
        fst (ensureAccessToken env w) = Ok (access_token td) /\
        delta = [] /\
        authService (snd (ensureAccessToken env w)) = authService w
    | None =>
        token_exchanges delta = 1 /\
        match token_endpoint env (exchanges_made w) with
        | inl reply =>
            fst (ensureAccessToken env w) = Ok (access_token reply) /\
            tokenData (authService (snd (ensureAccessToken env w)))
            = Some (with_expiration reply
                      (stored_expiry
                         (Date_now env (pred (clock_reads (snd (ensureAccessToken env w)))))
                         reply))
        | inr _ =>
            fst (ensureAccessToken env w) = Throw auth_failure /\
            tokenData (authService (snd (ensureAccessToken env w)))
            = tokenData (authService w)
        end
    end.
Proof.
  destruct (ensureAccessToken_cases env w) as [[td [Hc He]]|[Hc [w0 [Hw0 He]]]];
    rewrite Hc, He.
  - exists []. cbn. rewrite app_nil_r. repeat split.
  - assert (Hx : exchanges_made w0 = exchanges_made w) by (destruct Hw0; subst; reflexivity).
    assert (Ht : trace w0 = trace w) by (destruct Hw0; subst; reflexivity).
    assert (Hd : tokenData (authService w0) = tokenData (authService w))
      by (destruct Hw0; subst; reflexivity).
    rewrite getAccessToken_eq, Hx.
    destruct (token_endpoint env (exchanges_made w)) as [reply|e]; cbn; rewrite Ht.
    + eexists. split; [reflexivity|]. repeat split.
    + eexists. split; [reflexivity|]. repeat split. exact Hd.
Qed.

Example ensureAccessToken_first_call :
  fst (ensureAccessToken sample_env sample_world) = Ok (access_token sample_token)
  /\ token_exchanges (trace (snd (ensureAccessToken sample_env sample_world))) = 1
  /\ fst (ensureAccessToken sample_env (snd (ensureAccessToken sample_env sample_world)))
     = Ok (access_token sample_token)
  /\ token_exchanges
       (trace (snd (ensureAccessToken sample_env
                      (snd (ensureAccessToken sample_env sample_world))))) = 1.
Proof. repeat split. Qed.

(** ** The configured token-cache margin *)

(** The same at the level of the process environment. *)
Lemma loadConfig_tokenCacheSeconds_only (pe1 pe2 : string -> option string)
    (parseInt : string -> option Z) :
  (forall key, key <> "PAYPAL_TOKEN_CACHE_SECONDS" -> pe1 key = pe2 key) ->
  match loadConfig pe1 parseInt, loadConfig pe2 parseInt with
  | inl c1, inl c2 => same_but_tokenCacheSeconds c1 c2
  | inr m1, inr m2 => m1 = m2
  | _, _ => False
  end.
Proof.
  intros H. unfold loadConfig, getRequiredEnv, getOptionalEnv.
  rewrite <- !(H "PAYPAL_CLIENT_ID"), <- !(H "PAYPAL_CLIENT_SECRET"),
    <- !(H "PAYPAL_ENVIRONMENT"), <- !(H "LOG_LEVEL"), <- !(H "REQUEST_TIMEOUT"),
    <- !(H "MAX_RETRIES"), <- !(H "RETRY_DELAY") by discriminate.
  destruct (pe1 "PAYPAL_CLIENT_ID") as [cid|]; [|reflexivity].
  destruct (String.eqb cid ""); [reflexivity|].
  destruct (pe1 "PAYPAL_CLIENT_SECRET") as [sec|]; [|reflexivity].
  destruct (String.eqb sec ""); [reflexivity|].
  destruct (String.eqb _ "sandbox"); [repeat split|].
  destruct (String.eqb _ "live"); [repeat split|reflexivity].
Qed.

(** C10: [tokenCacheSeconds] has no effect on the authentication
    service.  Two configurations that differ only there build the same
    server state, so every computation run from it (any sequence of
    [ensureAccessToken], [getAccessToken] and tool calls) gives the same
    result and the same history, and the console shows the same lines; the
    expiry stored by an exchange is always the clock reading plus
    [expires_in * 1000] minus the fixed 60000. *)
Theorem tokenCacheSeconds_has_no_effect (c1 c2 : Config) :
  same_but_tokenCacheSeconds c1 c2 ->
  PayPalMcpServer_new c1 = PayPalMcpServer_new c2 /\
  (forall env, ensureAccessToken env (PayPalMcpServer_new c1)
               = ensureAccessToken env (PayPalMcpServer_new c2)) /\
  (forall env, getAccessToken env (PayPalMcpServer_new c1)
               = getAccessToken env (PayPalMcpServer_new c2)) /\
  (forall (A : Type) (m : M A) env,
     m env (PayPalMcpServer_new c1) = m env (PayPalMcpServer_new c2)) /\
  (forall t, console_output c1 t = console_output c2 t) /\
  (forall env w reply,
     token_endpoint env (exchanges_made w) = inl reply ->
     tokenData (authService (snd (getAccessToken env w)))
     = Some (with_expiration reply
               (Z.of_N (Date_now env (clock_reads w)) + expires_in reply * 1000 - 60000)%Z)).
Proof.
  intros [Hid [Hsec [Henv [_ Hsrv]]]].
  assert (E : PayPalMcpServer_new c1 = PayPalMcpServer_new c2).
  { unfold PayPalMcpServer_new. rewrite Hid, Hsec, Henv. reflexivity. }
  split; [exact E|]. rewrite E.
  repeat split.
  - intros t. unfold console_output. rewrite Hsrv. reflexivity.
  - intros env w reply H. rewrite getAccessToken_eq, H. reflexivity.
Qed.

Lemma tokenCacheSeconds_witness :
  PayPalMcpServer_new sample_config
  = PayPalMcpServer_new
      {| paypal := {| clientId := "client-id";
                      clientSecret := "client-secret";
                      environment := sandbox;
                      apiBaseUrl := "https://api-m.sandbox.paypal.com";
                      tokenCacheSeconds := Some 60%Z |};
         server := server sample_config |}.
Proof.
  apply (@tokenCacheSeconds_has_no_effect sample_config
           {| paypal := {| clientId := "client-id";
                           clientSecret := "client-secret";
                           environment := sandbox;
                           apiBaseUrl := "https://api-m.sandbox.paypal.com";
                           tokenCacheSeconds := Some 60%Z |};
              server := server sample_config |}).
  repeat split.
Defined.

(** ** The request gateway *)

Lemma token_exchanges_app (a b : list Event) :
  token_exchanges (a ++ b) = token_exchanges a + token_exchanges b.
Proof. induction a as [|[] r IH]; simpl; auto. Qed.

Lemma sent_requests_app (a b : list Event) :
  sent_requests (a ++ b) = sent_requests a ++ sent_requests b.
Proof. induction a as [|[] r IH]; simpl; auto. f_equal. exact IH. Qed.

(** What every call of [ensureAccessToken] does, whatever the state. *)
Lemma ensureAccessToken_summary (env : Env) (w : World) :
  exists delta,
    trace (snd (ensureAccessToken env w)) = trace w ++ delta /\
    sent_requests delta = [] /\
    token_exchanges delta <= 1 /\
    requests_made (snd (ensureAccessToken env w)) = requests_made w /\
    config (authService (snd (ensureAccessToken env w))) = config (authService w) /\
    baseUrl (authService (snd (ensureAccessToken env w))) = baseUrl (authService w) /\
    (tokenData (authService w) = None -> token_exchanges delta = 1) /\
    match fst (ensureAccessToken env w) with
    | Ok tok => exists td, tokenData (authService (snd (ensureAccessToken env w))) = Some td
    | Throw e => e = auth_failure /\ token_exchanges delta = 1
    | OutOfFuel => False
    end /\
    (token_endpoint_accepts env -> exists tok, fst (ensureAccessToken env w) = Ok tok).
Proof.
  assert (Hacq : forall w0,
            trace w0 = trace w -> requests_made w0 = requests_made w ->
            config (authService w0) = config (authService w) ->
            baseUrl (authService w0) = baseUrl (authService w) ->
            exists delta,
              trace (snd (getAccessToken env w0)) = trace w ++ delta /\
              sent_requests delta = [] /\
              token_exchanges delta <= 1 /\
              requests_made (snd (getAccessToken env w0)) = requests_made w /\
              config (authService (snd (getAccessToken env w0))) = config (authService w) /\
              baseUrl (authService (snd (getAccessToken env w0))) = baseUrl (authService w) /\
              (tokenData (authService w) = None -> token_exchanges delta = 1) /\
              match fst (getAccessToken env w0) with
              | Ok tok => exists td, tokenData (authService (snd (getAccessToken env w0))) = Some td
              | Throw e => e = auth_failure /\ token_exchanges delta = 1
              | OutOfFuel => False
              end /\
              (token_endpoint_accepts env -> exists tok, fst (getAccessToken env w0) = Ok tok)).
  { intros w0 Ht Hr Hc Hb. rewrite getAccessToken_eq.
    destruct (token_endpoint env (exchanges_made w0)) as [reply|e] eqn:E; cbn; rewrite Ht;
      eexists; (split; [reflexivity|]); cbn; repeat split; eauto.
    intros Hacc. destruct (Hacc (exchanges_made w0)) as [reply Hr']. congruence. }
  rewrite ensureAccessToken_eq.
  destruct (tokenData (authService w)) as [td|] eqn:Etd; [|apply Hacq; auto].
  destruct (expiration td) as [e|]; [|apply Hacq; auto].
  destruct (e =? 0)%Z; [apply Hacq; auto|].
  destruct (Z.of_N (Date_now env (clock_reads w)) <? e)%Z; [|apply Hacq; auto].
  exists []. cbn. rewrite app_nil_r. repeat split; eauto. discriminate.
Qed.

Lemma requestInterceptor_eq (env : Env) (w : World) (c : Request) :
  requestInterceptor c env w
  = if String.eqb (url c) token_path then (Ok c, w)
    else match ensureAccessToken env w with
         | (Ok _, w1) =>
             (Ok match tokenData (authService w1) with
                 | Some td => with_Authorization c (bearer td)
                 | None => c
                 end, w1)
         | (Throw e, w1) => (Throw e, w1)
         | (OutOfFuel, w1) => (OutOfFuel, w1)
         end.
Proof.
  unfold requestInterceptor. destruct (String.eqb (url c) token_path); [reflexivity|].
  unfold bind, get_service, ret.
  destruct (ensureAccessToken env w) as [[tok|e|] w1]; try reflexivity.
  destruct (tokenData (authService w1)); reflexivity.
Qed.

Lemma axios_pass_eq (self : Request -> M Response) (c : Request) (env : Env) (w : World) :
  axios_pass self c env w
  = match requestInterceptor c env w with
    | (Ok c1, w1) =>
        match settle c1 (resource_endpoint env (requests_made w1) c1) with
        | Throw e => responseRejected self e env (sent w1 c1)
        | r => (r, sent w1 c1)
        end
    | (Throw e, w1) => responseRejected self e env w1
    | (OutOfFuel, w1) => (OutOfFuel, w1)
    end.
Proof.
  unfold axios_pass, try_catch, bind, dispatchRequest.
  destruct (requestInterceptor c env w) as [[c1|e|] w1]; reflexivity.
Qed.

(** The rejection handler on an error that carries no response. *)
Lemma responseRejected_other (self : Request -> M Response) (e : Err) (env : Env) (w : World) :
  match e with AxiosError _ (Some _) => False | _ => True end ->
  responseRejected self e env w = (Throw e, w).
Proof. destruct e as [| |c [r|]|]; intros H; try contradiction; reflexivity. Qed.

(** ... on a response that is not a first 401: logged and surfaced. *)
Lemma responseRejected_surfaced (self : Request -> M Response) (c : Request) (r : Response)
    (env : Env) (w : World) :
  ((status r =? 401)%Z && negb (__isRetry c)) = false ->
  responseRejected self (AxiosError c (Some r)) env w
  = (Throw (AxiosError c (Some r)), record w (api_error_log c r)).
Proof.
  intros H. unfold responseRejected, bind, logger, emit, throw. cbn. rewrite H. reflexivity.
Qed.

(** ... and on a first 401: the credential is dropped, a new one is
    ensured and the request goes through the instance again. *)
Lemma responseRejected_refresh (self : Request -> M Response) (c : Request) (r : Response)
    (env : Env) (w : World) :
  status r = 401%Z -> __isRetry c = false ->
  responseRejected self (AxiosError c (Some r)) env w
  = match ensureAccessToken env
            (cleared (record (record w (api_error_log c r)) refreshing_log)) with
    | (Ok _, w2) =>
        self match tokenData (authService w2) with
             | Some td => with_Authorization (as_retry c) (bearer td)
             | None => as_retry c
             end env w2
    | (Throw e, w2) => (Throw e, w2)
    | (OutOfFuel, w2) => (OutOfFuel, w2)
    end.
Proof.
  intros Hs Hr. apply Z.eqb_eq in Hs.
  unfold responseRejected, bind, logger, emit, set_tokenData, get_service.
  rewrite Hs, Hr. cbn [andb negb].
  change (ensureAccessToken env _)
    with (ensureAccessToken env
            (cleared (record (record w (api_error_log c r)) refreshing_log))).
  destruct (ensureAccessToken env
              (cleared (record (record w (api_error_log c r)) refreshing_log)))
    as [[tok|e|] w2]; reflexivity.
Qed.

Lemma requestInterceptor_summary (env : Env) (w : World) (c : Request) :
  exists delta,
    trace (snd (requestInterceptor c env w)) = trace w ++ delta /\
    sent_requests delta = [] /\
    requests_made (snd (requestInterceptor c env w)) = requests_made w /\
    match fst (requestInterceptor c env w) with
    | Ok c1 =>
        url c1 = url c /\ method c1 = method c /\ data c1 = data c /\
        __isRetry c1 = __isRetry c /\
        ((c1 = c /\ snd (requestInterceptor c env w) = w) \/
         exists td, tokenData (authService (snd (requestInterceptor c env w))) = Some td /\
                    c1 = with_Authorization c (bearer td))
    | Throw e => e = auth_failure
    | OutOfFuel => False
    end /\
    (token_endpoint_accepts env -> exists c1, fst (requestInterceptor c env w) = Ok c1).
Proof.
  rewrite requestInterceptor_eq.
  destruct (String.eqb (url c) token_path).
  - exists []. cbn. rewrite app_nil_r. repeat split; eauto.
  - destruct (ensureAccessToken_summary env w)
      as [delta [Ht [Hs [_ [Hr [_ [_ [_ [Hres Hacc]]]]]]]]].
    exists delta.
    destruct (ensureAccessToken env w) as [[tok|e|] w1]; cbn in *.
    + destruct Hres as [td Htd]. rewrite Htd. cbn.
      repeat split; eauto.
    + destruct Hres as [-> _]. repeat split; auto.
      intros Ha. destruct (Hacc Ha) as [? ?]. discriminate.
    + contradiction.
Qed.

Lemma settle_not_2xx (c : Request) (r : Response) :
  ((200 <=? status r) && (status r <? 300))%Z = false ->
  settle c (Some r) = Throw (AxiosError c (Some r)).
Proof. unfold settle. intros ->. reflexivity. Qed.

Lemma settle_401 (c : Request) (r : Response) :
  status r = 401%Z -> settle c (Some r) = Throw (AxiosError c (Some r)).
Proof. intros H. apply settle_not_2xx. rewrite H. reflexivity. Qed.

(** One pass of a request that already carries [__isRetry]: whatever the
    reply, the instance is not entered again. *)
Lemma flagged_pass (self : Request -> M Response) (c : Request) (env : Env) (w : World) :
  __isRetry c = true ->
  exists delta,
    trace (snd (axios_pass self c env w)) = trace w ++ delta /\
    ((fst (axios_pass self c env w) = Throw auth_failure /\ sent_requests delta = [])
     \/
     exists pre post c2,
       delta = pre ++ EvRequest c2 :: post /\
       sent_requests pre = [] /\ sent_requests post = [] /\ token_exchanges post = 0 /\
       fst (axios_pass self c env w) = settle c2 (resource_endpoint env (requests_made w) c2) /\
       ((c2 = c /\
         tokenData (authService (snd (axios_pass self c env w))) = tokenData (authService w))
        \/
        exists td,
          tokenData (authService (snd (axios_pass self c env w))) = Some td /\
          c2 = with_Authorization c (bearer td))) /\
    (token_endpoint_accepts env -> sent_requests delta <> []).
Proof.
  intros Hflag. rewrite axios_pass_eq.
  destruct (requestInterceptor_summary env w c) as [d [Ht [Hs [Hr [Hres Hacc]]]]].
  destruct (requestInterceptor c env w) as [[c1|e|] w1]; cbn in Ht, Hr, Hres, Hacc.
  - destruct Hres as [_ [_ [_ [Hf Hc1]]]]. rewrite Hflag in Hf.
    assert (Hpost : exists post,
              (match settle c1 (resource_endpoint env (requests_made w1) c1) with
               | Throw e => responseRejected self e env (sent w1 c1)
               | r => (r, sent w1 c1)
               end)
              = (settle c1 (resource_endpoint env (requests_made w1) c1),
                 {| authService := authService w1;
                    clock_reads := clock_reads w1;
                    exchanges_made := exchanges_made w1;
                    requests_made := S (requests_made w1);
                    trace := trace w1 ++ EvRequest c1 :: post |})
              /\ sent_requests post = [] /\ token_exchanges post = 0).
    { destruct (resource_endpoint env (requests_made w1) c1) as [r|].
      - unfold settle at 1. destruct ((200 <=? status r) && (status r <? 300))%Z eqn:E.
        + exists []. unfold settle. rewrite E. repeat split.
        + exists [api_error_log c1 r].
          rewrite responseRejected_surfaced by (rewrite Hf; apply andb_false_r).
          unfold settle. rewrite E. unfold record, sent. cbn. rewrite <- app_assoc.
          repeat split.
      - exists []. cbn. repeat split. }
    destruct Hpost as [post [Heq [Hp1 Hp2]]]. rewrite Heq. cbn.
    exists (d ++ EvRequest c1 :: post). rewrite Ht, <- app_assoc.
    split; [reflexivity|]. split.
    + right. exists d, post, c1. rewrite Hr. repeat split; auto.
      destruct Hc1 as [[-> ->]|[td [Htd ->]]]; [left; auto | right; eauto].
    + intros _. rewrite sent_requests_app. cbn. destruct (sent_requests d); discriminate.
  - subst e. rewrite responseRejected_other by exact I. cbn.
    exists d. split; [exact Ht|]. split; [left; auto|].
    intros Ha. destruct (Hacc Ha) as [? ?]. discriminate.
  - contradiction.
Qed.

(** The outcome does not depend on the fuel once there are two levels. *)
Lemma flagged_pass_any_self (self1 self2 : Request -> M Response) (c : Request)
    (env : Env) (w : World) :
  __isRetry c = true -> axios_pass self1 c env w = axios_pass self2 c env w.
Proof.
  intros Hflag. rewrite !axios_pass_eq.
  destruct (requestInterceptor_summary env w c) as [d [_ [_ [_ [Hres _]]]]].
  destruct (requestInterceptor c env w) as [[c1|e|] w1]; cbn in Hres; [| |reflexivity].
  - destruct Hres as [_ [_ [_ [Hf _]]]]. rewrite Hflag in Hf.
    destruct (resource_endpoint env (requests_made w1) c1) as [r|]; [|reflexivity].
    unfold settle. destruct ((200 <=? status r) && (status r <? 300))%Z; [reflexivity|].
    rewrite !responseRejected_surfaced by (rewrite Hf; apply andb_false_r). reflexivity.
  - subst e. rewrite !responseRejected_other by exact I. reflexivity.
Qed.

Lemma axios_pass_ext (self1 self2 : Request -> M Response) (c : Request)
    (env : Env) (w : World) :
  (forall c' env' w', __isRetry c' = true -> self1 c' env' w' = self2 c' env' w') ->
  axios_pass self1 c env w = axios_pass self2 c env w.
Proof.
  intros Hself. rewrite !axios_pass_eq.
  assert (Hrej : forall e w0, responseRejected self1 e env w0 = responseRejected self2 e env w0).
  { intros e w0. destruct e as [| |c0 [r|]|]; try reflexivity.
    destruct ((status r =? 401)%Z && negb (__isRetry c0)) eqn:E.
    - apply andb_prop in E. destruct E as [E1 E2].
      apply Z.eqb_eq in E1. apply negb_true_iff in E2.
      rewrite !responseRejected_refresh by assumption.
      destruct (ensureAccessToken env _) as [[tok|e|] w2]; try reflexivity.
      apply Hself. destruct (tokenData (authService w2)); reflexivity.
    - rewrite !responseRejected_surfaced by assumption. reflexivity. }
  destruct (requestInterceptor c env w) as [[c1|e|] w1]; [|apply Hrej|reflexivity].
  destruct (settle c1 (resource_endpoint env (requests_made w1) c1)); try reflexivity.
  apply Hrej.
Qed.

(** X2: the recursion of the instance through its rejection handler is
    at most two levels deep: any bound of two or more gives the same
    result and the same final state. *)
Theorem axiosInstance_fuel_enough (n : nat) (c : Request) (env : Env) (w : World) :
  axiosInstance_fuel (S (S n)) c env w = axiosInstance c env w.
Proof.
  unfold axiosInstance. cbn [axiosInstance_fuel].
  apply axios_pass_ext. intros c' env' w' Hflag.
  apply flagged_pass_any_self. exact Hflag.
Qed.

(** The outcome of a request that has left, when the rejection handler
    does not replay it. *)
Lemma surfaced_reply (self : Request -> M Response) (c1 : Request) (env : Env) (w1 : World) :
  match resource_endpoint env (requests_made w1) c1 with
  | Some r => ((status r =? 401)%Z && negb (__isRetry c1)) = false
  | None => True
  end ->
  exists post,
    match settle c1 (resource_endpoint env (requests_made w1) c1) with
    | Throw e => responseRejected self e env (sent w1 c1)
    | r => (r, sent w1 c1)
    end
    = (settle c1 (resource_endpoint env (requests_made w1) c1),
       {| authService := authService w1;
          clock_reads := clock_reads w1;
          exchanges_made := exchanges_made w1;
          requests_made := S (requests_made w1);
          trace := trace w1 ++ EvRequest c1 :: post |})
    /\ sent_requests post = [] /\ token_exchanges post = 0.
Proof.
  intros H.
  destruct (resource_endpoint env (requests_made w1) c1) as [r|].
  - unfold settle at 1. destruct ((200 <=? status r) && (status r <? 300))%Z eqn:E.
    + exists []. unfold settle. rewrite E. repeat split.
    + exists [api_error_log c1 r].
      rewrite responseRejected_surfaced by exact H.
      unfold settle. rewrite E. unfold record, sent. cbn. rewrite <- app_assoc.
      repeat split.
  - exists []. cbn. repeat split.
Qed.

(** One pass of a request that carries [__isRetry], once the request
    interceptor has let it through as [c3]: it is sent, and its outcome is
    surfaced with nothing but logging after it. *)
Lemma retry_sent (self : Request -> M Response) (c2 c3 : Request) (env : Env) (w2 w3 : World) :
  __isRetry c3 = true ->
  requestInterceptor c2 env w2 = (Ok c3, w3) ->
  exists post,
    axios_pass self c2 env w2
    = (settle c3 (resource_endpoint env (requests_made w3) c3),
       {| authService := authService w3;
          clock_reads := clock_reads w3;
          exchanges_made := exchanges_made w3;
          requests_made := S (requests_made w3);
          trace := trace w3 ++ EvRequest c3 :: post |})
    /\ sent_requests post = [] /\ token_exchanges post = 0.
Proof.
  intros Hflag Hint. rewrite axios_pass_eq, Hint.
  apply surfaced_reply.
  destruct (resource_endpoint env (requests_made w3) c3); [|exact I].
  rewrite Hflag. apply andb_false_r.
Qed.

(** ... and when the request interceptor fails, nothing is sent. *)
Lemma retry_not_sent (self : Request -> M Response) (c2 : Request) (env : Env) (w2 w3 : World) :
  requestInterceptor c2 env w2 = (Throw auth_failure, w3) ->
  axios_pass self c2 env w2 = (Throw auth_failure, w3).
Proof.
  intros Hint. rewrite axios_pass_eq, Hint. apply responseRejected_other. exact I.
Qed.

Lemma replayed_once_intro (env : Env) (w1 : World) (c2 : Request) (pre post : list Event) :
  sent_requests pre = [] -> sent_requests post = [] -> token_exchanges post = 0 ->
  replayed_once env w1 c2 (pre ++ EvRequest c2 :: post)
    (settle c2 (resource_endpoint env (S (requests_made w1)) c2)).
Proof.
  intros H1 H2 H3. split; [exists pre, post; auto|]. split; [reflexivity|].
  intros resp2 Hr Hs. rewrite Hr. apply settle_401. exact Hs.
Qed.

(** C2 (as amended): a call that is answered 401 and has not been
    replayed drops the cached credential and attempts a fresh exchange,
    whether or not the dropped credential had expired.  If that exchange
    is rejected, the authentication failure is surfaced, nothing is
    replayed and the cache stays empty.  If it is accepted, the new
    credential is cached and the request, marked as a retry and carrying
    it, passes the request interceptor again.  When the new credential is
    still unexpired there (or the request is addressed to the token
    endpoint), that request, with the target, method and body of the
    first, is sent exactly once and its outcome, a second 401 included,
    is surfaced with nothing but logging after it.  When the new
    credential has already expired, one more exchange is attempted: if it
    is accepted the replay carries the newest credential, if it is
    rejected the authentication failure is surfaced and nothing is
    replayed.  In no case is more than one request sent after the first
    401. *)
Theorem unauthorized_call_replayed_at_most_once (env : Env) (w w1 : World) (c c1 : Request)
    (resp : Response) :
  __isRetry c = false ->
  requestInterceptor c env w = (Ok c1, w1) ->
  resource_endpoint env (requests_made w1) c1 = Some resp ->
  status resp = 401%Z ->
  exists delta,
    trace (snd (axiosInstance c env w))
    = trace w1 ++ [EvRequest c1; api_error_log c1 resp; refreshing_log] ++ delta /\
    length (sent_requests delta) <= 1 /\
    match token_endpoint env (exchanges_made w1) with
    | inr _ =>
        token_exchanges delta = 1 /\
        tokenData (authService (snd (axiosInstance c env w))) = None /\
        not_replayed delta (fst (axiosInstance c env w))
    | inl reply =>
        let expiry := stored_expiry (Date_now env (clock_reads w1)) reply in
        let c2 := with_Authorization (as_retry c1) (bearer reply) in
        if String.eqb (url c) token_path
           || (Z.of_N (Date_now env (S (clock_reads w1))) <? expiry)%Z
        then
          token_exchanges delta = 1 /\
          tokenData (authService (snd (axiosInstance c env w)))
          = Some (with_expiration reply expiry) /\
          replayed_once env w1 c2 delta (fst (axiosInstance c env w))
        else
          token_exchanges delta = 2 /\
          match token_endpoint env (S (exchanges_made w1)) with
          | inl reply' =>
              (exists expiry',
                 tokenData (authService (snd (axiosInstance c env w)))
                 = Some (with_expiration reply' expiry')) /\
              replayed_once env w1 (with_Authorization c2 (bearer reply')) delta
                (fst (axiosInstance c env w))
          | inr _ =>
              tokenData (authService (snd (axiosInstance c env w)))
              = Some (with_expiration reply expiry) /\
              not_replayed delta (fst (axiosInstance c env w))
          end
    end.
Proof.
  intros Hflag Hint Hreply Hstatus.
  assert (Hc1 : __isRetry c1 = false /\ url c1 = url c).
  { destruct (requestInterceptor_summary env w c) as [d [_ [_ [_ [Hres _]]]]].
    rewrite Hint in Hres. cbn in Hres. destruct Hres as [Hu [_ [_ [Hf _]]]].
    split; congruence. }
  destruct Hc1 as [Hf1 Hurl1].
  unfold axiosInstance. cbn [axiosInstance_fuel].
  rewrite axios_pass_eq, Hint, Hreply, (settle_401 _ _ Hstatus).
  rewrite responseRejected_refresh by assumption.
  set (W := cleared (record (record (sent w1 c1) (api_error_log c1 resp)) refreshing_log)).
  assert (HW : trace W = trace w1 ++ [EvRequest c1; api_error_log c1 resp; refreshing_log]).
  { unfold W, cleared, record, sent. cbn. rewrite <- !app_assoc. reflexivity. }
  rewrite ensureAccessToken_eq.
  change (tokenData (authService W)) with (@None TokenResponse). cbv beta iota.
  rewrite getAccessToken_eq.
  change (exchanges_made W) with (exchanges_made w1).
  destruct (token_endpoint env (exchanges_made w1)) as [reply|e] eqn:Ex1.
  - (* the refresh is accepted *)
    set (expiry := stored_expiry (Date_now env (clock_reads w1)) reply).
    set (w2 := after_exchange env W reply).
    assert (Htd2 : tokenData (authService w2) = Some (with_expiration reply expiry))
      by reflexivity.
    rewrite Htd2.
    change (bearer (with_expiration reply expiry)) with (bearer reply).
    set (c2 := with_Authorization (as_retry c1) (bearer reply)).
    assert (Hw2 : trace w2
                  = trace w1 ++ [EvRequest c1; api_error_log c1 resp; refreshing_log]
                    ++ [ EvLog LvDebug "Getting new access token from PayPal" [];
                         exchange_event (authService W);
                         EvLog LvInfo "Successfully obtained new access token" [] ]).
    { unfold w2, after_exchange. cbn [trace]. rewrite HW, <- app_assoc. reflexivity. }
    assert (Hr2 : requests_made w2 = S (requests_made w1)) by reflexivity.
    cbv zeta.
    destruct (String.eqb (url c) token_path) eqn:Eurl; cbn [orb].
    + (* addressed to the token endpoint: the request interceptor lets it through *)
      assert (Hint2 : requestInterceptor c2 env w2 = (Ok c2, w2)).
      { rewrite requestInterceptor_eq.
        change (url c2) with (url c1). rewrite Hurl1, Eurl. reflexivity. }
      match goal with
      | |- context [axios_pass ?self c2 env w2] =>
          destruct (@retry_sent self c2 c2 env w2 w2 eq_refl Hint2) as [post [Heq [Hp1 Hp2]]]
      end.
      rewrite Heq. cbn [fst snd trace authService].
      eexists. rewrite Hw2, <- !app_assoc. split; [reflexivity|].
      rewrite !sent_requests_app, !token_exchanges_app. cbn. rewrite Hp1, Hp2. cbn.
      split; [lia|]. split; [reflexivity|]. split; [exact Htd2|].
      apply (@replayed_once_intro env w1 c2
               [ EvLog LvDebug "Getting new access token from PayPal" [];
                 exchange_event (authService W);
                 EvLog LvInfo "Successfully obtained new access token" [] ] post);
        auto.
    + (* a resource request: the request interceptor ensures the credential again *)
      assert (Hurl2 : String.eqb (url c2) token_path = false).
      { change (url c2) with (url c1). rewrite Hurl1. exact Eurl. }
      assert (Hexp2 : expiration (with_expiration reply expiry) = Some expiry) by reflexivity.
      destruct (Z.of_N (Date_now env (S (clock_reads w1))) <? expiry)%Z eqn:Efresh.
      * (* the new credential is unexpired: the replay carries it *)
        assert (Hint2 : requestInterceptor c2 env w2 = (Ok c2, tick w2)).
        { rewrite requestInterceptor_eq, Hurl2, ensureAccessToken_eq, Htd2, Hexp2.
          assert (Hne : (expiry =? 0)%Z = false).
          { apply Z.eqb_neq. apply Z.ltb_lt in Efresh.
            pose proof (N2Z.is_nonneg (Date_now env (S (clock_reads w1)))). lia. }
          rewrite Hne.
          change (clock_reads w2) with (S (clock_reads w1)). rewrite Efresh.
          cbn [authService tick]. rewrite Htd2. reflexivity. }
        match goal with
        | |- context [axios_pass ?self c2 env w2] =>
            destruct (@retry_sent self c2 c2 env w2 (tick w2) eq_refl Hint2)
              as [post [Heq [Hp1 Hp2]]]
        end.
        rewrite Heq. cbn [fst snd trace authService tick].
        eexists. rewrite Hw2, <- !app_assoc. split; [reflexivity|].
        rewrite !sent_requests_app, !token_exchanges_app. cbn. rewrite Hp1, Hp2. cbn.
        split; [lia|]. split; [reflexivity|]. split; [exact Htd2|].
        apply (@replayed_once_intro env w1 c2
                 [ EvLog LvDebug "Getting new access token from PayPal" [];
                   exchange_event (authService W);
                   EvLog LvInfo "Successfully obtained new access token" [] ] post);
          auto.
      * (* the new credential has expired already: one more exchange *)
        assert (Hagain : exists wx,
                  (wx = w2 \/ wx = tick w2) /\
                  ensureAccessToken env w2 = getAccessToken env wx).
        { rewrite ensureAccessToken_eq, Htd2, Hexp2.
          change (clock_reads w2) with (S (clock_reads w1)). rewrite Efresh.
          destruct (expiry =? 0)%Z; eauto. }
        destruct Hagain as [wx [Hwx Hens]].
        assert (Hx : trace wx = trace w2 /\ exchanges_made wx = S (exchanges_made w1) /\
                     requests_made wx = S (requests_made w1) /\
                     authService wx = authService w2).
        { destruct Hwx; subst wx; repeat split. }
        destruct Hx as [Hxt [Hxe [Hxr Hxa]]].
        destruct (token_endpoint env (S (exchanges_made w1))) as [reply'|e'] eqn:Ex2.
        -- set (w3 := after_exchange env wx reply').
           set (expiry' := stored_expiry (Date_now env (clock_reads wx)) reply').
           assert (Hint2 : requestInterceptor c2 env w2
                           = (Ok (with_Authorization c2 (bearer reply')), w3)).
           { rewrite requestInterceptor_eq, Hurl2, Hens, getAccessToken_eq, Hxe, Ex2.
             reflexivity. }
           match goal with
           | |- context [axios_pass ?self c2 env w2] =>
               destruct (@retry_sent self c2 (with_Authorization c2 (bearer reply')) env w2 w3
                           eq_refl Hint2) as [post [Heq [Hp1 Hp2]]]
           end.
           rewrite Heq. cbn [fst snd trace authService].
           assert (Hw3 : trace w3
                         = trace w2 ++ [ EvLog LvDebug "Getting new access token from PayPal" [];
                                         exchange_event (authService wx);
                                         EvLog LvInfo "Successfully obtained new access token" [] ]).
           { unfold w3, after_exchange. cbn [trace]. rewrite Hxt. reflexivity. }
           eexists. rewrite Hw3, Hw2, <- !app_assoc. split; [reflexivity|].
           rewrite !sent_requests_app, !token_exchanges_app. cbn. rewrite Hp1, Hp2. cbn.
           split; [lia|]. split; [reflexivity|].
           split; [exists expiry'; reflexivity|].
           assert (Hr3 : requests_made w3 = S (requests_made w1)) by (unfold w3; cbn; exact Hxr).
           rewrite ?Hr3, ?Hxr.
           apply (@replayed_once_intro env w1 (with_Authorization c2 (bearer reply'))
                    ([ EvLog LvDebug "Getting new access token from PayPal" [];
                       exchange_event (authService W);
                       EvLog LvInfo "Successfully obtained new access token" [] ]
                     ++ [ EvLog LvDebug "Getting new access token from PayPal" [];
                          exchange_event (authService wx);
                          EvLog LvInfo "Successfully obtained new access token" [] ]) post);
             auto.
        -- assert (Hint2 : requestInterceptor c2 env w2
                           = (Throw auth_failure, after_failed_exchange wx e')).
           { rewrite requestInterceptor_eq, Hurl2, Hens, getAccessToken_eq, Hxe, Ex2.
             reflexivity. }
           match goal with
           | |- context [axios_pass ?self c2 env w2] =>
               rewrite (@retry_not_sent self c2 env w2 _ Hint2)
           end.
           cbn [fst snd trace authService after_failed_exchange].
           eexists. rewrite Hxt, Hw2, <- !app_assoc. split; [reflexivity|].
           rewrite !sent_requests_app, !token_exchanges_app. cbn.
           split; [lia|]. split; [reflexivity|].
           split; [rewrite Hxa; exact Htd2|]. split; reflexivity.
  - (* the refresh is rejected *)
    cbn [fst snd trace authService after_failed_exchange].
    eexists. rewrite HW, <- !app_assoc. split; [reflexivity|].
    cbn. split; [lia|]. split; [reflexivity|]. split; [reflexivity|]. split; reflexivity.
Qed.

(** Every call through the instance ends, and sends at most two requests:
    the original and one replay. *)
Lemma axiosInstance_sends_at_most_twice (c : Request) (env : Env) (w : World) :
  exists delta,
    trace (snd (axiosInstance c env w)) = trace w ++ delta /\
    length (sent_requests delta) <= 2 /\
    fst (axiosInstance c env w) <> OutOfFuel.
Proof.
  unfold axiosInstance. cbn [axiosInstance_fuel].
  rewrite axios_pass_eq.
  destruct (requestInterceptor_summary env w c) as [d0 [Ht0 [Hs0 [_ [Hres0 _]]]]].
  destruct (requestInterceptor c env w) as [[c1|e|] w1]; cbn in Ht0, Hres0.
  - clear Hres0.
    destruct (resource_endpoint env (requests_made w1) c1) as [r|].
    + unfold settle. destruct ((200 <=? status r) && (status r <? 300))%Z eqn:E2xx.
      * exists (d0 ++ [EvRequest c1]). cbn. rewrite Ht0, <- app_assoc, sent_requests_app, Hs0.
        cbn. repeat split; [lia|discriminate].
      * destruct ((status r =? 401)%Z && negb (__isRetry c1)) eqn:E401.
        -- apply andb_prop in E401. destruct E401 as [E1 E2].
           apply Z.eqb_eq in E1. apply negb_true_iff in E2.
           rewrite responseRejected_refresh by assumption.
           remember (cleared (record (record (sent w1 c1) (api_error_log c1 r)) refreshing_log))
             as W eqn:EW.
           assert (HW : trace W = trace w1 ++ [EvRequest c1; api_error_log c1 r; refreshing_log]).
           { rewrite EW. unfold cleared, record, sent. cbn. rewrite <- !app_assoc. reflexivity. }
           clear EW.
           destruct (ensureAccessToken_summary env W)
             as [d1 [Ht1 [Hs1 [_ [_ [_ [_ [_ [Hres1 _]]]]]]]]].
           destruct (ensureAccessToken env W) as [[tok|e|] w2]; cbn in Ht1, Hres1.
           ++ assert (Hflag : __isRetry
                        match tokenData (authService w2) with
                        | Some td => with_Authorization (as_retry c1) (bearer td)
                        | None => as_retry c1
                        end = true) by (destruct (tokenData (authService w2)); reflexivity).
              destruct (@flagged_pass (fun _ _ w0 => (OutOfFuel, w0)) _ env w2 Hflag)
                as [d2 [Ht2 [Hcase _]]].
              exists (d0 ++ [EvRequest c1; api_error_log c1 r; refreshing_log] ++ d1 ++ d2).
              rewrite Ht2, Ht1, HW, Ht0, <- !app_assoc.
              split; [reflexivity|].
              rewrite !sent_requests_app, Hs0, Hs1. cbn.
              destruct Hcase as [[Hfail Hs2]|[pre [post [c2 [Hd2 [Hpre [Hpost [_ [Hout _]]]]]]]]].
              ** rewrite Hs2, Hfail. split; [cbn; lia|discriminate].
              ** subst d2. rewrite sent_requests_app, Hpre. cbn. rewrite Hpost, Hout.
                 split; [cbn; lia|].
                 unfold settle. destruct (resource_endpoint env (requests_made w2) c2) as [r2|];
                   [destruct ((200 <=? status r2) && (status r2 <? 300))%Z|]; discriminate.
           ++ exists (d0 ++ [EvRequest c1; api_error_log c1 r; refreshing_log] ++ d1).
              cbn [fst snd]. rewrite Ht1, HW, Ht0, <- !app_assoc.
              split; [reflexivity|].
              rewrite !sent_requests_app, Hs0, Hs1. cbn. split; [lia|discriminate].
           ++ contradiction.
        -- rewrite responseRejected_surfaced by assumption.
           exists (d0 ++ [EvRequest c1; api_error_log c1 r]).
           unfold record, sent. cbn. rewrite Ht0, <- !app_assoc, sent_requests_app, Hs0.
           cbn. repeat split; [lia|discriminate].
    + cbn. exists (d0 ++ [EvRequest c1]). rewrite Ht0, <- app_assoc, sent_requests_app, Hs0.
      cbn. repeat split; [lia|discriminate].
  - subst e. rewrite responseRejected_other by exact I. cbn.
    exists d0. rewrite Hs0. cbn. repeat split; [assumption|lia|discriminate].
  - contradiction.
Qed.

(** C2 (as stated) fails: the call below is answered 401 and has not been
    replayed, the credential is dropped and an exchange is attempted (the
    second of the history, the first being the one that filled the
    cache), but the exchange is rejected; the request is then not replayed
    at all and the caller receives the authentication failure. *)
Lemma rejected_refresh_is_not_replayed :
  __isRetry order_request = false
  /\ tokenData (authService cached_world)
     = Some (with_expiration sample_token 1767257940000%Z)
  /\ token_exchanges (trace cached_world) = 1
  /\ sent_requests (trace cached_world) = []
  /\ sent_requests (trace (snd (axiosInstance order_request env_revoked cached_world)))
     = [with_Authorization order_request "Bearer A21AAFEpH4PsADK7qSS7pSRsgz"]
  /\ resource_endpoint env_revoked 0
       (with_Authorization order_request "Bearer A21AAFEpH4PsADK7qSS7pSRsgz")
     = Some unauthorized
  /\ token_exchanges (trace (snd (axiosInstance order_request env_revoked cached_world))) = 2
  /\ tokenData (authService (snd (axiosInstance order_request env_revoked cached_world))) = None
  /\ fst (axiosInstance order_request env_revoked cached_world) = Throw auth_failure.
Proof. vm_compute. repeat split. Qed.

Example expired_credential_is_replayed_once :
  sent_requests (trace (snd (axiosInstance order_request env_expired_once cached_world)))
  = [ with_Authorization order_request "Bearer A21AAFEpH4PsADK7qSS7pSRsgz";
      with_Authorization (as_retry order_request) "Bearer A21AAFEpH4PsADK7qSS7pSRsgz" ]
  /\ token_exchanges (trace (snd (axiosInstance order_request env_expired_once cached_world))) = 2
  /\ fst (axiosInstance order_request env_expired_once cached_world)
     = Ok {| status := 201; response_data := JObj [("id", JStr "5O190127TN364715T")] |}.
Proof. vm_compute. repeat split. Qed.

Lemma unauthorized_call_witness :
  (__isRetry order_request = false
   /\ requestInterceptor order_request env_expired_once cached_world
      = (Ok (with_Authorization order_request "Bearer A21AAFEpH4PsADK7qSS7pSRsgz"),
         snd (requestInterceptor order_request env_expired_once cached_world))
   /\ resource_endpoint env_expired_once
        (requests_made (snd (requestInterceptor order_request env_expired_once cached_world)))
        (with_Authorization order_request "Bearer A21AAFEpH4PsADK7qSS7pSRsgz")
      = Some unauthorized
   /\ status unauthorized = 401%Z)
  /\ exists delta,
       trace (snd (axiosInstance order_request env_expired_once cached_world))
       = trace (snd (requestInterceptor order_request env_expired_once cached_world))
         ++ [ EvRequest (with_Authorization order_request "Bearer A21AAFEpH4PsADK7qSS7pSRsgz");
              api_error_log
                (with_Authorization order_request "Bearer A21AAFEpH4PsADK7qSS7pSRsgz")
                unauthorized;
              refreshing_log ] ++ delta
       /\ length (sent_requests delta) <= 1
       /\ token_exchanges delta = 1
       /\ replayed_once env_expired_once
            (snd (requestInterceptor order_request env_expired_once cached_world))
            (with_Authorization
               (as_retry (with_Authorization order_request "Bearer A21AAFEpH4PsADK7qSS7pSRsgz"))
               "Bearer A21AAFEpH4PsADK7qSS7pSRsgz")
            delta
            (fst (axiosInstance order_request env_expired_once cached_world)).
Proof.
  split; [repeat split|].
  destruct (@unauthorized_call_replayed_at_most_once env_expired_once cached_world
              (snd (requestInterceptor order_request env_expired_once cached_world))
              order_request
              (with_Authorization order_request "Bearer A21AAFEpH4PsADK7qSS7pSRsgz")
              unauthorized eq_refl eq_refl eq_refl eq_refl)
    as [delta [H1 [H2 H3]]].
  exists delta. split; [exact H1|]. split; [exact H2|].
  exact (conj (proj1 H3) (proj2 (proj2 H3))).
Defined.

(** A refresh that is accepted does not always lead to a replay: here the
    identity endpoint issues a credential that lives thirty seconds, which
    has expired when the retry is prepared, and rejects the exchange that
    follows; one request was sent, nothing is replayed, and the caller
    receives the authentication failure. *)
Example expired_refresh_is_not_replayed :
  sent_requests (trace (snd (axiosInstance order_request env_short_refresh cached_world)))
  = [with_Authorization order_request "Bearer A21AAFEpH4PsADK7qSS7pSRsgz"]
  /\ token_exchanges (trace (snd (axiosInstance order_request env_short_refresh cached_world)))
     = 3
  /\ tokenData (authService (snd (axiosInstance order_request env_short_refresh cached_world)))
     = Some (with_expiration short_lived_token 1767225570002%Z)
  /\ fst (axiosInstance order_request env_short_refresh cached_world) = Throw auth_failure.
Proof. vm_compute. repeat split. Qed.

(** ** The dispatcher *)

Lemma callTool_eq (p b u : list Tool) (toolName : string) (args : Json) (env : Env) (w : World) :
  callTool p b u toolName args env w
  = match ensureAccessToken env (announced env w toolName args) with
    | (Ok _, w1) =>
        match getToolHandler p b u toolName with
        | None => (Throw (McpError MethodNotFound ("Unknown tool: " ++ toolName)), w1)
        | Some h =>
            match validateInput toolName args env w1 with
            | (Ok v, w2) =>
                match h v env w2 with
                | (Ok result, w3) => (Ok (text_result (JSON_stringify_indented env result)), w3)
                | (Throw e, w3) => caught toolName e w3
                | (OutOfFuel, w3) => (OutOfFuel, w3)
                end
            | (Throw e, w2) => caught toolName e w2
            | (OutOfFuel, w2) => (OutOfFuel, w2)
            end
        end
    | (Throw e, w1) => caught toolName e w1
    | (OutOfFuel, w1) => (OutOfFuel, w1)
    end.
Proof.
  unfold callTool, bind, try_catch, logger, emit, ask, ret, throw. cbv beta iota.
  change (ensureAccessToken env _)
    with (ensureAccessToken env (announced env w toolName args)).
  destruct (ensureAccessToken env (announced env w toolName args)) as [[tok|e|] w1].
  - destruct (getToolHandler p b u toolName) as [h|]; [|reflexivity].
    destruct (validateInput toolName args env w1) as [[v|e|] w2].
    + destruct (h v env w2) as [[result|e|] w3]; try reflexivity.
      destruct e; reflexivity.
    + destruct e; reflexivity.
    + reflexivity.
  - destruct e; reflexivity.
  - reflexivity.
Qed.

(** C7: once the credential is ensured, an error thrown by the tool
    handler that is not a protocol error is caught and answered with a
    successful response carrying [isError] and the text
    ["Error: " ++ message]; protocol errors (unknown tool, invalid
    parameters, or one thrown by the handler) are rethrown. *)
Theorem domain_errors_become_error_results (p b u : list Tool) (toolName : string)
    (args : Json) (env : Env) (w w1 : World) (tok : string) :
  ensureAccessToken env (announced env w toolName args) = (Ok tok, w1) ->
  (getToolHandler p b u toolName = None ->
   callTool p b u toolName args env w
   = (Throw (McpError MethodNotFound ("Unknown tool: " ++ toolName)), w1)) /\
  (forall h, getToolHandler p b u toolName = Some h ->
     (forall code m w2,
        validateInput toolName args env w1 = (Throw (McpError code m), w2) ->
        callTool p b u toolName args env w = (Throw (McpError code m), w2)) /\
     (forall v w2,
        validateInput toolName args env w1 = (Ok v, w2) ->
        (forall e w3,
           h v env w2 = (Throw e, w3) ->
           match e with
           | McpError _ _ => callTool p b u toolName args env w = (Throw e, w3)
           | _ =>
               callTool p b u toolName args env w
               = (Ok {| content := [{| type := "text";
                                       text := "Error: " ++ error_message e |}];
                        isError := true |},
                  record w3 (EvLog LvError ("Error executing tool " ++ toolName ++ ":")
                                   [LogErr e]))
           end) /\
        (forall result w3,
           h v env w2 = (Ok result, w3) ->
           callTool p b u toolName args env w
           = (Ok {| content := [{| type := "text";
                                   text := JSON_stringify_indented env result |}];
                    isError := false |}, w3)))).
Proof.
  intros Hens. rewrite callTool_eq, Hens. split.
  - intros ->. reflexivity.
  - intros h ->. split.
    + intros code m w2 ->. reflexivity.
    + intros v w2 ->. split.
      * intros e w3 ->. destruct e; reflexivity.
      * intros result w3 ->. reflexivity.
Qed.

Lemma domain_error_witness :
  ensureAccessToken env_down (announced env_down sample_world "create_order" minimal_order)
  = (Ok (access_token sample_token),
     snd (ensureAccessToken env_down
            (announced env_down sample_world "create_order" minimal_order)))
  /\ fst (server_callTool "create_order" minimal_order env_down sample_world)
     = Ok {| content := [{| type := "text"; text := "Error: Failed to create order" |}];
             isError := true |}.
Proof.
  assert (H1 : ensureAccessToken env_down
                 (announced env_down sample_world "create_order" minimal_order)
               = (Ok (access_token sample_token),
                  snd (ensureAccessToken env_down
                         (announced env_down sample_world "create_order" minimal_order))))
    by (vm_compute; reflexivity).
  split; [exact H1|].
  destruct (@domain_errors_become_error_results
              PaymentTools.paymentTools BusinessTools.businessTools UserTools.userTools
              "create_order" minimal_order env_down sample_world _ _ H1) as [_ H].
  assert (H2 : getToolHandler PaymentTools.paymentTools BusinessTools.businessTools
                 UserTools.userTools "create_order"
               = Some (handler PaymentTools.createOrder)) by reflexivity.
  destruct (H _ H2) as [_ Hv].
  set (w1 := snd (ensureAccessToken env_down
                    (announced env_down sample_world "create_order" minimal_order))) in *.
  assert (H3 : validateInput "create_order" minimal_order env_down w1 = (Ok minimal_order, w1))
    by (vm_compute; reflexivity).
  destruct (Hv _ _ H3) as [He _].
  assert (H4 : handler PaymentTools.createOrder minimal_order env_down w1
               = (Throw (Error "Failed to create order"),
                  snd (handler PaymentTools.createOrder minimal_order env_down w1)))
    by (vm_compute; reflexivity).
  specialize (He _ _ H4). cbv beta iota in He.
  unfold server_callTool. rewrite He. reflexivity.
Defined.

Lemma registered_schema_has_handler (toolName : string) (s : Schema) :
  schema_for toolName schemaMap = Some s ->
  exists h, server_getToolHandler toolName = Some h.
Proof.
  unfold schemaMap. cbn [schema_for].
  repeat match goal with
         | |- (if String.eqb ?k toolName then _ else _) = _ -> _ =>
             destruct (String.eqb_spec k toolName) as [<-|_]
         end;
    try discriminate; intros _; eexists; reflexivity.
Qed.

(** C3 (as amended): a call whose arguments fail validation sends no
    request to a resource endpoint.  The credential is ensured before the
    arguments are validated: with an unexpired credential cached no token
    exchange is made and the call is rejected with the invalid-parameters
    error listing every violated field path; otherwise exactly one token
    exchange precedes validation, and the call is rejected in the same way
    if the exchange succeeds and answered with the authentication error
    if it does not. *)
Theorem invalid_arguments_send_no_request (env : Env) (w : World) (toolName : string)
    (args : Json) (s : Schema) (issues : list Issue) :
  schema_for toolName schemaMap = Some s ->
  parse (formats env) s args = inr issues ->
  exists delta,
    trace (snd (server_callTool toolName args env w))
    = trace w ++ [ EvLog LvInfo ("Tool call: " ++ toolName) [];
                   EvLog LvDebug ("Tool arguments: " ++ JSON_stringify env args) [] ] ++ delta /\
    sent_requests delta = [] /\
    requests_made (snd (server_callTool toolName args env w)) = requests_made w /\
    match cached_and_unexpired (authService w) (Z.of_N (Date_now env (clock_reads w))) with
    | Some _ =>
        token_exchanges delta = 0 /\
        fst (server_callTool toolName args env w)
        = Throw (McpError InvalidParams
                   ("Invalid parameters for " ++ toolName ++ ": "
                    ++ join ", " (map formatIssue issues)))
    | None =>
        token_exchanges delta = 1 /\
        match token_endpoint env (exchanges_made w) with
        | inl _ =>
            fst (server_callTool toolName args env w)
            = Throw (McpError InvalidParams
                       ("Invalid parameters for " ++ toolName ++ ": "
                        ++ join ", " (map formatIssue issues)))
        | inr _ =>
            fst (server_callTool toolName args env w)
            = Ok {| content := [{| type := "text";
                                   text := "Error: Failed to authenticate with PayPal API" |}];
                    isError := true |}
        end
    end.
Proof.
  intros Hs Hp.
  destruct (registered_schema_has_handler _ Hs) as [h Hh].
  unfold server_callTool. rewrite callTool_eq.
  fold server_getToolHandler. rewrite Hh.
  remember (announced env w toolName args) as W eqn:EW.
  assert (HW : trace W = trace w ++ [ EvLog LvInfo ("Tool call: " ++ toolName) [];
                                      EvLog LvDebug ("Tool arguments: "
                                                     ++ JSON_stringify env args) [] ]).
  { rewrite EW. unfold announced, record. cbn. rewrite <- app_assoc. reflexivity. }
  assert (HWs : authService W = authService w) by (rewrite EW; reflexivity).
  assert (HWc : clock_reads W = clock_reads w) by (rewrite EW; reflexivity).
  assert (HWx : exchanges_made W = exchanges_made w) by (rewrite EW; reflexivity).
  assert (HWr : requests_made W = requests_made w) by (rewrite EW; reflexivity).
  clear EW.
  destruct (ensureAccessToken_cases env W) as [[td [Hc He]]|[Hc [w0 [Hw0 He]]]];
    rewrite HWs, HWc in Hc; rewrite Hc, He; clear Hc He.
  - (* cached: only the clock is read before validation *)
    rewrite (validateInput_registered _ args env (tick W) Hs), Hp. cbn.
    eexists. rewrite HW, <- app_assoc. split; [reflexivity|].
    repeat split. exact HWr.
  - assert (Hx0 : exchanges_made w0 = exchanges_made w)
      by (destruct Hw0; subst; assumption).
    assert (Ht0 : trace w0 = trace W) by (destruct Hw0; subst; reflexivity).
    assert (Hr0 : requests_made w0 = requests_made w)
      by (destruct Hw0; subst; assumption).
    rewrite getAccessToken_eq, Hx0.
    destruct (token_endpoint env (exchanges_made w)) as [reply|e].
    + rewrite (validateInput_registered _ args env (after_exchange env w0 reply) Hs), Hp.
      cbn. eexists. rewrite Ht0, HW, <- !app_assoc. split; [reflexivity|].
      repeat split. exact Hr0.
    + cbn. eexists. rewrite Ht0, HW, <- !app_assoc. split; [reflexivity|].
      repeat split. exact Hr0.
Qed.

(** C3 (as stated) fails: with no credential cached, the call below is
    rejected for its missing [purchase_units] only after a token exchange
    has been made; and when that exchange is rejected the call is answered
    with the authentication error instead of the validation error. *)
Lemma token_exchange_precedes_validation :
  tokenData (authService sample_world) = None
  /\ parse (formats sample_env) PaymentSchemas.createOrderSchema
       (JObj [("intent", JStr "CAPTURE")])
     = inr [{| path := [Key "purchase_units"]; message := "Required" |}]
  /\ token_exchanges
       (trace (snd (server_callTool "create_order" (JObj [("intent", JStr "CAPTURE")])
                      sample_env sample_world))) = 1
  /\ fst (server_callTool "create_order" (JObj [("intent", JStr "CAPTURE")])
            sample_env sample_world)
     = Throw (McpError InvalidParams
                "Invalid parameters for create_order: purchase_units: Required")
  /\ token_exchanges
       (trace (snd (server_callTool "create_order" (JObj [("intent", JStr "CAPTURE")])
                      env_revoked sample_world))) = 1
  /\ fst (server_callTool "create_order" (JObj [("intent", JStr "CAPTURE")])
            env_revoked sample_world)
     = Ok {| content := [{| type := "text";
                            text := "Error: Failed to authenticate with PayPal API" |}];
             isError := true |}.
Proof. vm_compute. repeat split. Qed.

Lemma invalid_arguments_witness :
  (schema_for "create_order" schemaMap = Some PaymentSchemas.createOrderSchema
   /\ parse (formats sample_env) PaymentSchemas.createOrderSchema
        (JObj [("intent", JStr "CAPTURE")])
      = inr [{| path := [Key "purchase_units"]; message := "Required" |}])
  /\ exists delta,
       trace (snd (server_callTool "create_order" (JObj [("intent", JStr "CAPTURE")])
                     sample_env cached_world))
       = trace cached_world
         ++ [ EvLog LvInfo "Tool call: create_order" [];
              EvLog LvDebug "Tool arguments: {}" [] ] ++ delta
       /\ sent_requests delta = []
       /\ requests_made (snd (server_callTool "create_order"
                                (JObj [("intent", JStr "CAPTURE")]) sample_env cached_world))
          = requests_made cached_world.
Proof.
  split; [split; reflexivity|].
  destruct (@invalid_arguments_send_no_request sample_env cached_world "create_order"
              (JObj [("intent", JStr "CAPTURE")]) PaymentSchemas.createOrderSchema
              [{| path := [Key "purchase_units"]; message := "Required" |}]
              eq_refl eq_refl)
    as [delta [H1 [H2 [H3 _]]]].
  exists delta. auto.
Defined.

(** ** The registry *)

Lemma find_handler_app (xs ys : list Tool) (toolName : string) :
  find_handler (xs ++ ys) toolName
  = match find_handler xs toolName with
    | Some h => Some h
    | None => find_handler ys toolName
    end.
Proof.
  unfold find_handler.
  induction xs as [|t r IH]; [cbn; destruct (find _ ys); reflexivity|].
  cbn. destruct (String.eqb (name t) toolName); [reflexivity|exact IH].
Qed.

Lemma getToolHandler_first_match (p b u : list Tool) (toolName : string) :
  getToolHandler p b u toolName = find_handler (p ++ b ++ u) toolName.
Proof.
  unfold getToolHandler. rewrite !find_handler_app.
  destruct (find_handler p toolName); reflexivity.
Qed.

(** C6 (as amended): nothing checks the registries for duplicate names.
    Start-up does not depend on them, [listTools] returns their
    concatenation as it is, and a call is routed to the first descriptor
    of that name in the order payment, business, user.  The sixteen names
    of the registries shipped with the server are pairwise distinct. *)
Theorem registries_are_not_checked_for_duplicates :
  (forall p b u c env, startup p b u c env = startup [] [] [] c env) /\
  (forall p b u, listTools p b u = p ++ b ++ u) /\
  (forall p b u toolName,
     getToolHandler p b u toolName = find_handler (listTools p b u) toolName) /\
  map name server_listTools
  = [ "create_payment_token"; "create_order"; "capture_order"; "create_payment";
      "create_subscription"; "create_product"; "create_invoice"; "create_payout";
      "get_product"; "get_invoice"; "get_userinfo"; "create_web_profile";
      "get_web_profiles"; "get_web_profile"; "update_web_profile"; "delete_web_profile" ] /\
  NoDup (map name server_listTools).
Proof.
  split; [reflexivity|]. split; [reflexivity|]. split; [|split; [reflexivity|]].
  - intros p b u toolName. apply getToolHandler_first_match.
  - cbv [server_listTools listTools PaymentTools.paymentTools BusinessTools.businessTools
         UserTools.userTools app map name
         PaymentTools.createPaymentToken PaymentTools.createOrder PaymentTools.captureOrder
         PaymentTools.createPayment PaymentTools.createSubscription
         BusinessTools.createProduct BusinessTools.createInvoice BusinessTools.createPayout
         BusinessTools.getProduct BusinessTools.getInvoice
         UserTools.getUserInfo UserTools.createWebProfile UserTools.getWebProfiles
         UserTools.getWebProfile UserTools.updateWebProfile UserTools.deleteWebProfile].
    repeat (apply NoDup_cons; [simpl; intuition discriminate|]).
    apply NoDup_nil.
Qed.

(** C6 (as stated) fails: a server whose payment registry holds the
    descriptor of [create_order] twice starts, lists both, and routes the
    call to the first. *)
Lemma duplicate_names_are_accepted :
  fst (startup [PaymentTools.createOrder; PaymentTools.createOrder] [] []
         sample_config sample_env) = Ok Running
  /\ map name (listTools [PaymentTools.createOrder; PaymentTools.createOrder] [] [])
     = ["create_order"; "create_order"]
  /\ ~ NoDup (map name (listTools [PaymentTools.createOrder; PaymentTools.createOrder] [] [])).
Proof.
  split; [vm_compute; reflexivity|]. split; [reflexivity|].
  intros H. inversion H as [|x l Hnot _]; subst. apply Hnot. left. reflexivity.
Qed.

(** ** Every call returns *)

Lemma axiosInstance_returns (c : Request) (env : Env) (w : World) :
  fst (axiosInstance c env w) <> OutOfFuel.
Proof.
  destruct (axiosInstance_sends_at_most_twice c env w) as [_ [_ [_ H]]]. exact H.
Qed.

Lemma bind_returns (A B : Type) (m : M A) (k : A -> M B) :
  (forall env w, fst (m env w) <> OutOfFuel) ->
  (forall a env w, fst (k a env w) <> OutOfFuel) ->
  forall env w, fst (bind m k env w) <> OutOfFuel.
Proof.
  intros Hm Hk env w. unfold bind. specialize (Hm env w).
  destruct (m env w) as [[a|e|] w']; cbn in *; [apply Hk|discriminate|congruence].
Qed.

Lemma guarded_call_returns (announce failure : string) (call : M Json) :
  (forall env w, fst (call env w) <> OutOfFuel) ->
  forall env w, fst (guarded_call announce call failure env w) <> OutOfFuel.
Proof.
  intros Hc env w. unfold guarded_call, bind, try_catch, logger, emit, throw. cbv beta iota.
  match goal with |- fst match call env ?W with _ => _ end <> _ =>
    specialize (Hc env W); destruct (call env W) as [[a|e|] w']
  end; cbn in *; congruence.
Qed.

Lemma response_data_returns (m : M Response) (f : Response -> Json) :
  (forall env w, fst (m env w) <> OutOfFuel) ->
  forall env w, fst (bind m (fun response => ret (f response)) env w) <> OutOfFuel.
Proof. intros H. apply bind_returns; [exact H|]. intros a env w. discriminate. Qed.

(** No handler of the shipped registries runs out of fuel. *)
Lemma handlers_return (t : Tool) :
  In t server_listTools ->
  forall args env w, fst (handler t args env w) <> OutOfFuel.
Proof.
  intros Hin args.
  assert (Hask : forall (f : Env -> string) (k : string -> M Json),
            (forall s env w, fst (k s env w) <> OutOfFuel) ->
            forall env w, fst (bind (ask f) k env w) <> OutOfFuel).
  { intros f k Hk. apply bind_returns; [discriminate|exact Hk]. }
  assert (Hread : forall (key : string) (k : option Json -> M Json),
            (forall v env w, fst (k v env w) <> OutOfFuel) ->
            forall env w, fst (bind (read_prop args key) k env w) <> OutOfFuel).
  { intros key k Hk. apply bind_returns; [|exact Hk].
    intros env w. unfold read_prop. destruct args; discriminate. }
  cbv [server_listTools listTools PaymentTools.paymentTools BusinessTools.businessTools
       UserTools.userTools app] in Hin.
  cbn [In] in Hin.
  repeat (destruct Hin as [<-|Hin]);
    try contradiction;
    cbv [handler PaymentTools.createPaymentToken PaymentTools.createOrder
         PaymentTools.captureOrder PaymentTools.createPayment PaymentTools.createSubscription
         BusinessTools.createProduct BusinessTools.createInvoice BusinessTools.createPayout
         BusinessTools.getProduct BusinessTools.getInvoice
         UserTools.getUserInfo UserTools.createWebProfile UserTools.getWebProfiles
         UserTools.getWebProfile UserTools.updateWebProfile UserTools.deleteWebProfile
         post_tool get_by_id];
    try (apply Hread; intros); try apply Hask; intros;
    apply guarded_call_returns;
    first [ apply response_data_returns; intros; apply axiosInstance_returns
          | apply bind_returns; [intros; apply axiosInstance_returns | discriminate] ].
Qed.

Lemma find_handler_In (tools : list Tool) (toolName : string) (h : Json -> M Json) :
  find_handler tools toolName = Some h -> exists t, In t tools /\ h = handler t.
Proof.
  unfold find_handler. destruct (find _ tools) as [t|] eqn:E; [|discriminate].
  intros H. injection H as <-. apply find_some in E. exists t. tauto.
Qed.

Lemma validateInput_returns (toolName : string) (args : Json) (env : Env) (w : World) :
  fst (validateInput toolName args env w) <> OutOfFuel.
Proof.
  unfold validateInput. destruct (schemaMap_get toolName) as [[s|]|]; cbn; try discriminate.
  unfold bind, ask. destruct (parse (formats env) s args); discriminate.
Qed.

(** X3: on the shipped registries the dispatcher answers or throws; no
    handler exhausts the bounded recursion of the instance. *)
Theorem server_callTool_returns (toolName : string) (args : Json) (env : Env) (w : World) :
  fst (server_callTool toolName args env w) <> OutOfFuel.
Proof.
  unfold server_callTool. rewrite callTool_eq.
  destruct (ensureAccessToken_summary env (announced env w toolName args))
    as [d [_ [_ [_ [_ [_ [_ [_ [Hres _]]]]]]]]].
  destruct (ensureAccessToken env (announced env w toolName args)) as [[tok|e|] w1];
    cbn in Hres; [| destruct Hres as [-> _]; discriminate | contradiction].
  clear Hres.
  fold server_getToolHandler.
  destruct (server_getToolHandler toolName) as [h|] eqn:Eh; [|discriminate].
  assert (Hh : forall v env0 w0, fst (h v env0 w0) <> OutOfFuel).
  { unfold server_getToolHandler in Eh.
    rewrite getToolHandler_first_match in Eh.
    apply find_handler_In in Eh. destruct Eh as [t [Hin ->]].
    intros v. apply handlers_return. exact Hin. }
  pose proof (validateInput_returns toolName args env w1) as Hv.
  destruct (validateInput toolName args env w1) as [[v|e|] w2]; cbn in Hv;
    [| destruct e; discriminate | congruence].
  specialize (Hh v env w2).
  destruct (h v env w2) as [[result|e|] w3]; cbn in Hh;
    [discriminate | destruct e; discriminate | congruence].
Qed.

(** X1: whatever the endpoints reply, a call through the instance ends
    and puts at most two requests on the wire, the original and one
    replay, however deep the recursion through the rejection handler is
    allowed to go: the bound is the same for every depth of two or more
    and the recursion is never cut short. *)
Theorem replays_never_exceed_one (n : nat) (c : Request) (env : Env) (w : World) :
  exists delta,
    trace (snd (axiosInstance_fuel (S (S n)) c env w)) = trace w ++ delta /\
    length (sent_requests delta) <= 2 /\
    fst (axiosInstance_fuel (S (S n)) c env w) <> OutOfFuel.
Proof.
  assert (Hdeep : axiosInstance_fuel (S (S n)) c env w = axiosInstance c env w).
  { unfold axiosInstance. cbn [axiosInstance_fuel].
    apply axios_pass_ext. intros c' env' w' Hflag.
    apply flagged_pass_any_self. exact Hflag. }
  rewrite Hdeep.
  destruct (axiosInstance_sends_at_most_twice c env w) as [delta [Ht [Hn Hout]]].
  exists delta. auto.
Qed.
(** ** Credential verification and start-up *)

Lemma verifyCredentials_eq (env : Env) (w : World) :
  verifyCredentials env w
  = match token_endpoint env (exchanges_made w) with
    | inl reply => (Ok true, after_exchange env w reply)
    | inr e => (Ok false, record (after_failed_exchange w e) verification_failed_log)
    end.
Proof.
  unfold verifyCredentials, try_catch, bind. rewrite getAccessToken_eq.
  destruct (token_endpoint env (exchanges_made w)); reflexivity.
Qed.

(** X5: [verifyCredentials] never throws.  It always performs exactly one
    token exchange, even when an unexpired credential is cached, and sends
    no resource request.  When the identity endpoint answers the exchange
    with a token response it answers [true] and caches that credential,
    with the expiry computed from its lifetime; when the request of the
    exchange fails (an error status or no reply, so that [axios.post]
    rejects) it answers [false] and leaves the cache as it was.  These
    are the two kinds of answer the environment has; a 2xx reply whose
    body is not a token response is not among them. *)
Theorem verifyCredentials_swallows_failure (env : Env) (w : World) :
  exists delta,
    trace (snd (verifyCredentials env w)) = trace w ++ delta /\
    token_exchanges delta = 1 /\
    sent_requests delta = [] /\
    match token_endpoint env (exchanges_made w) with
    | inl reply =>
        fst (verifyCredentials env w) = Ok true /\
        tokenData (authService (snd (verifyCredentials env w)))
        = Some (with_expiration reply
                  (Z.of_N (Date_now env (clock_reads w)) + expires_in reply * 1000 - 60000)%Z)
    | inr _ =>
        fst (verifyCredentials env w) = Ok false /\
        authService (snd (verifyCredentials env w)) = authService w
    end.
Proof.
  rewrite verifyCredentials_eq.
  destruct (token_endpoint env (exchanges_made w)) as [reply|e]; cbn.
  - eexists. split; [reflexivity|]. repeat split.
  - rewrite <- app_assoc. eexists. split; [reflexivity|]. repeat split.
Qed.

(** X6: [run] never throws and does not act on the outcome of the
    credential check: the server is running exactly when the transport
    connects, whether or not the configured credentials were accepted;
    otherwise the process exits with code 1.  Start-up makes exactly one
    token exchange and no resource request. *)
Theorem run_ignores_credential_check (env : Env) (w : World) :
  fst (run env w) = (if transport_connects env then Ok Running else Ok (Exited 1)) /\
  exists delta,
    trace (snd (run env w)) = trace w ++ delta /\
    token_exchanges delta = 1 /\
    sent_requests delta = [].
Proof.
  unfold run, try_catch, bind. rewrite verifyCredentials_eq.
  unfold ask, get_service, logger, emit, ret, throw.
  destruct (token_endpoint env (exchanges_made w)) as [reply|e]; cbv beta iota;
    destruct (transport_connects env); cbn; (split; [reflexivity|]);
    rewrite <- ?app_assoc; eexists; (split; [reflexivity|]); repeat split.
Qed.

(** ** Reuse of the cached credential *)

Lemma ticks_fields (k : nat) (w : World) :
  authService (ticks k w) = authService w /\
  clock_reads (ticks k w) = k + clock_reads w /\
  exchanges_made (ticks k w) = exchanges_made w /\
  requests_made (ticks k w) = requests_made w /\
  trace (ticks k w) = trace w.
Proof.
  revert w. induction k as [|n IH]; intros w; cbn; [repeat split|].
  destruct (IH (tick w)) as [H1 [H2 [H3 [H4 H5]]]].
  rewrite H1, H2, H3, H4, H5. cbn. repeat split. lia.
Qed.

(** X7: as long as the clock stays before the stored expiry, any number
    of consecutive [ensureAccessToken] calls return the cached credential;
    each call reads the clock once and nothing else happens: no exchange,
    no log entry, no change of the cache. *)
Theorem cached_credential_is_reused (env : Env) (w : World) (td : TokenResponse) (e : Z)
    (k : nat) :
  tokenData (authService w) = Some td ->
  expiration td = Some e ->
  (forall i, i < k -> (Z.of_N (Date_now env (i + clock_reads w)) < e)%Z) ->
  ensure_many k env w = (Ok (repeat (access_token td) k), ticks k w) /\
  trace (ticks k w) = trace w /\
  authService (ticks k w) = authService w /\
  exchanges_made (ticks k w) = exchanges_made w.
Proof.
  intros Htd He Hclock.
  split; [|destruct (ticks_fields k w) as [H1 [_ [H3 [_ H5]]]]; auto].
  revert w Htd Hclock. induction k as [|n IH]; intros w Htd Hclock; [reflexivity|].
  cbn [ensure_many]. unfold bind at 1.
  assert (H0 : (Z.of_N (Date_now env (clock_reads w)) < e)%Z) by (apply (Hclock 0); lia).
  rewrite ensureAccessToken_eq, Htd, He.
  assert (Hne : (e =? 0)%Z = false).
  { apply Z.eqb_neq. pose proof (N2Z.is_nonneg (Date_now env (clock_reads w))). lia. }
  rewrite Hne. apply Z.ltb_lt in H0. rewrite H0.
  unfold bind. rewrite (IH (tick w)).
  - reflexivity.
  - exact Htd.
  - intros i Hi. cbn. replace (i + S (clock_reads w)) with (S i + clock_reads w) by lia.
    apply Hclock. lia.
Qed.

Lemma cached_credential_witness :
  (tokenData (authService cached_world) = Some (with_expiration sample_token 1767257940000%Z)
   /\ expiration (with_expiration sample_token 1767257940000%Z) = Some 1767257940000%Z)
  /\ fst (ensure_many 3 sample_env cached_world)
     = Ok [access_token sample_token; access_token sample_token; access_token sample_token].
Proof.
  split; [split; reflexivity|].
  assert (Hc : forall i, i < 3 ->
            (Z.of_N (Date_now sample_env (i + clock_reads cached_world)) < 1767257940000)%Z).
  { intros i Hi. destruct i as [|[|[|i]]]; [reflexivity|reflexivity|reflexivity|lia]. }
  destruct (@cached_credential_is_reused sample_env cached_world
              (with_expiration sample_token 1767257940000%Z) 1767257940000%Z 3
              eq_refl eq_refl Hc) as [H _].
  rewrite H. reflexivity.
Defined.

(** X8: a credential whose reported lifetime is 60 seconds or less is
    stored with an expiry that is not after the instant it was received,
    so with a clock that does not run backwards it is never served from
    the cache: the next [ensureAccessToken] makes a new exchange. *)
Theorem short_lived_credential_is_never_reused (env : Env) (w : World)
    (reply : TokenResponse) :
  token_endpoint env (exchanges_made w) = inl reply ->
  (expires_in reply <= 60)%Z ->
  (Date_now env (clock_reads w) <= Date_now env (S (clock_reads w)))%N ->
  exists delta,
    trace (snd (ensureAccessToken env (snd (getAccessToken env w))))
    = trace (snd (getAccessToken env w)) ++ delta /\
    token_exchanges delta = 1.
Proof.
  intros Hreply Hshort Hmono.
  rewrite getAccessToken_eq, Hreply. cbn [snd].
  destruct (ensureAccessToken_cases env (after_exchange env w reply))
    as [[td [Hc _]]|[_ [w0 [Hw0 He]]]].
  - exfalso. unfold cached_and_unexpired in Hc. cbn in Hc. unfold stored_expiry in Hc.
    destruct (Z.ltb_spec (Z.of_N (Date_now env (S (clock_reads w))))
                (Z.of_N (Date_now env (clock_reads w)) + expires_in reply * 1000 - 60000));
      [|discriminate].
    apply N2Z.inj_le in Hmono. lia.
  - rewrite He, getAccessToken_eq.
    assert (Ht : trace w0 = trace (after_exchange env w reply))
      by (destruct Hw0; subst; reflexivity).
    destruct (token_endpoint env (exchanges_made w0)); cbn; rewrite Ht;
      eexists; (split; [reflexivity|]); reflexivity.
Qed.

Lemma short_lived_witness :
  (expires_in short_lived_token <= 60)%Z /\
  exists delta,
    trace (snd (ensureAccessToken env_short_lived
                  (snd (getAccessToken env_short_lived sample_world))))
    = trace (snd (getAccessToken env_short_lived sample_world)) ++ delta /\
    token_exchanges delta = 1.
Proof.
  split; [vm_compute; discriminate|].
  apply (@short_lived_credential_is_never_reused env_short_lived sample_world
           short_lived_token).
  - reflexivity.
  - vm_compute. discriminate.
  - vm_compute. discriminate.
Defined.

(** ** What the instance sends *)

Lemma cached_is_tokenData (svc : PayPalAuthService) (t : Z) (td : TokenResponse) :
  cached_and_unexpired svc t = Some td -> tokenData svc = Some td.
Proof.
  unfold cached_and_unexpired. destruct (tokenData svc) as [td0|]; [|discriminate].
  destruct (expiration td0); [|discriminate].
  destruct (t <? z)%Z; congruence.
Qed.

(** The header of a credential stays one when the stretch is extended at
    its end ... *)
Lemma credential_header_widen (env : Env) (w w1 w2 : World) (h : string) :
  credential_header env w w1 h -> exchanges_made w1 <= exchanges_made w2 ->
  credential_header env w w2 h.
Proof.
  intros [H|[k [reply [Hk [Hr Hh]]]]] Hle; [left; exact H|].
  right. exists k, reply. split; [lia|]. auto.
Qed.

(** ... and at its beginning, as long as the credential cached where the
    later stretch starts belongs to the earlier one. *)
Lemma credential_header_later (env : Env) (w wm w' : World) (h : string) :
  exchanges_made w <= exchanges_made wm ->
  (forall td, tokenData (authService wm) = Some td ->
              credential_header env w wm (bearer td)) ->
  exchanges_made wm <= exchanges_made w' ->
  credential_header env wm w' h ->
  credential_header env w w' h.
Proof.
  intros Hle Hinv Hle' [[td [Hc ->]]|[k [reply [Hk [Hr Hh]]]]].
  - apply cached_is_tokenData in Hc.
    eapply credential_header_widen; [exact (Hinv td Hc)|exact Hle'].
  - right. exists k, reply. split; [lia|]. auto.
Qed.

(** Only the service, the clock and the exchange counter matter. *)
Lemma credential_header_ext (env : Env) (w w' v v' : World) (h : string) :
  authService v = authService w -> clock_reads v = clock_reads w ->
  exchanges_made v = exchanges_made w -> exchanges_made v' = exchanges_made w' ->
  credential_header env w w' h -> credential_header env v v' h.
Proof.
  intros Ha Hc He He'. unfold credential_header. rewrite Ha, Hc, He, He'. auto.
Qed.

Lemma authenticated_copy_impl (env : Env) (w w' v v' : World) (c : Request)
    (l : list Request) :
  (forall h, credential_header env w w' h -> credential_header env v v' h) ->
  Forall (authenticated_copy env w w' c) l -> Forall (authenticated_copy env v v' c) l.
Proof.
  intros H. apply Forall_impl. intros c' [Hu [Hm [Hd [h [Hh Hc]]]]].
  repeat split; auto. exists h. auto.
Qed.

(** What [ensureAccessToken] leaves in the cache when it succeeds. *)
Lemma ensureAccessToken_credential (env : Env) (w : World) :
  exists delta,
    trace (snd (ensureAccessToken env w)) = trace w ++ delta /\
    sent_requests delta = [] /\
    token_exchanges delta <= 1 /\
    exchanges_made (snd (ensureAccessToken env w)) = exchanges_made w + token_exchanges delta /\
    requests_made (snd (ensureAccessToken env w)) = requests_made w /\
    match fst (ensureAccessToken env w) with
    | Ok _ =>
        exists td,
          tokenData (authService (snd (ensureAccessToken env w))) = Some td /\
          credential_header env w (snd (ensureAccessToken env w)) (bearer td)
    | Throw e => e = auth_failure /\ ~ token_endpoint_accepts env
    | OutOfFuel => False
    end.
Proof.
  destruct (ensureAccessToken_cases env w) as [[td [Hc ->]]|[_ [w0 [Hw0 ->]]]].
  - exists []. cbn. rewrite app_nil_r, Nat.add_0_r. repeat split; auto.
    exists td. split; [exact (cached_is_tokenData _ _ Hc)|]. left. eauto.
  - assert (Hw : trace w0 = trace w /\ exchanges_made w0 = exchanges_made w /\
                 requests_made w0 = requests_made w)
      by (destruct Hw0; subst; repeat split).
    destruct Hw as [Ht [He Hr]].
    rewrite getAccessToken_eq.
    destruct (token_endpoint env (exchanges_made w0)) as [reply|e] eqn:E;
      cbn [fst snd after_exchange after_failed_exchange trace exchanges_made requests_made
           authService tokenData].
    + exists [ EvLog LvDebug "Getting new access token from PayPal" [];
               exchange_event (authService w0);
               EvLog LvInfo "Successfully obtained new access token" [] ].
      rewrite Ht, He, Hr. split; [reflexivity|]. split; [reflexivity|].
      cbn [token_exchanges exchange_event]. split; [lia|]. split; [lia|].
      split; [reflexivity|].
      eexists. split; [reflexivity|]. right. exists (exchanges_made w), reply.
      split; [cbn; lia|]. split; [congruence|reflexivity].
    + exists [ EvLog LvDebug "Getting new access token from PayPal" [];
               exchange_event (authService w0);
               EvLog LvError "Failed to get access token:" [LogErr e] ].
      rewrite Ht, He, Hr. split; [reflexivity|]. split; [reflexivity|].
      cbn [token_exchanges exchange_event]. split; [lia|]. split; [lia|].
      split; [reflexivity|].
      split; [reflexivity|]. intros Hacc. destruct (Hacc (exchanges_made w0)) as [r Hr'].
      congruence.
Qed.

(** The request interceptor on a request that is not addressed to the
    token endpoint. *)
Lemma requestInterceptor_resource (env : Env) (w : World) (c : Request) :
  String.eqb (url c) token_path = false ->
  exists delta,
    trace (snd (requestInterceptor c env w)) = trace w ++ delta /\
    sent_requests delta = [] /\
    token_exchanges delta <= 1 /\
    exchanges_made (snd (requestInterceptor c env w))
    = exchanges_made w + token_exchanges delta /\
    requests_made (snd (requestInterceptor c env w)) = requests_made w /\
    match fst (requestInterceptor c env w) with
    | Ok c1 =>
        exists td,
          c1 = with_Authorization c (bearer td) /\
          tokenData (authService (snd (requestInterceptor c env w))) = Some td /\
          credential_header env w (snd (requestInterceptor c env w)) (bearer td)
    | Throw e => e = auth_failure /\ ~ token_endpoint_accepts env
    | OutOfFuel => False
    end.
Proof.
  intros Hurl. rewrite requestInterceptor_eq, Hurl.
  destruct (ensureAccessToken_credential env w) as [delta [Ht [Hs [Hn [He [Hr Hres]]]]]].
  exists delta.
  destruct (ensureAccessToken env w) as [[tok|e|] w1]; cbn in *.
  - destruct Hres as [td [Htd Hcred]]. rewrite Htd. repeat split; eauto.
  - repeat split; tauto.
  - contradiction.
Qed.

Lemma settle_outcome (c : Request) (reply : option Response) :
  match settle c reply with
  | Ok r => reply = Some r /\ is_2xx r = true
  | Throw e =>
      e = AxiosError c reply /\
      match reply with Some r => is_2xx r = false | None => True end
  | OutOfFuel => False
  end.
Proof.
  unfold settle, is_2xx. destruct reply as [r|]; [|auto].
  destruct ((200 <=? status r) && (status r <? 300))%Z eqn:E; auto.
Qed.

Lemma settled_outcome (c c1 : Request) (reply : option Response) (rest : list Request) :
  instance_outcome c (c1 :: rest) (settle c1 reply).
Proof.
  pose proof (settle_outcome c1 reply) as Hout. unfold instance_outcome.
  destruct (settle c1 reply) as [r|e|]; [| |contradiction].
  - destruct Hout as [_ H2]. split; [exact H2|discriminate].
  - destruct Hout as [-> H2]. right. eexists _, _. split; [reflexivity|].
    split; [left; reflexivity|exact H2].
Qed.

(** One pass of a replayed request. *)
Lemma replay_pass (self : Request -> M Response) (c : Request) (env : Env) (w : World) :
  __isRetry c = true -> String.eqb (url c) token_path = false ->
  exists delta,
    trace (snd (axios_pass self c env w)) = trace w ++ delta /\
    token_exchanges delta <= 1 /\
    exchanges_made (snd (axios_pass self c env w)) = exchanges_made w + token_exchanges delta /\
    length (sent_requests delta) <= 1 /\
    Forall (fun c' => exists td,
              c' = with_Authorization c (bearer td) /\
              credential_header env w (snd (axios_pass self c env w)) (bearer td))
           (sent_requests delta) /\
    instance_outcome c (sent_requests delta) (fst (axios_pass self c env w)).
Proof.
  intros Hflag Hurl.
  destruct (requestInterceptor_resource env w c Hurl) as [d [Ht [Hs [Hn [He [Hr Hres]]]]]].
  destruct (requestInterceptor c env w) as [[c1|e|] w1] eqn:Hint; cbn in Ht, He, Hr, Hres.
  - destruct Hres as [td [-> [Htd Hcred]]].
    destruct (@retry_sent self c (with_Authorization c (bearer td)) env w w1 Hflag Hint)
      as [post [Heq [Hp1 Hp2]]].
    rewrite Heq. cbn [fst snd trace exchanges_made].
    exists (d ++ EvRequest (with_Authorization c (bearer td)) :: post).
    rewrite Ht, <- app_assoc. split; [reflexivity|].
    rewrite token_exchanges_app, sent_requests_app, Hs.
    cbn [sent_requests token_exchanges app]. rewrite Hp1, Hp2.
    split; [lia|]. split; [lia|]. split; [cbn; lia|].
    split; [constructor; [|constructor]; exists td; split; [reflexivity|]|].
    + revert Hcred. apply credential_header_ext; reflexivity.
    + apply settled_outcome.
  - destruct Hres as [-> _]. rewrite (@retry_not_sent self c env w w1 Hint). cbn [fst snd].
    exists d. rewrite Hs. split; [exact Ht|]. split; [exact Hn|]. split; [exact He|].
    split; [cbn; lia|]. split; [constructor|]. left. reflexivity.
  - contradiction.
Qed.

(** Everything a call through the instance does for a request that is not
    addressed to the token endpoint. *)
Lemma axiosInstance_summary (c : Request) (env : Env) (w : World) :
  String.eqb (url c) token_path = false ->
  exists delta,
    trace (snd (axiosInstance c env w)) = trace w ++ delta /\
    length (sent_requests delta) <= 2 /\
    Forall (authenticated_copy env w (snd (axiosInstance c env w)) c) (sent_requests delta) /\
    token_exchanges delta <= 3 /\
    exchanges_made (snd (axiosInstance c env w)) = exchanges_made w + token_exchanges delta /\
    instance_outcome c (sent_requests delta) (fst (axiosInstance c env w)) /\
    (token_endpoint_accepts env -> sent_requests delta <> []).
Proof.
  intros Hurl. unfold axiosInstance. cbn [axiosInstance_fuel].
  rewrite axios_pass_eq.
  destruct (requestInterceptor_resource env w c Hurl)
    as [d0 [Ht0 [Hs0 [Hn0 [He0 [_ Hres0]]]]]].
  destruct (requestInterceptor c env w) as [[c1|e|] w1]; cbn in Ht0, He0, Hres0.
  - destruct Hres0 as [td0 [-> [Htd0 Hcred0]]].
    set (c1 := with_Authorization c (bearer td0)).
    assert (Hcopy : forall w', exchanges_made w1 <= exchanges_made w' ->
                               authenticated_copy env w w' c c1).
    { intros w' Hle. repeat split. exists (bearer td0). split; [reflexivity|].
      eapply credential_header_widen; [exact Hcred0|exact Hle]. }
    destruct (resource_endpoint env (requests_made w1) c1) as [r|] eqn:Ereply.
    + destruct ((status r =? 401)%Z && negb (__isRetry c1)) eqn:E401.
      * apply andb_prop in E401. destruct E401 as [E1 E2].
        apply Z.eqb_eq in E1. apply negb_true_iff in E2.
        rewrite settle_401 by exact E1.
        rewrite responseRejected_refresh by assumption.
        remember (cleared (record (record (sent w1 c1) (api_error_log c1 r)) refreshing_log))
          as W eqn:EW.
        assert (HW : trace W = trace w1 ++ [EvRequest c1; api_error_log c1 r; refreshing_log]).
        { rewrite EW. unfold cleared, record, sent. cbn. rewrite <- !app_assoc. reflexivity. }
        assert (HWe : exchanges_made W = exchanges_made w1) by (rewrite EW; reflexivity).
        assert (HWn : forall td, tokenData (authService W) = Some td ->
                                 credential_header env w W (bearer td)).
        { rewrite EW. intros td H. discriminate H. }
        clear EW.
        destruct (ensureAccessToken_credential env W)
          as [d1 [Ht1 [Hs1 [Hn1 [He1 [_ Hres1]]]]]].
        destruct (ensureAccessToken env W) as [[tok|e|] w2]; cbn in Ht1, He1, Hres1.
        -- destruct Hres1 as [td [Htd Hcred]]. rewrite Htd.
           set (c2 := with_Authorization (as_retry c1) (bearer td)).
           assert (Hflag : __isRetry c2 = true) by reflexivity.
           assert (Hurl2 : String.eqb (url c2) token_path = false) by exact Hurl.
           assert (Hinv2 : forall td', tokenData (authService w2) = Some td' ->
                                       credential_header env w w2 (bearer td')).
           { intros td' H. rewrite Htd in H. injection H as <-.
             apply (@credential_header_later env w W w2); auto; lia. }
           destruct (@replay_pass (fun _ _ w0 => (OutOfFuel, w0)) c2 env w2 Hflag Hurl2)
             as [d2 [Ht2 [Hn2 [He2 [Hl2 [Hall2 Hout2]]]]]].
           exists (d0 ++ [EvRequest c1; api_error_log c1 r; refreshing_log] ++ d1 ++ d2).
           rewrite Ht2, Ht1, HW, Ht0, <- !app_assoc.
           split; [reflexivity|].
           rewrite !sent_requests_app, !token_exchanges_app, Hs0, Hs1.
           cbn [sent_requests token_exchanges app length Nat.add api_error_log refreshing_log].
           split; [cbn; lia|]. split.
           { constructor; [apply Hcopy; lia|].
             eapply Forall_impl; [|exact Hall2].
             intros c' [td' [-> Hcred']]. repeat split.
             exists (bearer td'). split; [reflexivity|].
             apply (@credential_header_later env w w2 _ (bearer td')); auto; lia. }
           split; [lia|]. split; [lia|]. split; [|intros _; discriminate].
           unfold instance_outcome in *.
           destruct (fst (axios_pass _ c2 env w2)) as [r2|e2|]; [| |contradiction].
           ++ split; [tauto|discriminate].
           ++ destruct Hout2 as [->|[c' [reply [-> [Hin Hrep]]]]]; [left; reflexivity|].
              right. exists c', reply. split; [reflexivity|]. split; [right; exact Hin|exact Hrep].
        -- destruct Hres1 as [-> _].
           exists (d0 ++ [EvRequest c1; api_error_log c1 r; refreshing_log] ++ d1).
           cbn [fst snd]. rewrite Ht1, HW, Ht0, <- !app_assoc.
           split; [reflexivity|].
           rewrite !sent_requests_app, !token_exchanges_app, Hs0, Hs1.
           cbn [sent_requests token_exchanges app length Nat.add api_error_log refreshing_log].
           split; [cbn; lia|]. split; [constructor; [apply Hcopy; lia|constructor]|].
           split; [lia|]. split; [lia|]. split; [left; reflexivity|intros _; discriminate].
        -- contradiction.
      * match goal with
        | |- context [responseRejected ?self _ env (sent w1 c1)] =>
            destruct (@surfaced_reply self c1 env w1) as [post [Heq [Hp1 Hp2]]];
              [rewrite Ereply; exact E401|]
        end.
        rewrite Ereply in Heq. rewrite Heq. cbn [fst snd trace exchanges_made].
        exists (d0 ++ EvRequest c1 :: post). rewrite Ht0, <- app_assoc.
        split; [reflexivity|].
        rewrite sent_requests_app, token_exchanges_app, Hs0.
        cbn [sent_requests token_exchanges app]. rewrite Hp1, Hp2.
        split; [cbn; lia|]. split; [constructor; [apply Hcopy; cbn; lia|constructor]|].
        split; [lia|]. split; [lia|]. split; [|intros _; discriminate].
        apply settled_outcome.
    + cbn [settle]. rewrite responseRejected_other by exact I.
      cbn [sent fst snd trace exchanges_made].
      exists (d0 ++ [EvRequest c1]). rewrite Ht0, <- app_assoc.
      split; [reflexivity|].
      rewrite sent_requests_app, token_exchanges_app, Hs0.
      cbn [sent_requests token_exchanges app length Nat.add api_error_log refreshing_log].
      split; [cbn; lia|]. split; [constructor; [apply Hcopy; cbn; lia|constructor]|].
      split; [lia|]. split; [lia|]. split; [|intros _; discriminate].
      right. eexists _, _. split; [reflexivity|]. split; [left; reflexivity|exact I].
  - destruct Hres0 as [-> Hrej]. rewrite responseRejected_other by exact I. cbn [fst snd].
    exists d0. rewrite Hs0. split; [assumption|]. split; [cbn; lia|].
    split; [constructor|]. split; [lia|]. split; [exact He0|]. split; [left; reflexivity|].
    intros Ha. contradiction.
  - contradiction.
Qed.

(** X9: every request that a call through the instance puts on the wire
    for a resource endpoint is the caller's request, with the same target,
    method and body, and carries an [Authorization] header; that header
    is the [token_type access_token] of a credential of the service: the
    one that was cached and unexpired when the call began, or one the
    identity endpoint issued during the call.  Nothing is sent without
    such a header, and a replay differs from the original in its header
    and retry mark only.  The call costs at most three token exchanges. *)
Theorem requests_carry_a_bearer_header (c : Request) (env : Env) (w : World) :
  String.eqb (url c) token_path = false ->
  exists delta,
    trace (snd (axiosInstance c env w)) = trace w ++ delta /\
    Forall (authenticated_copy env w (snd (axiosInstance c env w)) c) (sent_requests delta) /\
    token_exchanges delta <= 3 /\
    exchanges_made (snd (axiosInstance c env w)) = exchanges_made w + token_exchanges delta.
Proof.
  intros Hurl.
  destruct (axiosInstance_summary c env w Hurl) as [delta [Ht [_ [Hall [Hn [He _]]]]]].
  exists delta. auto.
Qed.

Lemma bearer_header_witness :
  String.eqb (url order_request) token_path = false /\
  exists delta,
    trace (snd (axiosInstance order_request env_expired_once sample_world))
    = trace sample_world ++ delta /\
    Forall (authenticated_copy env_expired_once sample_world
              (snd (axiosInstance order_request env_expired_once sample_world))
              order_request)
           (sent_requests delta) /\
    token_exchanges delta <= 3.
Proof.
  split; [reflexivity|].
  destruct (@requests_carry_a_bearer_header order_request env_expired_once sample_world eq_refl)
    as [delta [H1 [H2 [H3 _]]]].
  exists delta. auto.
Defined.

(** X10: a call through the instance resolves only with a reply whose
    status is 2xx, and after at least one request has left; it rejects
    either with the authentication failure or with the error of one of
    the requests it sent, whose reply, if there is one, is not 2xx. *)
Theorem instance_resolves_only_with_2xx (c : Request) (env : Env) (w : World) :
  String.eqb (url c) token_path = false ->
  exists delta,
    trace (snd (axiosInstance c env w)) = trace w ++ delta /\
    match fst (axiosInstance c env w) with
    | Ok r => is_2xx r = true /\ sent_requests delta <> []
    | Throw e =>
        e = auth_failure \/
        exists c' reply,
          e = AxiosError c' reply /\ In c' (sent_requests delta) /\
          match reply with Some r => is_2xx r = false | None => True end
    | OutOfFuel => False
    end.
Proof.
  intros Hurl.
  destruct (axiosInstance_summary c env w Hurl) as [delta [Ht [_ [_ [_ [_ [Hout _]]]]]]].
  exists delta. split; [exact Ht|]. exact Hout.
Qed.

Lemma instance_2xx_witness :
  String.eqb (url order_request) token_path = false /\
  exists r, fst (axiosInstance order_request sample_env sample_world) = Ok r /\ is_2xx r = true.
Proof.
  split; [reflexivity|].
  destruct (@instance_resolves_only_with_2xx order_request sample_env sample_world eq_refl)
    as [delta [_ H]].
  destruct (fst (axiosInstance order_request sample_env sample_world)) as [r|e|] eqn:E.
  - exists r. split; [reflexivity|]. exact (proj1 H).
  - exfalso. vm_compute in E. discriminate.
  - contradiction.
Defined.

(** X11: when no usable credential is cached and the identity endpoint
    rejects the exchange, the request never leaves: the call fails with
    the authentication error after exactly one exchange, and the service
    is left as it was. *)
Theorem no_credential_no_request (c : Request) (env : Env) (w : World) (e : Err) :
  String.eqb (url c) token_path = false ->
  cached_and_unexpired (authService w) (Z.of_N (Date_now env (clock_reads w))) = None ->
  token_endpoint env (exchanges_made w) = inr e ->
  fst (axiosInstance c env w) = Throw auth_failure /\
  requests_made (snd (axiosInstance c env w)) = requests_made w /\
  authService (snd (axiosInstance c env w)) = authService w /\
  exists delta,
    trace (snd (axiosInstance c env w)) = trace w ++ delta /\
    sent_requests delta = [] /\
    token_exchanges delta = 1.
Proof.
  intros Hurl Hnone Hrej.
  unfold axiosInstance. cbn [axiosInstance_fuel].
  rewrite axios_pass_eq, requestInterceptor_eq, Hurl.
  destruct (ensureAccessToken_cases env w) as [[td [Hc _]]|[_ [w0 [Hw0 ->]]]]; [congruence|].
  rewrite getAccessToken_eq.
  assert (Hex : exchanges_made w0 = exchanges_made w) by (destruct Hw0; subst; reflexivity).
  rewrite Hex, Hrej.
  rewrite responseRejected_other by exact I. cbn.
  destruct Hw0; subst w0; cbn; repeat split; eexists; (split; [reflexivity|]); split; reflexivity.
Qed.

Lemma no_credential_witness :
  cached_and_unexpired (authService sample_world)
    (Z.of_N (Date_now env_revoked (clock_reads sample_world))) = None /\
  fst (axiosInstance order_request env_revoked sample_world) = Throw auth_failure.
Proof.
  split; [reflexivity|].
  exact (proj1 (@no_credential_no_request order_request env_revoked sample_world _
                  eq_refl eq_refl eq_refl)).
Defined.

(** X12: with an unexpired credential cached, a reply that is not a first
    401 (a success, any other status, a 401 to a request already marked as
    a retry, or no reply at all) ends the call after a single request: its
    outcome is that of the one request sent with the cached credential, no
    token exchange is made and the cached credential is kept. *)
Theorem other_failures_keep_the_credential (c : Request) (env : Env) (w : World)
    (td : TokenResponse) :
  String.eqb (url c) token_path = false ->
  cached_and_unexpired (authService w) (Z.of_N (Date_now env (clock_reads w))) = Some td ->
  match resource_endpoint env (requests_made w) (with_Authorization c (bearer td)) with
  | Some r => ((status r =? 401)%Z && negb (__isRetry c)) = false
  | None => True
  end ->
  fst (axiosInstance c env w)
  = settle (with_Authorization c (bearer td))
      (resource_endpoint env (requests_made w) (with_Authorization c (bearer td))) /\
  authService (snd (axiosInstance c env w)) = authService w /\
  exchanges_made (snd (axiosInstance c env w)) = exchanges_made w /\
  exists delta,
    trace (snd (axiosInstance c env w)) = trace w ++ delta /\
    sent_requests delta = [with_Authorization c (bearer td)] /\
    token_exchanges delta = 0.
Proof.
  intros Hurl Hc Hreply.
  unfold axiosInstance. cbn [axiosInstance_fuel].
  rewrite axios_pass_eq, requestInterceptor_eq, Hurl.
  destruct (ensureAccessToken_cases env w) as [[td' [Hc' ->]]|[Hnone _]]; [|congruence].
  assert (td' = td) by congruence. subst td'.
  assert (Htd : tokenData (authService (tick w)) = Some td).
  { unfold cached_and_unexpired in Hc. cbn.
    destruct (tokenData (authService w)) as [t|]; [|discriminate].
    destruct (expiration t); [|discriminate].
    destruct (_ <? _)%Z; congruence. }
  rewrite Htd.
  match goal with
  | |- context [responseRejected ?self _ env (sent (tick w) ?c1)] =>
      destruct (@surfaced_reply self c1 env (tick w)) as [post [Heq [Hp1 Hp2]]];
        [exact Hreply|]
  end.
  rewrite Heq. cbn. repeat split.
  exists (EvRequest (with_Authorization c (bearer td)) :: post).
  split; [reflexivity|]. cbn. rewrite Hp1, Hp2. split; reflexivity.
Qed.

Lemma other_failures_witness :
  cached_and_unexpired (authService cached_world)
    (Z.of_N (Date_now env_down (clock_reads cached_world)))
  = Some (with_expiration sample_token 1767257940000%Z) /\
  exists r, status r = 503%Z /\
    fst (axiosInstance order_request env_down cached_world)
    = Throw (AxiosError
               (with_Authorization order_request
                  (bearer (with_expiration sample_token 1767257940000%Z)))
               (Some r)).
Proof.
  split; [reflexivity|].
  eexists. split;
    [|exact (proj1 (@other_failures_keep_the_credential order_request env_down cached_world
                      (with_expiration sample_token 1767257940000%Z) eq_refl eq_refl eq_refl))].
  reflexivity.
Defined.

(** ** What a tool call does *)

(** A handler that wraps one call through the instance. *)
Lemma guarded_instance_summary (announce failure : string) (req : Request)
    (f : Response -> Json) (env : Env) (w : World) :
  String.eqb (url req) token_path = false ->
  exists delta,
    trace (snd (guarded_call announce
                  (response <- axiosInstance req ;; ret (f response)) failure env w))
    = trace w ++ delta /\
    length (sent_requests delta) <= 2 /\
    Forall (authenticated_copy env w
              (snd (guarded_call announce
                      (response <- axiosInstance req ;; ret (f response)) failure env w))
              req)
           (sent_requests delta) /\
    token_exchanges delta <= 3 /\
    exchanges_made (snd (guarded_call announce
                           (response <- axiosInstance req ;; ret (f response)) failure env w))
    = exchanges_made w + token_exchanges delta /\
    match fst (guarded_call announce
                 (response <- axiosInstance req ;; ret (f response)) failure env w) with
    | Ok v => exists r, v = f r /\ is_2xx r = true
    | Throw e => e = Error failure
    | OutOfFuel => False
    end /\
    (token_endpoint_accepts env -> sent_requests delta <> []).
Proof.
  intros Hurl.
  unfold guarded_call, bind, try_catch, logger, emit, throw, ret. cbv beta iota.
  match goal with
  | |- context [axiosInstance req env ?W] =>
      destruct (axiosInstance_summary req env W Hurl)
        as [d [Ht [Hl [Hall [Hn [He [Hout Hacc]]]]]]];
      destruct (axiosInstance req env W) as [[r|e|] w1]
  end; cbn [fst snd trace exchanges_made] in Ht, He, Hout, Hall |- *.
  - exists (EvLog LvInfo announce [] :: d). rewrite Ht, <- app_assoc.
    split; [reflexivity|]. cbn [sent_requests token_exchanges].
    split; [exact Hl|]. split.
    { revert Hall. apply authenticated_copy_impl. intros h.
      apply credential_header_ext; reflexivity. }
    split; [exact Hn|]. split; [exact He|]. split; [|exact Hacc].
    exists r. unfold instance_outcome in Hout. tauto.
  - exists (EvLog LvInfo announce [] :: d ++ [EvLog LvError (failure ++ ":") [LogErr e]]).
    rewrite Ht, <- !app_assoc. split; [reflexivity|].
    cbn [sent_requests token_exchanges]. rewrite sent_requests_app, token_exchanges_app.
    cbn [sent_requests token_exchanges]. rewrite app_nil_r, Nat.add_0_r.
    split; [exact Hl|]. split.
    { revert Hall. apply authenticated_copy_impl. intros h.
      apply credential_header_ext; reflexivity. }
    split; [exact Hn|]. split; [exact He|]. split; [reflexivity|exact Hacc].
  - contradiction.
Qed.

(** Every handler of the shipped registries reads the identifier it
    needs, which throws on [null], then announces itself, makes one call
    through the instance to a resource endpoint and converts a failure of
    that call into an error of its own. *)
Lemma handler_form (t : Tool) :
  In t server_listTools ->
  forall args env,
  (exists msg, forall w, handler t args env w = (Throw (TypeError msg), w)) \/
  (exists announce failure req f,
     String.eqb (url req) token_path = false /\
     forall w,
       handler t args env w
       = guarded_call announce (response <- axiosInstance req ;; ret (f response))
           failure env w).
Proof.
  intros Hin args env.
  cbv [server_listTools listTools PaymentTools.paymentTools BusinessTools.businessTools
       UserTools.userTools app] in Hin.
  cbn [In] in Hin.
  repeat (destruct Hin as [<-|Hin]); try contradiction;
    first [ right; do 4 eexists; (split; [|intros w; reflexivity]); reflexivity
          | destruct args;
            first [ left; eexists; intros w; reflexivity
                  | right; do 4 eexists; (split; [|intros w; reflexivity]); reflexivity ] ].
Qed.

Lemma handler_summary (t : Tool) (args : Json) (env : Env) (w : World) :
  In t server_listTools ->
  exists delta req,
    trace (snd (handler t args env w)) = trace w ++ delta /\
    length (sent_requests delta) <= 2 /\
    Forall (authenticated_copy env w (snd (handler t args env w)) req) (sent_requests delta) /\
    token_exchanges delta <= 3 /\
    exchanges_made (snd (handler t args env w)) = exchanges_made w + token_exchanges delta /\
    match fst (handler t args env w) with
    | Ok v => True
    | Throw e => forall code m, e <> McpError code m
    | OutOfFuel => False
    end.
Proof.
  intros Hin.
  destruct (@handler_form t Hin args env)
    as [[msg Heq]|[announce [failure [req [f [Hurl Heq]]]]]]; rewrite Heq.
  - exists [], order_request. cbn. rewrite app_nil_r, Nat.add_0_r.
    repeat split; auto. discriminate.
  - destruct (@guarded_instance_summary announce failure req f env w Hurl)
      as [d [Ht [Hl [Hall [Hn [He [Hout _]]]]]]].
    exists d, req. repeat split; auto.
    destruct (fst _); auto. subst e. discriminate.
Qed.

Lemma caught_summary (toolName : string) (e : Err) (w : World) :
  exists post,
    trace (snd (caught toolName e w)) = trace w ++ post /\
    sent_requests post = [] /\ token_exchanges post = 0 /\
    exchanges_made (snd (caught toolName e w)) = exchanges_made w /\
    fst (caught toolName e w) = answer_of e.
Proof.
  destruct e; cbn;
    first [ exists []; rewrite app_nil_r; repeat split; fail
          | eexists; split; [reflexivity|]; repeat split ].
Qed.

Lemma validateInput_summary (toolName : string) (args : Json) (env : Env) (w : World) :
  exists d,
    trace (snd (validateInput toolName args env w)) = trace w ++ d /\
    sent_requests d = [] /\ token_exchanges d = 0 /\
    (authService (snd (validateInput toolName args env w)) = authService w /\
     clock_reads (snd (validateInput toolName args env w)) = clock_reads w /\
     exchanges_made (snd (validateInput toolName args env w)) = exchanges_made w) /\
    match fst (validateInput toolName args env w) with
    | Ok v => True
    | Throw e =>
        (e = TypeError "schema.parse is not a function" /\
         schemaMap_get toolName = Some Inherited) \/
        exists s issues,
          schema_for toolName schemaMap = Some s /\
          parse (formats env) s args = inr issues /\
          e = McpError InvalidParams
                ("Invalid parameters for " ++ toolName ++ ": "
                 ++ join ", " (map formatIssue issues))
    | OutOfFuel => False
    end.
Proof.
  unfold validateInput, schemaMap_get.
  destruct (schema_for toolName schemaMap) as [s|] eqn:Es.
  - unfold bind, ask. destruct (parse (formats env) s args) as [v|issues] eqn:Ep; cbn.
    + exists []. rewrite app_nil_r. repeat split.
    + eexists. split; [reflexivity|]. repeat split. right. eauto.
  - destruct (includes Object_prototype_keys toolName); cbn.
    + exists []. rewrite app_nil_r. repeat split. left. auto.
    + eexists. split; [reflexivity|]. repeat split.
Qed.

Lemma announced_trace (env : Env) (w : World) (toolName : string) (args : Json) :
  trace (announced env w toolName args)
  = trace w ++ [ EvLog LvInfo ("Tool call: " ++ toolName) [];
                 EvLog LvDebug ("Tool arguments: " ++ JSON_stringify env args) [] ].
Proof. unfold announced, record. cbn. rewrite <- app_assoc. reflexivity. Qed.

Lemma server_handler_listed (toolName : string) (h : Json -> M Json) :
  server_getToolHandler toolName = Some h ->
  exists t, In t server_listTools /\ h = handler t.
Proof.
  unfold server_getToolHandler. rewrite getToolHandler_first_match.
  apply find_handler_In.
Qed.

(** X13: a tool call throws only protocol errors: the unknown-tool error
    when no registry has the name, and the invalid-parameters error when
    the arguments do not fit the shape registered under the name.  Every
    other failure (authentication, a rejected request, a network error)
    is answered, not thrown. *)
Theorem tool_calls_throw_only_protocol_errors (toolName : string) (args : Json)
    (env : Env) (w : World) (e : Err) :
  fst (server_callTool toolName args env w) = Throw e ->
  (server_getToolHandler toolName = None /\
   e = McpError MethodNotFound ("Unknown tool: " ++ toolName))
  \/
  (exists s issues,
     schema_for toolName schemaMap = Some s /\
     parse (formats env) s args = inr issues /\
     e = McpError InvalidParams
           ("Invalid parameters for " ++ toolName ++ ": "
            ++ join ", " (map formatIssue issues))).
Proof.
  unfold server_callTool. rewrite callTool_eq. fold server_getToolHandler.
  destruct (ensureAccessToken_summary env (announced env w toolName args))
    as [d [_ [_ [_ [_ [_ [_ [_ [Hres _]]]]]]]]].
  destruct (ensureAccessToken env (announced env w toolName args)) as [[tok|e0|] w1];
    cbn in Hres; [| destruct Hres as [-> _]; discriminate | contradiction].
  clear Hres.
  destruct (server_getToolHandler toolName) as [h|] eqn:Eh.
  - destruct (server_handler_listed _ Eh) as [t [Hin ->]].
    destruct (validateInput_summary toolName args env w1) as [dv [_ [_ [_ [_ Hv]]]]].
    destruct (validateInput toolName args env w1) as [[v|e1|] w2]; cbn in Hv.
    + destruct (@handler_summary t v env w2 Hin) as [dh [req [_ [_ [_ [_ [_ Hh]]]]]]].
      destruct (handler t v env w2) as [[result|e2|] w3]; cbn in Hh; [discriminate| |contradiction].
      destruct e2 as [code m| | |]; [exfalso; exact (Hh code m eq_refl)|discriminate..].
    + destruct Hv as [[-> Hinh]|[s [issues [Hs [Hp ->]]]]].
      * discriminate.
      * cbn. intros H. injection H as <-. right. eauto.
    + contradiction.
  - cbn. intros H. injection H as <-. left. auto.
Qed.

Lemma protocol_errors_witness :
  fst (server_callTool "refund_order" (JObj []) sample_env sample_world)
  = Throw (McpError MethodNotFound "Unknown tool: refund_order").
Proof.
  assert (H : fst (server_callTool "refund_order" (JObj []) sample_env sample_world)
              = Throw (McpError MethodNotFound "Unknown tool: refund_order"))
    by (vm_compute; reflexivity).
  destruct (@tool_calls_throw_only_protocol_errors "refund_order" (JObj []) sample_env
              sample_world _ H) as [[_ He]|[s [issues [Hs _]]]].
  - exact H.
  - exfalso. vm_compute in Hs. discriminate.
Defined.

(** The requests of a handler, seen from the beginning of the tool call
    that runs it. *)
Lemma authenticated_copy_lift (env : Env) (w w2 wh wf : World) (req : Request)
    (l : list Request) :
  exchanges_made w <= exchanges_made w2 ->
  (forall td, tokenData (authService w2) = Some td ->
              credential_header env w w2 (bearer td)) ->
  exchanges_made w2 <= exchanges_made wh ->
  exchanges_made wf = exchanges_made wh ->
  Forall (authenticated_copy env w2 wh req) l ->
  Forall (authenticated_copy env w wf req) l.
Proof.
  intros Hle Hinv Hle' Hf. apply authenticated_copy_impl. intros h Hh.
  apply (@credential_header_ext env w wh w wf h); auto.
  apply (@credential_header_later env w w2 wh h); auto.
Qed.

(** The first step of a tool call: the call is announced and the
    credential is ensured. *)
Lemma callTool_ensures (toolName : string) (args : Json) (env : Env) (w : World) :
  exists d,
    trace (snd (ensureAccessToken env (announced env w toolName args)))
    = trace w ++ [ EvLog LvInfo ("Tool call: " ++ toolName) [];
                   EvLog LvDebug ("Tool arguments: " ++ JSON_stringify env args) [] ] ++ d /\
    sent_requests d = [] /\
    token_exchanges d <= 1 /\
    exchanges_made (snd (ensureAccessToken env (announced env w toolName args)))
    = exchanges_made w + token_exchanges d /\
    match fst (ensureAccessToken env (announced env w toolName args)) with
    | Ok _ =>
        forall td,
          tokenData (authService (snd (ensureAccessToken env (announced env w toolName args))))
          = Some td ->
          credential_header env w
            (snd (ensureAccessToken env (announced env w toolName args))) (bearer td)
    | Throw e => e = auth_failure /\ ~ token_endpoint_accepts env
    | OutOfFuel => False
    end.
Proof.
  destruct (ensureAccessToken_credential env (announced env w toolName args))
    as [d [Ht [Hs [Hn [He [_ Hres]]]]]].
  rewrite announced_trace, <- app_assoc in Ht.
  exists d. split; [exact Ht|]. split; [exact Hs|]. split; [exact Hn|].
  split; [exact He|].
  destruct (fst (ensureAccessToken env (announced env w toolName args))); auto.
  destruct Hres as [td [Htd Hcred]]. intros td' H. rewrite Htd in H. injection H as <-.
  revert Hcred. apply credential_header_ext; reflexivity.
Qed.

(** X14: whatever the tool name, the arguments and the endpoints'
    replies, a tool call ends and puts at most two requests on the wire,
    both for the same target, method and body; each carries an
    [Authorization] header that is the [token_type access_token] of a
    credential of the service, either the one cached and unexpired when
    the call began or one the identity endpoint issued during the call.
    The call makes at most four token exchanges. *)
Theorem tool_call_sends_at_most_two_requests (toolName : string) (args : Json)
    (env : Env) (w : World) :
  exists delta req,
    trace (snd (server_callTool toolName args env w)) = trace w ++ delta /\
    length (sent_requests delta) <= 2 /\
    Forall (authenticated_copy env w (snd (server_callTool toolName args env w)) req)
           (sent_requests delta) /\
    token_exchanges delta <= 4 /\
    fst (server_callTool toolName args env w) <> OutOfFuel.
Proof.
  unfold server_callTool. rewrite callTool_eq. fold server_getToolHandler.
  set (opening := [ EvLog LvInfo ("Tool call: " ++ toolName) [];
                    EvLog LvDebug ("Tool arguments: " ++ JSON_stringify env args) [] ]).
  assert (Hnone : forall delta wf,
            sent_requests delta = [] -> token_exchanges delta <= 4 ->
            length (sent_requests delta) <= 2 /\
            Forall (authenticated_copy env w wf order_request) (sent_requests delta) /\
            token_exchanges delta <= 4).
  { intros delta wf H1 H2. rewrite H1. cbn. split; [lia|]. split; [constructor|exact H2]. }
  destruct (callTool_ensures toolName args env w) as [d [Ht [Hs [Hn [He Hres]]]]].
  fold opening in Ht.
  destruct (ensureAccessToken env (announced env w toolName args)) as [[tok|e0|] w1];
    cbn [fst snd] in Ht, He, Hres; [| |contradiction].
  - destruct (server_getToolHandler toolName) as [h|] eqn:Eh.
    + destruct (server_handler_listed _ Eh) as [t [Hin ->]].
      destruct (validateInput_summary toolName args env w1)
        as [dv [Htv [Hsv [Hnv [[Hav [Hcv Hev]] _]]]]].
      pose proof (validateInput_returns toolName args env w1) as Hvr.
      destruct (validateInput toolName args env w1) as [[v|e1|] w2];
        cbn [fst snd] in Htv, Hav, Hcv, Hev, Hvr.
      * destruct (@handler_summary t v env w2 Hin)
          as [dh [req [Hth [Hlh [Hallh [Hnh [Heh Houth]]]]]]].
        assert (Hfin : exists post,
                  trace (snd match handler t v env w2 with
                             | (Ok result, w3) =>
                                 (Ok (text_result (JSON_stringify_indented env result)), w3)
                             | (Throw e, w3) => caught toolName e w3
                             | (OutOfFuel, w3) => (OutOfFuel, w3)
                             end)
                  = trace (snd (handler t v env w2)) ++ post /\
                  sent_requests post = [] /\ token_exchanges post = 0 /\
                  exchanges_made (snd match handler t v env w2 with
                                      | (Ok result, w3) =>
                                          (Ok (text_result (JSON_stringify_indented env result)),
                                           w3)
                                      | (Throw e, w3) => caught toolName e w3
                                      | (OutOfFuel, w3) => (OutOfFuel, w3)
                                      end)
                  = exchanges_made (snd (handler t v env w2)) /\
                  fst match handler t v env w2 with
                      | (Ok result, w3) =>
                          (Ok (text_result (JSON_stringify_indented env result)), w3)
                      | (Throw e, w3) => caught toolName e w3
                      | (OutOfFuel, w3) => (OutOfFuel, w3)
                      end <> OutOfFuel).
        { destruct (handler t v env w2) as [[result|e2|] w3]; cbn [fst snd] in Houth |- *.
          - exists []. rewrite app_nil_r. repeat split. discriminate.
          - destruct (caught_summary toolName e2 w3) as [post [H1 [H2 [H3 [H4 H5]]]]].
            exists post. repeat split; auto. rewrite H5. destruct e2; discriminate.
          - contradiction. }
        destruct Hfin as [post [Htp [Hsp [Hnp [Hep Hret]]]]].
        exists (opening ++ d ++ dv ++ dh ++ post), req.
        rewrite Htp, Hth, Htv, Ht, <- !app_assoc. split; [reflexivity|].
        rewrite !sent_requests_app, !token_exchanges_app, Hs, Hsv, Hsp, Hnv, Hnp.
        cbn [opening sent_requests token_exchanges app Nat.add]. rewrite app_nil_r.
        split; [exact Hlh|]. split.
        { revert Hallh. apply authenticated_copy_lift; try lia.
          intros td Htd. rewrite Hav in Htd.
          apply (@credential_header_ext env w w1 w w2); auto. }
        split; [lia|exact Hret].
      * destruct (caught_summary toolName e1 w2) as [post [Htp [Hsp [Hnp [_ Hans]]]]].
        exists (opening ++ d ++ dv ++ post), order_request.
        rewrite Htp, Htv, Ht, <- !app_assoc. split; [reflexivity|].
        rewrite <- and_assoc, <- and_assoc. split.
        -- rewrite !and_assoc. apply Hnone.
           ++ rewrite !sent_requests_app, Hs, Hsv, Hsp. reflexivity.
           ++ rewrite !token_exchanges_app, Hnv, Hnp. cbn. lia.
        -- rewrite Hans. destruct e1; discriminate.
      * contradiction.
    + exists (opening ++ d), order_request. cbn [fst snd].
      rewrite Ht. split; [reflexivity|].
      rewrite <- and_assoc, <- and_assoc. split; [|discriminate].
      rewrite !and_assoc. apply Hnone.
      * rewrite !sent_requests_app, Hs. reflexivity.
      * rewrite !token_exchanges_app. cbn. lia.
  - destruct (caught_summary toolName e0 w1) as [post [Htp [Hsp [Hnp [_ Hans]]]]].
    exists (opening ++ d ++ post), order_request.
    rewrite Htp, Ht, <- !app_assoc. split; [reflexivity|].
    rewrite <- and_assoc, <- and_assoc. split.
    + rewrite !and_assoc. apply Hnone.
      * rewrite !sent_requests_app, Hs, Hsp. reflexivity.
      * rewrite !token_exchanges_app, Hnp. cbn. lia.
    + rewrite Hans. destruct Hres as [-> _]. discriminate.
Qed.

(** A call of a tool that is found and whose arguments validate to [v]:
    either the credential cannot be ensured and the authentication error
    is answered, or the handler runs on [v], in a state whose cached
    credential belongs to the call. *)
Lemma server_callTool_runs_handler (toolName : string) (args v : Json) (env : Env) (w : World)
    (h : Json -> M Json) :
  server_getToolHandler toolName = Some h ->
  (forall w', fst (validateInput toolName args env w') = Ok v) ->
  exists pre,
    sent_requests pre = [] /\
    ((fst (server_callTool toolName args env w) = Ok (error_result auth_failure) /\
      (exists post, trace (snd (server_callTool toolName args env w)) = trace w ++ pre ++ post /\
                    sent_requests post = []) /\
      ~ token_endpoint_accepts env)
     \/
     exists w2 post,
       trace w2 = trace w ++ pre /\
       exchanges_made w <= exchanges_made w2 /\
       (forall td, tokenData (authService w2) = Some td ->
                   credential_header env w w2 (bearer td)) /\
       trace (snd (server_callTool toolName args env w)) = trace (snd (h v env w2)) ++ post /\
       exchanges_made (snd (server_callTool toolName args env w))
       = exchanges_made (snd (h v env w2)) /\
       sent_requests post = [] /\
       fst (server_callTool toolName args env w)
       = match fst (h v env w2) with
         | Ok result => Ok (text_result (JSON_stringify_indented env result))
         | Throw e => answer_of e
         | OutOfFuel => OutOfFuel
         end).
Proof.
  intros Hh Hv.
  unfold server_callTool. rewrite callTool_eq. fold server_getToolHandler. rewrite Hh.
  set (opening := [ EvLog LvInfo ("Tool call: " ++ toolName) [];
                    EvLog LvDebug ("Tool arguments: " ++ JSON_stringify env args) [] ]).
  destruct (callTool_ensures toolName args env w) as [d [Ht [Hs [Hn [He Hres]]]]].
  fold opening in Ht.
  destruct (ensureAccessToken env (announced env w toolName args)) as [[tok|e0|] w1];
    cbn [fst snd] in Ht, He, Hres; [| |contradiction].
  - destruct (validateInput_summary toolName args env w1)
      as [dv [Htv [Hsv [_ [[Hav [Hcv Hev]] _]]]]].
    specialize (Hv w1).
    destruct (validateInput toolName args env w1) as [[v'|e1|] w2];
      cbn [fst snd] in Htv, Hav, Hcv, Hev, Hv; [|discriminate|discriminate].
    injection Hv as ->.
    exists (opening ++ d ++ dv).
    split; [rewrite !sent_requests_app, Hs, Hsv; reflexivity|].
    right. exists w2.
    assert (Hw2 : trace w2 = trace w ++ opening ++ d ++ dv)
      by (rewrite Htv, Ht, <- !app_assoc; reflexivity).
    assert (Hle : exchanges_made w <= exchanges_made w2) by lia.
    assert (Hinv : forall td, tokenData (authService w2) = Some td ->
                              credential_header env w w2 (bearer td)).
    { intros td Htd. rewrite Hav in Htd.
      apply (@credential_header_ext env w w1 w w2); auto. }
    destruct (h v env w2) as [[result|e2|] w3]; cbn [fst snd].
    + exists []. rewrite app_nil_r. repeat split; auto.
    + destruct (caught_summary toolName e2 w3) as [post [Htp [Hsp [_ [Hep Hans]]]]].
      exists post. repeat split; auto.
    + exists []. rewrite app_nil_r. repeat split; auto.
  - destruct Hres as [-> Hno]. cbn [caught auth_failure fst snd].
    exists (opening ++ d).
    split; [rewrite !sent_requests_app, Hs; reflexivity|].
    left. split; [reflexivity|]. split; [|exact Hno].
    exists [execution_error_log toolName auth_failure].
    unfold record. cbn [trace]. rewrite Ht, <- !app_assoc. split; reflexivity.
Qed.

(** What the call does once the handler is a guarded call through the
    instance. *)
Lemma server_callTool_through_instance (toolName : string) (args v : Json) (env : Env)
    (w : World) (h : Json -> M Json) (announce failure : string) (req : Request)
    (f : Response -> Json) :
  server_getToolHandler toolName = Some h ->
  (forall w', fst (validateInput toolName args env w') = Ok v) ->
  String.eqb (url req) token_path = false ->
  (forall w',
     h v env w'
     = guarded_call announce (response <- axiosInstance req ;; ret (f response))
         failure env w') ->
  (exists result,
     fst (server_callTool toolName args env w) = Ok result /\
     ((exists r, is_2xx r = true /\
                 result = text_result (JSON_stringify_indented env (f r))) \/
      (exists msg, result = error_result (Error msg)))) /\
  exists delta,
    trace (snd (server_callTool toolName args env w)) = trace w ++ delta /\
    Forall (authenticated_copy env w (snd (server_callTool toolName args env w)) req)
           (sent_requests delta) /\
    (token_endpoint_accepts env -> sent_requests delta <> []).
Proof.
  intros Hh Hv Hurl Hform.
  destruct (@server_callTool_runs_handler toolName args v env w h Hh Hv)
    as [pre [Hpre [[Hres [[post [Ht Hpost]] Hno]]
                  |[w2 [post [Hw2 [Hle [Hinv [Ht [He [Hpost Hres]]]]]]]]]]].
  - split; [eexists; split; [exact Hres|right; eexists; reflexivity]|].
    exists (pre ++ post). split; [exact Ht|].
    rewrite sent_requests_app, Hpre, Hpost. split; [constructor|]. intros Ha. contradiction.
  - rewrite Hform in Ht, He, Hres.
    destruct (@guarded_instance_summary announce failure req f env w2 Hurl)
      as [dh [Hth [_ [Hall [_ [Heh [Hout Hacc]]]]]]].
    split.
    + rewrite Hres.
      destruct (fst (guarded_call _ _ _ env w2)) as [result|e|]; [| |contradiction].
      * destruct Hout as [r [-> Hr]]. eexists. split; [reflexivity|]. left. eauto.
      * subst e. cbn. eexists. split; [reflexivity|]. right. eauto.
    + exists (pre ++ dh ++ post). rewrite Ht, Hth, Hw2, <- !app_assoc.
      split; [reflexivity|].
      rewrite !sent_requests_app, Hpre, Hpost, app_nil_r. cbn [app]. split; [|exact Hacc].
      revert Hall. apply authenticated_copy_lift; auto. lia.
Qed.

Lemma creation_tool_handler (toolName target : string) :
  In (toolName, target) creation_endpoints ->
  exists announce failure,
    server_getToolHandler toolName = Some (post_tool announce target failure) /\
    String.eqb target token_path = false.
Proof.
  unfold creation_endpoints. cbn [In]. intros Hin.
  repeat (destruct Hin as [Hin|Hin]; [injection Hin as <- <-; do 2 eexists; split; reflexivity|]).
  contradiction.
Qed.

(** X15: a creation tool posts the validated arguments, not the ones it
    was called with: every request of the call is a POST to the tool's
    endpoint with the parsed value as its body, and its [Authorization]
    header is the [token_type access_token] of a credential of the
    service, the one cached and unexpired when the call began or one
    issued during the call.  The call never throws: it answers the body
    of a 2xx reply or an error result; when the identity endpoint accepts
    exchanges a request is always sent. *)
Theorem creation_tools_post_the_validated_arguments (toolName target : string) (s : Schema)
    (args v : Json) (env : Env) (w : World) :
  In (toolName, target) creation_endpoints ->
  schema_for toolName schemaMap = Some s ->
  parse (formats env) s args = inl v ->
  (exists result,
     fst (server_callTool toolName args env w) = Ok result /\
     ((exists r, is_2xx r = true /\
                 result = text_result (JSON_stringify_indented env (response_data r))) \/
      (exists msg, result = error_result (Error msg)))) /\
  exists delta,
    trace (snd (server_callTool toolName args env w)) = trace w ++ delta /\
    Forall (authenticated_copy env w (snd (server_callTool toolName args env w))
              (new_request "post" target (Some v)))
           (sent_requests delta) /\
    (token_endpoint_accepts env -> sent_requests delta <> []).
Proof.
  intros Hin Hs Hp.
  destruct (creation_tool_handler Hin) as [announce [failure [Hh Hurl]]].
  assert (Hv : forall w', fst (validateInput toolName args env w') = Ok v).
  { intros w'. rewrite (@validateInput_registered toolName s args env w' Hs), Hp. reflexivity. }
  apply (@server_callTool_through_instance toolName args v env w
           (post_tool announce target failure) announce failure
           (new_request "post" target (Some v)) response_data Hh Hv Hurl).
  intros w'. reflexivity.
Qed.

Lemma creation_tools_witness :
  exists v,
    parse (formats sample_env) PaymentSchemas.createOrderSchema minimal_order = inl v /\
    exists result, fst (server_callTool "create_order" minimal_order sample_env sample_world)
                   = Ok result.
Proof.
  assert (Hin : In ("create_order", "/v2/checkout/orders") creation_endpoints)
    by (right; left; reflexivity).
  eexists. split; [vm_compute; reflexivity|].
  destruct (@creation_tools_post_the_validated_arguments "create_order" "/v2/checkout/orders"
              PaymentSchemas.createOrderSchema minimal_order _ sample_env sample_world
              Hin eq_refl eq_refl) as [[result [Hres _]] _].
  exists result. exact Hres.
Defined.

(** X16: every listed tool is reachable under its own name: the lookup by
    name answers the tool's own handler, so no shipped tool is shadowed by
    another of the same name.  Its arguments are either validated against
    a registered shape or, for six tools, not validated at all; no listed
    name falls through to an inherited member of the map. *)
Theorem listed_tools_are_dispatched_to_their_handler (t : Tool) :
  In t server_listTools ->
  server_getToolHandler (name t) = Some (handler t) /\
  ((exists s, schemaMap_get (name t) = Some (Registered s)) \/
   (schemaMap_get (name t) = None /\ In (name t) unvalidated_tools)).
Proof.
  intros Hin.
  cbv [server_listTools listTools PaymentTools.paymentTools BusinessTools.businessTools
       UserTools.userTools app] in Hin.
  cbn [In] in Hin.
  repeat (destruct Hin as [<-|Hin]); try contradiction;
    (split; [reflexivity|]);
    first [ left; eexists; reflexivity
          | right; split; [reflexivity|]; cbn; tauto ].
Qed.

Lemma listed_tools_witness :
  In UserTools.deleteWebProfile server_listTools /\
  server_getToolHandler "delete_web_profile" = Some (handler UserTools.deleteWebProfile).
Proof.
  assert (Hin : In UserTools.deleteWebProfile server_listTools)
    by (cbv [server_listTools listTools PaymentTools.paymentTools BusinessTools.businessTools
             UserTools.userTools app]; cbn [In]; tauto).
  split; [exact Hin|].
  exact (proj1 (@listed_tools_are_dispatched_to_their_handler UserTools.deleteWebProfile Hin)).
Defined.

Lemma lookup_filter_out (key : string) (fields : list (string * Json)) :
  lookup key (filter (fun kv => negb (String.eqb (fst kv) key)) fields) = None.
Proof.
  induction fields as [|[k v] r IH]; [reflexivity|].
  cbn. destruct (String.eqb_spec k key) as [->|Hne]; cbn; [exact IH|].
  destruct (String.eqb_spec k key) as [->|_]; [contradiction|exact IH].
Qed.

Lemma lookup_filter_other (key k : string) (fields : list (string * Json)) :
  k <> key ->
  lookup k (filter (fun kv => negb (String.eqb (fst kv) key)) fields) = lookup k fields.
Proof.
  intros Hne. induction fields as [|[k0 v] r IH]; [reflexivity|].
  cbn. destruct (String.eqb_spec k0 key) as [->|Hne0]; cbn.
  - destruct (String.eqb_spec key k) as [->|_]; [contradiction|exact IH].
  - destruct (String.eqb k0 k); [reflexivity|exact IH].
Qed.

(** The rest pattern leaves the named property out ... *)
Lemma prop_without_key (key : string) (args : Json) : prop (without_key key args) key = None.
Proof. unfold without_key. cbn [prop]. apply lookup_filter_out. Qed.

(** ... and keeps every other field of an object. *)
Lemma prop_without_other_key (key k : string) (fields : list (string * Json)) :
  k <> key -> prop (without_key key (JObj fields)) k = prop (JObj fields) k.
Proof. intros Hne. unfold without_key. cbn [prop own_properties]. apply lookup_filter_other. exact Hne. Qed.

Lemma captureOrder_validated (fmt : ZodFormats) (args v : Json) :
  parse fmt PaymentSchemas.captureOrderSchema args = inl v ->
  exists id fields, v = JObj fields /\ prop v "order_id" = Some (JStr id).
Proof.
  unfold parse, PaymentSchemas.captureOrderSchema, z_object.
  destruct args as [| | | | |fields]; try (cbn; discriminate).
  rewrite zparse_object.
  cbn [field_results map fst snd app].
  cbn [zparse z_string].
  destruct (lookup "order_id" fields) as [[| | |id| |]|]; try (cbn; discriminate).
  cbn [flat_map fst snd app].
  match goal with
  | |- context [zparse fmt ?s ?p ?i] => destruct (zparse fmt s p i) as [issues o]
  end.
  cbn. destruct (issues ++ _); [|discriminate].
  intros H. injection H as <-. exists id. eexists. split; reflexivity.
Qed.

(** X17: [capture_order] takes the order identifier out of the validated
    arguments and puts it into the target: every request of the call is
    a POST to the capture endpoint of that order whose body is the
    validated arguments without [order_id] (the payment source is kept,
    the identifier is not repeated), and its [Authorization] header is
    the [token_type access_token] of a credential of the service, the one
    cached and unexpired when the call began or one issued during the
    call. *)
Theorem capture_order_moves_the_identifier_to_the_path (args v : Json) (env : Env) (w : World) :
  parse (formats env) PaymentSchemas.captureOrderSchema args = inl v ->
  exists id,
    prop v "order_id" = Some (JStr id) /\
    prop (without_key "order_id" v) "order_id" = None /\
    prop (without_key "order_id" v) "payment_source" = prop v "payment_source" /\
    exists delta,
      trace (snd (server_callTool "capture_order" args env w)) = trace w ++ delta /\
      Forall (authenticated_copy env w (snd (server_callTool "capture_order" args env w))
                (new_request "post"
                   ("/v2/checkout/orders/" ++ String_of env (Some (JStr id)) ++ "/capture")
                   (Some (without_key "order_id" v))))
             (sent_requests delta) /\
      (token_endpoint_accepts env -> sent_requests delta <> []).
Proof.
  intros Hp.
  destruct (captureOrder_validated _ _ Hp) as [id [fields [Hobj Hid]]].
  exists id. split; [exact Hid|].
  split; [apply prop_without_key|].
  split; [rewrite Hobj; apply prop_without_other_key; discriminate|].
  assert (Hv : forall w', fst (validateInput "capture_order" args env w') = Ok v).
  { intros w'.
    rewrite (@validateInput_registered "capture_order" PaymentSchemas.captureOrderSchema
               args env w' eq_refl), Hp.
    reflexivity. }
  refine (proj2 (@server_callTool_through_instance "capture_order" args v env w
                   (handler PaymentTools.captureOrder)
                   ("Capturing order: " ++ String_of env (Some (JStr id)))
                   ("Failed to capture order " ++ String_of env (Some (JStr id)))
                   (new_request "post"
                      ("/v2/checkout/orders/" ++ String_of env (Some (JStr id)) ++ "/capture")
                      (Some (without_key "order_id" v)))
                   response_data eq_refl Hv eq_refl _)).
  intros w'. cbn [handler PaymentTools.captureOrder]. rewrite Hobj in Hid |- *.
  unfold bind at 1, read_prop, ret. unfold bind at 1, ask. rewrite Hid. reflexivity.
Qed.

Lemma capture_order_witness :
  exists v id,
    parse (formats sample_env) PaymentSchemas.captureOrderSchema
      (JObj [("order_id", JStr "5O190127TN364715T"); ("note", JStr "dropped")]) = inl v /\
    prop v "order_id" = Some (JStr id) /\
    prop (without_key "order_id" v) "order_id" = None.
Proof.
  eexists.
  assert (Hp : parse (formats sample_env) PaymentSchemas.captureOrderSchema
                 (JObj [("order_id", JStr "5O190127TN364715T"); ("note", JStr "dropped")])
               = inl (JObj [("order_id", JStr "5O190127TN364715T")]))
    by (vm_compute; reflexivity).
  destruct (@capture_order_moves_the_identifier_to_the_path _ _ sample_env sample_world Hp)
    as [id [H1 [H2 _]]].
  exists id. split; [exact Hp|]. split; assumption.
Defined.




(** X28: the shapes that the user schema module exports for
    [get_web_profiles], [get_web_profile], [update_web_profile] and
    [delete_web_profile] are never applied: [schemaMap] holds nothing
    under these names, so [validateInput] returns whatever arguments it is
    given, including arguments the exported shape rejects. *)
Theorem exported_user_shapes_are_not_applied (toolName : string) (s : Schema) :
  In (toolName, s) unregistered_user_shapes ->
  schemaMap_get toolName = None /\
  (forall args env w, fst (validateInput toolName args env w) = Ok args) /\
  exists rejected,
    (forall fmt, exists issues, parse fmt s rejected = inr issues) /\
    (forall env w, fst (validateInput toolName rejected env w) = Ok rejected).
Proof.
  unfold unregistered_user_shapes. cbn [In]. intros Hin.
  assert (Hpass : schemaMap_get toolName = None ->
                  forall args env w, fst (validateInput toolName args env w) = Ok args).
  { intros Hnone args env w. unfold validateInput. rewrite Hnone. reflexivity. }
  repeat (destruct Hin as [Hin|Hin];
          [injection Hin as <- <-;
           split; [reflexivity|]; split; [apply Hpass; reflexivity|];
           exists (JObj [("unexpected", JBool true)]);
           split; [intros fmt; eexists; vm_compute; reflexivity|];
           intros env w; apply Hpass; reflexivity|]).
  contradiction.
Qed.

Lemma exported_user_shapes_witness :
  In ("delete_web_profile", UserSchemas.deleteWebProfileSchema) unregistered_user_shapes /\
  (exists issues,
     parse sample_formats UserSchemas.deleteWebProfileSchema (JObj []) = inr issues) /\
  fst (validateInput "delete_web_profile" (JObj []) sample_env sample_world) = Ok (JObj []).
Proof.
  assert (Hin : In ("delete_web_profile", UserSchemas.deleteWebProfileSchema)
                   unregistered_user_shapes) by (cbn; tauto).
  split; [exact Hin|]. split; [eexists; vm_compute; reflexivity|].
  destruct (@exported_user_shapes_are_not_applied _ _ Hin) as [_ [H _]].
  apply H.
Defined.

(** ** Validated values *)

Lemma zparse_array (fmt : ZodFormats) (element : Schema) (minLength : option nat)
    (p : list PathSeg) (items : list Json) :
  zparse fmt (ZArray element minLength) p (Some (JArr items))
  = (match minLength with
     | Some n =>
         if (List.length items <? n)%nat
         then [{| path := p;
                  message := "Array must contain at least " ++ string_of_nat n ++ " element(s)" |}]
         else []
     | None => []
     end ++ flat_map fst (array_results fmt element p 0 items),
     Some (JArr (parsed_items (array_results fmt element p 0 items)))).
Proof.
  assert (E : forall i l,
            (fix go (i : nat) (l : list Json) : list ParseReturn :=
               match l with
               | [] => []
               | x :: r => zparse fmt element (p ++ [Idx i]) (Some x) :: go (S i) r
               end) i l = array_results fmt element p i l).
  { intros i l. revert i. induction l as [|x r IH]; intros i; [reflexivity|].
    simpl. f_equal. apply IH. }
  cbn [zparse]. rewrite E. reflexivity.
Qed.

Lemma nodupb_NoDup (l : list string) : nodupb l = true -> NoDup l.
Proof.
  induction l as [|x r IH]; cbn; intros H; [constructor|].
  apply andb_prop in H. destruct H as [H1 H2]. constructor; [|auto].
  intros Hin. apply includes_In in Hin. rewrite Hin in H1. discriminate.
Qed.

Lemma distinct_keys_object (shape : list (string * Schema)) (uk : UnknownKeys) :
  distinct_keys (ZObject shape uk) = true ->
  NoDup (shape_keys shape) /\ Forall (fun ks => distinct_keys (snd ks) = true) shape.
Proof.
  cbn [distinct_keys]. intros H. apply andb_prop in H. destruct H as [H1 H2].
  split; [apply nodupb_NoDup; exact H1|].
  clear H1. induction shape as [|[k sk] r IH]; [constructor|].
  apply andb_prop in H2. destruct H2 as [Hs Hr]. constructor; auto.
Qed.

Lemma closed_shape_object (shape : list (string * Schema)) (uk : UnknownKeys) :
  closed_shape (ZObject shape uk) = true ->
  uk <> passthrough /\ Forall (fun ks => closed_shape (snd ks) = true) shape.
Proof.
  cbn [closed_shape]. intros H. apply andb_prop in H. destruct H as [H1 H2].
  split; [destruct uk; discriminate|].
  clear H1. induction shape as [|[k sk] r IH]; [constructor|].
  apply andb_prop in H2. destruct H2 as [Hs Hr]. constructor; auto.
Qed.

Lemma lookup_not_in (k : string) (l : list (string * Json)) :
  ~ In k (map fst l) -> lookup k l = None.
Proof.
  induction l as [|[k0 v] r IH]; [reflexivity|]. cbn. intros H.
  destruct (String.eqb_spec k0 k) as [->|_]; [exfalso; auto|]. apply IH. auto.
Qed.

Lemma lookup_app (k : string) (l1 l2 : list (string * Json)) :
  lookup k (l1 ++ l2) = match lookup k l1 with Some v => Some v | None => lookup k l2 end.
Proof.
  induction l1 as [|[k0 v] r IH]; [reflexivity|]. cbn.
  destruct (String.eqb k0 k); [reflexivity|exact IH].
Qed.

Lemma field_results_cons (fmt : ZodFormats) (k : string) (sk : Schema)
    (r : list (string * Schema)) (p : list PathSeg) (fields : list (string * Json)) :
  field_results fmt ((k, sk) :: r) p fields
  = (k, zparse fmt sk (p ++ [Key k]) (lookup k fields)) :: field_results fmt r p fields.
Proof. reflexivity. Qed.


Lemma parsed_fields_keys (fmt : ZodFormats) (shape : list (string * Schema))
    (p : list PathSeg) (fields : list (string * Json)) (k : string) :
  In k (map fst (parsed_fields (field_results fmt shape p fields))) -> In k (shape_keys shape).
Proof.
  induction shape as [|[k0 sk] r IH]; [intros []|].
  rewrite field_results_cons. unfold parsed_fields. cbn [flat_map fst snd].
  rewrite map_app, in_app_iff. intros [H|H].
  - left. unfold parsed_field in H. destruct (snd _); cbn in H; [|contradiction].
    destruct H as [H|[]]. exact H.
  - right. apply IH. exact H.
Qed.

(** Reading a declared key back from a parsed object gives the value that
    was parsed for it. *)
Lemma lookup_parsed_fields (fmt : ZodFormats) (shape : list (string * Schema))
    (p : list PathSeg) (fields kept : list (string * Json)) (k : string) (sk : Schema) :
  NoDup (shape_keys shape) ->
  (forall k', In k' (map fst kept) -> ~ In k' (shape_keys shape)) ->
  In (k, sk) shape ->
  lookup k (parsed_fields (field_results fmt shape p fields) ++ kept)
  = snd (zparse fmt sk (p ++ [Key k]) (lookup k fields)).
Proof.
  intros Hnd Hkept.
  assert (Hk : forall shape', ~ In k (shape_keys shape') -> ~ In k (map fst kept) ->
            lookup k (parsed_fields (field_results fmt shape' p fields) ++ kept) = None).
  { intros shape' H1 H2. apply lookup_not_in. rewrite map_app, in_app_iff.
    intros [H|H]; [apply parsed_fields_keys in H|]; auto. }
  assert (Hkk : In k (shape_keys shape) -> ~ In k (map fst kept)).
  { intros H1 H2. exact (Hkept k H2 H1). }
  clear Hkept. induction shape as [|[k0 s0] r IH]; [intros []|].
  intros Hin. rewrite field_results_cons. unfold parsed_fields. cbn [flat_map fst snd].
  fold (parsed_fields (field_results fmt r p fields)).
  inversion Hnd as [|? ? Hnotin Hnd']; subst.
  rewrite <- app_assoc, lookup_app.
  destruct Hin as [Hin|Hin].
  - injection Hin as -> ->.
    unfold parsed_field at 1.
    destruct (snd (zparse fmt sk (p ++ [Key k]) (lookup k fields))) as [x|].
    + cbn. rewrite String.eqb_refl. reflexivity.
    + cbn. apply Hk; [exact Hnotin|]. apply Hkk. left. reflexivity.
  - assert (Hne : k0 <> k).
    { intros ->. apply Hnotin. apply (in_map fst) in Hin. exact Hin. }
    assert (E : lookup k (parsed_field k0 (zparse fmt s0 (p ++ [Key k0]) (lookup k0 fields)))
                = None).
    { unfold parsed_field.
      destruct (snd (zparse fmt s0 (p ++ [Key k0]) (lookup k0 fields))); [|reflexivity].
      cbn. destruct (String.eqb_spec k0 k); [contradiction|reflexivity]. }
    rewrite E. apply IH; auto.
    intros H. apply Hkk. right. exact H.
Qed.

Lemma string_checks_any_path (fmt : ZodFormats) (p p' : list PathSeg) (str : string)
    (checks : list StringCheck) :
  flat_map (string_check_issue fmt p str) checks = [] ->
  flat_map (string_check_issue fmt p' str) checks = [].
Proof.
  induction checks as [|c r IH]; [reflexivity|]. cbn [flat_map]. intros H.
  apply app_eq_nil in H. destruct H as [H1 H2]. rewrite (IH H2), app_nil_r.
  destruct c; cbn in H1 |- *;
    match goal with |- (if ?b then _ else _) = _ => destruct b end;
    solve [reflexivity | discriminate].
Qed.

Lemma number_checks_any_path (p p' : list PathSeg) (q : Q) (checks : list NumberCheck) :
  flat_map (number_check_issue p q) checks = [] ->
  flat_map (number_check_issue p' q) checks = [].
Proof.
  induction checks as [|c r IH]; [reflexivity|]. cbn [flat_map]. intros H.
  apply app_eq_nil in H. destruct H as [H1 H2]. rewrite (IH H2), app_nil_r.
  destruct c; cbn in H1 |- *;
    match goal with |- (if ?b then _ else _) = _ => destruct b end;
    solve [reflexivity | discriminate].
Qed.

(** An absent input raises no issue only under [.optional()], and then
    the result is absent too. *)
Lemma zparse_absent (fmt : ZodFormats) (s : Schema) (p : list PathSeg) :
  fst (zparse fmt s p None) = [] ->
  is_optional s = true /\ forall p', zparse fmt s p' None = ([], None).
Proof. destruct s; cbn; try discriminate. auto. Qed.

(** A result without issues and without a value comes from an absent
    input. *)
Lemma zparse_no_value (fmt : ZodFormats) (s : Schema) (p : list PathSeg) (input : option Json) :
  zparse fmt s p input = ([], None) -> input = None.
Proof.
  intros H. destruct input as [d|]; [|reflexivity].
  destruct (@zparse_defined fmt s p d) as [v Hv]; [rewrite H; reflexivity|].
  rewrite H in Hv. discriminate.
Qed.

Lemma parsed_items_values (outs : list Json) :
  flat_map fst (map (fun o : Json => (@nil Issue, Some o)) outs) = [] /\
  parsed_items (map (fun o : Json => (@nil Issue, Some o)) outs) = outs.
Proof.
  unfold parsed_items. induction outs as [|o r [IH1 IH2]]; [auto|].
  cbn. rewrite IH1, IH2. auto.
Qed.

Lemma array_results_again (fmt : ZodFormats) (element : Schema) (p : list PathSeg) :
  (forall p0 input v, zparse fmt element p0 input = ([], Some v) ->
     forall p', zparse fmt element p' (Some v) = ([], Some v)) ->
  forall items i,
    flat_map fst (array_results fmt element p i items) = [] ->
    List.length (parsed_items (array_results fmt element p i items)) = List.length items /\
    forall p' j,
      array_results fmt element p' j (parsed_items (array_results fmt element p i items))
      = map (fun o => ([], Some o)) (parsed_items (array_results fmt element p i items)).
Proof.
  intros IHel. induction items as [|x r IH]; intros i H; [split; reflexivity|].
  cbn [array_results flat_map] in H. apply app_eq_nil in H. destruct H as [H1 H2].
  destruct (@zparse_defined fmt element (p ++ [Idx i]) x H1) as [v Hv].
  destruct (IH (S i) H2) as [Hlen Hagain].
  assert (E : zparse fmt element (p ++ [Idx i]) (Some x) = ([], Some v)).
  { destruct (zparse fmt element (p ++ [Idx i]) (Some x)) as [iss o]. cbn in H1, Hv.
    subst. reflexivity. }
  unfold parsed_items in *. cbn [array_results flat_map]. rewrite E. cbn [snd app].
  split; [cbn; rewrite Hlen; reflexivity|].
  intros p' j. cbn [array_results map]. rewrite (IHel _ _ _ E), Hagain. reflexivity.
Qed.

Lemma filter_none (A : Type) (f : A -> bool) (l : list A) :
  (forall x, In x l -> f x = false) -> filter f l = [].
Proof.
  induction l as [|x r IH]; [reflexivity|]. intros H. cbn.
  rewrite (H x (or_introl eq_refl)). apply IH. intros y Hy. apply H. right. exact Hy.
Qed.

Lemma filter_twice (A : Type) (f : A -> bool) (l : list A) :
  filter f (filter f l) = filter f l.
Proof.
  induction l as [|x r IH]; [reflexivity|]. cbn.
  destruct (f x) eqn:E; cbn; rewrite ?E, IH; reflexivity.
Qed.

Lemma parsed_fields_declared (fmt : ZodFormats) (shape : list (string * Schema))
    (p : list PathSeg) (fields : list (string * Json)) :
  filter (fun kv => negb (includes (shape_keys shape) (fst kv)))
         (parsed_fields (field_results fmt shape p fields)) = [].
Proof.
  apply filter_none. intros [k x] Hin. cbn [fst].
  assert (H : In k (shape_keys shape)).
  { eapply parsed_fields_keys. apply (in_map fst) in Hin. exact Hin. }
  apply includes_In in H. rewrite H. reflexivity.
Qed.

Lemma extra_keys_none (shape : list (string * Schema)) (fields : list (string * Json)) :
  (forall k, In k (map fst fields) -> In k (shape_keys shape)) ->
  extra_keys shape fields = [].
Proof.
  intros H. unfold extra_keys. apply filter_none. intros k Hin.
  apply H, includes_In in Hin. rewrite Hin. reflexivity.
Qed.

(** Parsing a parsed value again gives it back. *)
Lemma zparse_idempotent (fmt : ZodFormats) (s : Schema) :
  distinct_keys s = true ->
  forall p input v,
    zparse fmt s p input = ([], Some v) ->
    forall p', zparse fmt s p' (Some v) = ([], Some v).
Proof.
  induction s as [checks|checks| |values|element minLength IH|shape uk IH|inner IH]
    using Schema_ind; intros Hwf p input v H p'.
  - destruct input as [[| | |str| |]|]; cbn in H; try discriminate.
    injection H as H <-. cbn. rewrite (string_checks_any_path _ _ p' _ _ H). reflexivity.
  - destruct input as [[| |q| | |]|]; cbn in H; try discriminate.
    injection H as H <-. cbn. rewrite (number_checks_any_path _ p' _ _ H). reflexivity.
  - destruct input as [[| | | | |]|]; cbn in H; try discriminate.
    injection H as <-. reflexivity.
  - destruct input as [[| | |str| |]|]; cbn in H; try discriminate.
    destruct (includes values str) eqn:E; [|discriminate].
    injection H as <-. cbn. rewrite E. reflexivity.
  - destruct input as [[| | | |items|]|]; try (cbn in H; discriminate).
    rewrite zparse_array in H. injection H as H <-.
    apply app_eq_nil in H. destruct H as [Hshort Hiss].
    destruct (@array_results_again fmt element p (IH Hwf) items 0 Hiss) as [Hlen Hagain].
    rewrite zparse_array, Hagain, Hlen.
    destruct (parsed_items_values (parsed_items (array_results fmt element p 0 items)))
      as [E1 E2].
    rewrite E1, E2, app_nil_r.
    destruct minLength as [n|]; [|reflexivity].
    destruct (List.length items <? n)%nat; [discriminate Hshort|reflexivity].
  - destruct input as [[| | | | |fields]|]; try (cbn in H; discriminate).
    rewrite zparse_object in H. injection H as H <-.
    apply app_eq_nil in H. destruct H as [Hiss Hunrec].
    destruct (distinct_keys_object _ _ Hwf) as [Hnd Hsub].
    fold (parsed_fields (field_results fmt shape p fields)).
    set (kept := match uk with
                 | passthrough =>
                     filter (fun kv => negb (includes (shape_keys shape) (fst kv))) fields
                 | _ => []
                 end).
    set (out := parsed_fields (field_results fmt shape p fields) ++ kept).
    assert (Hkept : forall k', In k' (map fst kept) -> ~ In k' (shape_keys shape)).
    { intros k' Hin Hin'. subst kept. destruct uk; try contradiction.
      apply in_map_iff in Hin. destruct Hin as [[k0 x] [<- Hf]]. apply filter_In in Hf.
      destruct Hf as [_ Hf]. cbn [fst] in Hf, Hin'. apply includes_In in Hin'.
      rewrite Hin' in Hf. discriminate. }
    rewrite zparse_object.
    (* the declared fields parse to themselves *)
    assert (Hfields : forall sub,
              incl sub shape ->
              flat_map (fun kr => fst (snd kr)) (field_results fmt sub p fields) = [] ->
              flat_map (fun kr => fst (snd kr)) (field_results fmt sub p' out) = [] /\
              parsed_fields (field_results fmt sub p' out)
              = parsed_fields (field_results fmt sub p fields)).
    { induction sub as [|[k sk] r IHsub]; intros Hincl Hnil; [split; reflexivity|].
      rewrite field_results_cons in Hnil. cbn [flat_map fst snd] in Hnil.
      apply app_eq_nil in Hnil. destruct Hnil as [Hk Hr].
      destruct (IHsub (fun x Hx => Hincl x (or_intror Hx)) Hr) as [IH1 IH2].
      assert (Hin : In (k, sk) shape) by (apply Hincl; left; reflexivity).
      rewrite !field_results_cons. unfold parsed_fields in *. cbn [flat_map fst snd].
      rewrite IH1, IH2, app_nil_r.
      fold (parsed_fields (field_results fmt shape p fields)) in out.
      assert (Hlook : lookup k out = snd (zparse fmt sk (p ++ [Key k]) (lookup k fields))).
      { subst out. apply lookup_parsed_fields; assumption. }
      rewrite Hlook.
      assert (IHk : distinct_keys sk = true ->
                    forall p0 input v0, zparse fmt sk p0 input = ([], Some v0) ->
                    forall p'0, zparse fmt sk p'0 (Some v0) = ([], Some v0)).
      { rewrite Forall_forall in IH. exact (IH (k, sk) Hin). }
      assert (Hwfk : distinct_keys sk = true).
      { rewrite Forall_forall in Hsub. exact (Hsub (k, sk) Hin). }
      destruct (zparse fmt sk (p ++ [Key k]) (lookup k fields)) as [iss o] eqn:E.
      cbn [fst snd] in Hk |- *. subst iss.
      destruct o as [x|].
      - rewrite (IHk Hwfk _ _ _ E). split; reflexivity.
      - pose proof (zparse_no_value _ _ _ _ E) as Hnone. rewrite Hnone in E.
        destruct (@zparse_absent fmt sk (p ++ [Key k])) as [_ Habs];
          [rewrite E; reflexivity|].
        rewrite Habs. split; reflexivity. }
    destruct (Hfields shape (incl_refl _) Hiss) as [E1 E2].
    fold (parsed_fields (field_results fmt shape p' out)).
    rewrite E1, E2. cbn [app].
    assert (Hkept' : match uk with
                     | passthrough =>
                         filter (fun kv => negb (includes (shape_keys shape) (fst kv))) out
                     | _ => []
                     end = kept).
    { subst out kept. destruct uk; try reflexivity.
      rewrite filter_app, parsed_fields_declared, filter_twice. reflexivity. }
    rewrite Hkept'.
    assert (Hnone : unrecognized_issue p' uk (extra_keys shape out) = []).
    { destruct uk; try reflexivity.
      rewrite extra_keys_none; [reflexivity|].
      intros k Hin. subst out kept. rewrite app_nil_r in Hin.
      eapply parsed_fields_keys. exact Hin. }
    rewrite Hnone. reflexivity.
  - destruct input as [d|]; [|cbn in H; discriminate].
    cbn [zparse] in H |- *. exact (IH Hwf _ _ _ H p').
Qed.

Lemma registered_shapes_are_literals (toolName : string) (s : Schema) :
  schema_for toolName schemaMap = Some s ->
  distinct_keys s = true /\ closed_shape s = true.
Proof.
  unfold schemaMap. cbn [schema_for].
  repeat match goal with
         | |- (if String.eqb ?k toolName then _ else _) = _ -> _ =>
             destruct (String.eqb_spec k toolName) as [<-|_]
         end;
    try discriminate;
    intros H; injection H as <-; split; vm_compute; reflexivity.
Qed.

(** X19: validation is idempotent on the registered shapes: the value
    that [validateInput] returns for a tool is itself valid for that tool
    and validates to itself, so validating twice is the same as validating
    once. *)
Theorem validated_arguments_validate_to_themselves (toolName : string) (s : Schema)
    (args v : Json) (env : Env) (w : World) :
  schema_for toolName schemaMap = Some s ->
  validateInput toolName args env w = (Ok v, w) ->
  parse (formats env) s v = inl v /\
  validateInput toolName v env w = (Ok v, w).
Proof.
  intros Hs Hv.
  rewrite (@validateInput_registered toolName s args env w Hs) in Hv.
  destruct (parse (formats env) s args) as [v'|issues] eqn:Hp; [|discriminate].
  injection Hv as ->.
  assert (Hagain : parse (formats env) s v = inl v).
  { apply parse_inl_value in Hp. apply parse_inl_value.
    destruct (registered_shapes_are_literals _ Hs) as [Hwf _].
    exact (zparse_idempotent (formats env) s Hwf _ _ Hp []). }
  split; [exact Hagain|].
  rewrite (@validateInput_registered toolName s v env w Hs), Hagain. reflexivity.
Qed.

Lemma validated_arguments_witness :
  validateInput "capture_order"
    (JObj [("order_id", JStr "5O190127TN364715T"); ("note", JStr "dropped")])
    sample_env sample_world
  = (Ok (JObj [("order_id", JStr "5O190127TN364715T")]), sample_world) /\
  validateInput "capture_order" (JObj [("order_id", JStr "5O190127TN364715T")])
    sample_env sample_world
  = (Ok (JObj [("order_id", JStr "5O190127TN364715T")]), sample_world).
Proof.
  assert (H : validateInput "capture_order"
                (JObj [("order_id", JStr "5O190127TN364715T"); ("note", JStr "dropped")])
                sample_env sample_world
              = (Ok (JObj [("order_id", JStr "5O190127TN364715T")]), sample_world))
    by (vm_compute; reflexivity).
  split; [exact H|].
  exact (proj2 (@validated_arguments_validate_to_themselves "capture_order"
                  PaymentSchemas.captureOrderSchema _ _ sample_env sample_world eq_refl H)).
Defined.

(** A parsed value has the form its shape describes. *)
Lemma zparse_conforms (fmt : ZodFormats) (s : Schema) :
  distinct_keys s = true -> closed_shape s = true ->
  forall p input v, zparse fmt s p input = ([], Some v) -> conforms s v.
Proof.
  induction s as [checks|checks| |values|element minLength IH|shape uk IH|inner IH]
    using Schema_ind; intros Hwf Hcl p input v H.
  - destruct input as [[| | |str| |]|]; cbn in H; try discriminate.
    injection H as _ <-. cbn. eauto.
  - destruct input as [[| |q| | |]|]; cbn in H; try discriminate.
    injection H as _ <-. cbn. eauto.
  - destruct input as [[|b| | | |]|]; cbn in H; try discriminate.
    injection H as <-. cbn. eauto.
  - destruct input as [[| | |str| |]|]; cbn in H; try discriminate.
    destruct (includes values str) eqn:E; [|discriminate].
    injection H as <-. cbn. exists str. split; [reflexivity|]. apply includes_In. exact E.
  - destruct input as [[| | | |items|]|]; try (cbn in H; discriminate).
    rewrite zparse_array in H. injection H as H <-.
    apply app_eq_nil in H. destruct H as [Hshort Hiss].
    cbn [conforms]. eexists. split; [reflexivity|].
    assert (Hitems : forall l i,
              flat_map fst (array_results fmt element p i l) = [] ->
              Forall (conforms element) (parsed_items (array_results fmt element p i l)) /\
              List.length (parsed_items (array_results fmt element p i l)) = List.length l).
    { induction l as [|x r IHl]; intros i Hnil; [split; [constructor|reflexivity]|].
      cbn [array_results flat_map] in Hnil. apply app_eq_nil in Hnil.
      destruct Hnil as [H1 H2].
      destruct (@zparse_defined fmt element (p ++ [Idx i]) x H1) as [v Hv].
      destruct (IHl (S i) H2) as [Hall Hlen].
      assert (E : zparse fmt element (p ++ [Idx i]) (Some x) = ([], Some v)).
      { destruct (zparse fmt element (p ++ [Idx i]) (Some x)) as [iss o]. cbn in H1, Hv.
        subst. reflexivity. }
      unfold parsed_items in *. cbn [array_results flat_map]. rewrite E. cbn [snd app].
      split; [constructor; [exact (IH Hwf Hcl _ _ _ E)|exact Hall]|].
      cbn. rewrite Hlen. reflexivity. }
    destruct (Hitems items 0 Hiss) as [Hall Hlen].
    split; [exact Hall|].
    destruct minLength as [n|]; [|exact I]. rewrite Hlen.
    destruct (Nat.ltb_spec (List.length items) n); [discriminate Hshort|assumption].
  - destruct input as [[| | | | |fields]|]; try (cbn in H; discriminate).
    rewrite zparse_object in H. injection H as H <-.
    apply app_eq_nil in H. destruct H as [Hiss _].
    destruct (distinct_keys_object _ _ Hwf) as [Hnd Hsub].
    destruct (closed_shape_object _ _ Hcl) as [Huk Hclsub].
    fold (parsed_fields (field_results fmt shape p fields)).
    assert (Ekept : match uk with
                    | passthrough =>
                        filter (fun kv => negb (includes (shape_keys shape) (fst kv))) fields
                    | _ => []
                    end = []) by (destruct uk; [reflexivity|reflexivity|contradiction]).
    rewrite Ekept.
    cbn [conforms]. eexists. split; [reflexivity|].
    split.
    { intros k Hin. rewrite app_nil_r in Hin. eapply parsed_fields_keys. exact Hin. }
    assert (Hall : forall sub,
              incl sub shape ->
              flat_map (fun kr => fst (snd kr)) (field_results fmt sub p fields) = [] ->
              (fix all (l : list (string * Schema)) : Prop :=
                 match l with
                 | [] => True
                 | (k, sk) :: r =>
                     match lookup k (parsed_fields (field_results fmt shape p fields) ++ [])
                     with
                     | Some x => conforms sk x
                     | None => is_optional sk = true
                     end /\ all r
                 end) sub).
    { induction sub as [|[k sk] r IHsub]; intros Hincl Hnil; [exact I|].
      rewrite field_results_cons in Hnil. cbn [flat_map fst snd] in Hnil.
      apply app_eq_nil in Hnil. destruct Hnil as [Hk Hr].
      split; [|apply IHsub; [intros x Hx; apply Hincl; right; exact Hx|exact Hr]].
      assert (Hin : In (k, sk) shape) by (apply Hincl; left; reflexivity).
      rewrite (@lookup_parsed_fields fmt shape p fields [] k sk Hnd (fun _ F => False_ind _ F) Hin).
      rewrite Forall_forall in IH, Hsub, Hclsub.
      destruct (zparse fmt sk (p ++ [Key k]) (lookup k fields)) as [iss o] eqn:E.
      cbn [fst snd] in Hk |- *. subst iss.
      destruct o as [x|].
      - exact (IH (k, sk) Hin (Hsub _ Hin) (Hclsub _ Hin) _ _ _ E).
      - pose proof (zparse_no_value _ _ _ _ E) as Hnone. rewrite Hnone in E.
        destruct (@zparse_absent fmt sk (p ++ [Key k])) as [Hopt _];
          [rewrite E; reflexivity|exact Hopt]. }
    exact (Hall shape (incl_refl _) Hiss).
  - destruct input as [d|]; [|cbn in H; discriminate].
    cbn [zparse] in H. cbn [conforms]. exact (IH Hwf Hcl _ _ _ H).
Qed.

(** X20: what [validateInput] hands to the handler of a registered tool
    has the form the tool's shape describes, at every depth: declared
    types, enumeration members, minimum array lengths, every required
    field present, and no field that an object shape does not declare. *)
Theorem validated_arguments_conform (toolName : string) (s : Schema) (args v : Json)
    (env : Env) (w : World) :
  schema_for toolName schemaMap = Some s ->
  fst (validateInput toolName args env w) = Ok v ->
  conforms s v.
Proof.
  intros Hs Hv.
  rewrite (@validateInput_registered toolName s args env w Hs) in Hv.
  destruct (parse (formats env) s args) as [v'|issues] eqn:Hp; [|discriminate].
  injection Hv as ->.
  apply parse_inl_value in Hp.
  destruct (registered_shapes_are_literals _ Hs) as [Hwf Hcl].
  exact (zparse_conforms (formats env) s Hwf Hcl _ _ Hp).
Qed.

Lemma validated_conform_witness :
  exists v,
    fst (validateInput "create_order" minimal_order sample_env sample_world) = Ok v /\
    conforms PaymentSchemas.createOrderSchema v.
Proof.
  eexists.
  assert (H : fst (validateInput "create_order" minimal_order sample_env sample_world)
              = Ok minimal_order) by (vm_compute; reflexivity).
  split; [exact H|].
  exact (@validated_arguments_conform "create_order" PaymentSchemas.createOrderSchema
           minimal_order _ sample_env sample_world eq_refl H).
Defined.

Lemma required_key_declared (shape : list (string * Schema)) (k : string) :
  In k (required_keys shape) -> exists sk, In (k, sk) shape /\ is_optional sk = false.
Proof.
  unfold required_keys. intros H. apply in_map_iff in H.
  destruct H as [[k' sk] [E Hin]]. cbn in E. subst k'.
  apply filter_In in Hin. destruct Hin as [Hin Hopt].
  exists sk. split; [exact Hin|]. cbn in Hopt. destruct (is_optional sk); [discriminate|reflexivity].
Qed.

Lemma zparse_required (fmt : ZodFormats) (s : Schema) (p : list PathSeg) :
  is_optional s = false ->
  fst (zparse fmt s p None) = [{| path := p; message := "Required" |}].
Proof. destruct s; cbn; intros H; try reflexivity. discriminate. Qed.

(** X21: a call of a registered tool that leaves out a required field is
    rejected with the invalid-parameters error, and the error text names
    the field: it contains the entry [<field>: Required]. *)
Theorem missing_required_field_is_reported (toolName : string) (shape : list (string * Schema))
    (uk : UnknownKeys) (fields : list (string * Json)) (k : string) (env : Env) (w : World) :
  schema_for toolName schemaMap = Some (ZObject shape uk) ->
  In k (required_keys shape) ->
  lookup k fields = None ->
  exists issues,
    fst (validateInput toolName (JObj fields) env w)
    = Throw (McpError InvalidParams
               ("Invalid parameters for " ++ toolName ++ ": "
                ++ join ", " (map formatIssue issues))) /\
    In {| path := [Key k]; message := "Required" |} issues /\
    In (k ++ ": Required")%string (map formatIssue issues).
Proof.
  intros Hs Hk Hnone.
  destruct (required_key_declared _ _ Hk) as [sk [Hin Hopt]].
  assert (Hissue : In {| path := [Key k]; message := "Required" |}
                     (fst (zparse (formats env) (ZObject shape uk) [] (Some (JObj fields))))).
  { rewrite zparse_object. cbn [fst]. apply in_or_app. left.
    apply in_flat_map. exists (k, zparse (formats env) sk ([] ++ [Key k]) (lookup k fields)).
    split.
    - unfold field_results. apply in_map_iff. exists (k, sk). split; [reflexivity|exact Hin].
    - cbn [fst snd]. rewrite Hnone, zparse_required by exact Hopt. left. reflexivity. }
  exists (fst (zparse (formats env) (ZObject shape uk) [] (Some (JObj fields)))).
  rewrite (@validateInput_registered toolName _ (JObj fields) env w Hs).
  rewrite parse_inr by (intros E; rewrite E in Hissue; contradiction).
  split; [reflexivity|]. split; [exact Hissue|].
  apply in_map_iff. eexists. split; [|exact Hissue]. reflexivity.
Qed.

Lemma missing_required_witness :
  lookup "purchase_units" [("intent", JStr "CAPTURE")] = None /\
  exists issues,
    fst (validateInput "create_order" (JObj [("intent", JStr "CAPTURE")])
           sample_env sample_world)
    = Throw (McpError InvalidParams
               ("Invalid parameters for create_order: "
                ++ join ", " (map formatIssue issues))) /\
    In "purchase_units: Required" (map formatIssue issues).
Proof.
  split; [reflexivity|].
  assert (Hk : In "purchase_units"
                 (required_keys
                    match PaymentSchemas.createOrderSchema with
                    | ZObject shape _ => shape
                    | _ => []
                    end)) by (vm_compute; tauto).
  destruct (@missing_required_field_is_reported "create_order" _ strip
              [("intent", JStr "CAPTURE")] "purchase_units" sample_env sample_world
              eq_refl Hk eq_refl) as [issues [H1 [_ H3]]].
  exists issues. split; assumption.
Defined.

(** ** More on the logging sanitizer *)

(** X22: the sanitizer changes nothing but the values it masks: its
    output has the same arrays with the same number of items, the same
    objects with the same field names in the same order, and the same
    primitive values; a field differs from the input only where its name
    is sensitive, and there it holds the marker. *)
Theorem sanitizer_changes_only_masked_values (data : Json) :
  redaction_of data (sanitizeForLogging data).
Proof.
  induction data as [| | | |items IH|fields IH] using Json_ind; try reflexivity.
  - rewrite sanitize_array. cbn [redaction_of]. eexists. split; [reflexivity|].
    induction IH as [|x r Hx _ IHr]; cbn; auto.
  - rewrite sanitize_object. cbn [redaction_of]. eexists. split; [reflexivity|].
    induction IH as [|[k v] r Hx _ IHr]; [exact I|].
    cbn [map]. unfold sanitize_field at 1. cbn [fst snd] in Hx |- *.
    split; [reflexivity|]. split; [|exact IHr].
    destruct (is_sensitive k); [reflexivity|exact Hx].
Qed.

(** X23: data in which no object has a field with a sensitive name is
    logged as it is. *)
Theorem harmless_data_is_logged_unchanged (data : Json) :
  no_sensitive_key data -> sanitizeForLogging data = data.
Proof.
  induction data as [| | | |items IH|fields IH] using Json_ind; try reflexivity.
  - rewrite sanitize_array. cbn [no_sensitive_key]. intros H. f_equal. revert H.
    induction IH as [|x r Hx _ IHr]; [reflexivity|].
    intros [H1 H2]. cbn [map]. rewrite (Hx H1), (IHr H2). reflexivity.
  - rewrite sanitize_object. cbn [no_sensitive_key]. intros H. f_equal. revert H.
    induction IH as [|[k v] r Hx _ IHr]; [reflexivity|].
    intros [H1 [H2 H3]]. cbn [map]. unfold sanitize_field at 1. cbn [fst snd] in Hx |- *.
    rewrite H1, (Hx H2), (IHr H3). reflexivity.
Qed.

Lemma harmless_data_witness :
  sanitizeForLogging
    (JObj [("name", JStr "INVALID_REQUEST");
           ("details", JArr [JObj [("field", JStr "/purchase_units/0/amount/value");
                                   ("issue", JStr "MISSING_REQUIRED_PARAMETER")]])])
  = JObj [("name", JStr "INVALID_REQUEST");
          ("details", JArr [JObj [("field", JStr "/purchase_units/0/amount/value");
                                  ("issue", JStr "MISSING_REQUIRED_PARAMETER")]])].
Proof.
  apply harmless_data_is_logged_unchanged.
  cbn. repeat split; reflexivity.
Defined.

(** ** Console output *)

(** X24: what reaches the console grows with the configured level: the
    lines written at a lower level are, in the same order, those among
    the lines written at a higher level that the lower level enables.
    Entries at [error] are written at every level; token exchanges and
    requests are never written. *)
Theorem console_output_grows_with_the_level (c1 c2 : Config) (t : list Event) :
  LOG_LEVELS (logLevel (server c1)) <= LOG_LEVELS (logLevel (server c2)) ->
  console_output c1 (console_output c2 t) = console_output c1 t /\
  (forall msg args, In (EvLog LvError msg args) t ->
                    In (EvLog LvError msg args) (console_output c1 t)) /\
  token_exchanges (console_output c2 t) = 0 /\
  sent_requests (console_output c2 t) = [].
Proof.
  intros Hle. split; [|split; [|split]].
  - unfold console_output. induction t as [|ev r IH]; [reflexivity|].
    cbn [filter]. destruct ev as [target cred|c|level msg args]; try exact IH.
    destruct (level_enabled (logLevel (server c2)) level) eqn:E2.
    + cbn [filter]. rewrite IH. reflexivity.
    + rewrite IH.
      assert (E1 : level_enabled (logLevel (server c1)) level = false).
      { unfold level_enabled in *. apply Nat.leb_gt in E2. apply Nat.leb_gt. lia. }
      rewrite E1. reflexivity.
  - intros msg args Hin. unfold console_output. apply filter_In. split; [exact Hin|].
    reflexivity.
  - unfold console_output. induction t as [|ev r IH]; [reflexivity|].
    cbn [filter]. destruct ev as [target cred|c|level msg args]; try exact IH.
    destruct (level_enabled _ level); [exact IH|exact IH].
  - unfold console_output. induction t as [|ev r IH]; [reflexivity|].
    cbn [filter]. destruct ev as [target cred|c|level msg args]; try exact IH.
    destruct (level_enabled _ level); [exact IH|exact IH].
Qed.

Lemma console_output_witness :
  LOG_LEVELS (logLevel (server error_only_config)) < LOG_LEVELS (logLevel (server sample_config))
  /\ console_output error_only_config
       (console_output sample_config
          (trace (snd (axiosInstance order_request env_down cached_world))))
     = console_output error_only_config
         (trace (snd (axiosInstance order_request env_down cached_world)))
  /\ List.length (console_output error_only_config
                    (trace (snd (axiosInstance order_request env_down cached_world))))
     < List.length (console_output sample_config
                      (trace (snd (axiosInstance order_request env_down cached_world)))).
Proof.
  assert (Hlt : LOG_LEVELS (logLevel (server error_only_config))
                < LOG_LEVELS (logLevel (server sample_config))) by (vm_compute; lia).
  split; [exact Hlt|]. split.
  - exact (proj1 (@console_output_grows_with_the_level error_only_config sample_config
                    (trace (snd (axiosInstance order_request env_down cached_world)))
                    (Nat.lt_le_incl _ _ Hlt))).
  - vm_compute. lia.
Defined.

(** ** Configuration *)

(** X25: when the configuration loads, both credentials were set and
    are not empty, the environment is the one named by the process
    environment (sandbox when it is unset or empty), and the base address
    the authentication service derives from the environment is the
    [apiBaseUrl] of the configuration. *)
Theorem loaded_configuration_agrees_with_the_service (process_env : string -> option string)
    (parseInt : string -> option Z) (c : Config) :
  loadConfig process_env parseInt = inl c ->
  process_env "PAYPAL_CLIENT_ID" = Some (clientId (paypal c)) /\
  clientId (paypal c) <> "" /\
  process_env "PAYPAL_CLIENT_SECRET" = Some (clientSecret (paypal c)) /\
  clientSecret (paypal c) <> "" /\
  environment_name (environment (paypal c))
  = getOptionalEnv process_env "PAYPAL_ENVIRONMENT" "sandbox" /\
  baseUrl (authService (PayPalMcpServer_new c)) = apiBaseUrl (paypal c) /\
  tokenData (authService (PayPalMcpServer_new c)) = None.
Proof.
  unfold loadConfig, getRequiredEnv.
  destruct (process_env "PAYPAL_CLIENT_ID") as [cid|]; [|discriminate].
  destruct (String.eqb_spec cid ""); [discriminate|].
  destruct (process_env "PAYPAL_CLIENT_SECRET") as [secret|]; [|discriminate].
  destruct (String.eqb_spec secret ""); [discriminate|].
  destruct (String.eqb_spec (getOptionalEnv process_env "PAYPAL_ENVIRONMENT" "sandbox")
              "sandbox") as [E|_].
  - intros H. injection H as <-. cbn. rewrite E. repeat split; assumption.
  - destruct (String.eqb_spec (getOptionalEnv process_env "PAYPAL_ENVIRONMENT" "sandbox")
                "live") as [E|_]; [|discriminate].
    intros H. injection H as <-. cbn. rewrite E. repeat split; assumption.
Qed.

Lemma loaded_configuration_witness :
  exists c,
    loadConfig (fun key => if String.eqb key "PAYPAL_CLIENT_ID" then Some "AZ-client"
                           else if String.eqb key "PAYPAL_CLIENT_SECRET" then Some "EL-secret"
                           else if String.eqb key "PAYPAL_ENVIRONMENT" then Some "live"
                           else None)
               (fun _ => None) = inl c /\
    baseUrl (authService (PayPalMcpServer_new c)) = "https://api-m.paypal.com".
Proof.
  eexists. split; [vm_compute; reflexivity|].
  match goal with
  | |- baseUrl (authService (PayPalMcpServer_new ?c)) = _ =>
      destruct (@loaded_configuration_agrees_with_the_service
                  (fun key => if String.eqb key "PAYPAL_CLIENT_ID" then Some "AZ-client"
                              else if String.eqb key "PAYPAL_CLIENT_SECRET" then Some "EL-secret"
                              else if String.eqb key "PAYPAL_ENVIRONMENT" then Some "live"
                              else None)
                  (fun _ => None) c eq_refl) as [_ [_ [_ [_ [_ [H _]]]]]]
  end.
  rewrite H. reflexivity.
Defined.

(** ** The patterns of the shapes *)

Lemma nullable_spec (r : Regex) : nullable r = true <-> Matches r "".
Proof.
  split.
  - induction r as [| |lo hi|a IHa b IHb|a IHa b IHb|a IHa]; cbn; intros H;
      try discriminate.
    + constructor.
    + apply andb_prop in H. destruct H as [Ha Hb].
      change (Matches (RSeq a b) ("" ++ "")). constructor; auto.
    + apply orb_prop in H. destruct H as [H|H]; [apply MAltL|apply MAltR]; auto.
    + constructor.
  - intros H. remember ""%string as s eqn:Es.
    induction H as [|lo hi c Hc|a b s1 s2 H1 IH1 H2 IH2|a b s H IH|a b s H IH|a
                   |a s1 s2 H1 IH1 H2 IH2]; cbn; try reflexivity.
    + discriminate.
    + destruct s1; [|discriminate]. cbn in Es. rewrite IH1, IH2; auto.
    + rewrite IH; auto.
    + rewrite IH; auto. apply orb_true_r.
Qed.

Lemma deriv_sound (c : ascii) (r : Regex) :
  forall s, Matches (deriv c r) s -> Matches r (String c s).
Proof.
  induction r as [| |lo hi|a IHa b IHb|a IHa b IHb|a IHa]; cbn; intros s H.
  - inversion H.
  - inversion H.
  - destruct (in_range lo hi c) eqn:E; inversion H; subst. constructor. exact E.
  - destruct (nullable a) eqn:En.
    + inversion H as [| | | ? ? ? H1 | ? ? ? H1 | |]; subst.
      * inversion H1 as [| |? ? s1 s2 Ha Hb| | | |]; subst.
        change (Matches (RSeq a b) (String c s1 ++ s2)). constructor; auto.
      * change (Matches (RSeq a b) ("" ++ String c s)). constructor; auto.
        apply nullable_spec. exact En.
    + inversion H as [| |? ? s1 s2 Ha Hb| | | |]; subst.
      change (Matches (RSeq a b) (String c s1 ++ s2)). constructor; auto.
  - inversion H; subst; [apply MAltL|apply MAltR]; auto.
  - inversion H as [| |? ? s1 s2 Ha Hb| | | |]; subst.
    change (Matches (RStar a) (String c s1 ++ s2)). constructor; auto.
Qed.

Lemma deriv_complete (c : ascii) (r : Regex) (s0 : string) :
  Matches r s0 -> forall s, s0 = String c s -> Matches (deriv c r) s.
Proof.
  intros H.
  induction H as [|lo hi c0 Hc|a b s1 s2 H1 IH1 H2 IH2|a b s' H IH|a b s' H IH|a
                 |a s1 s2 H1 IH1 H2 IH2]; intros s Es; cbn.
  - discriminate.
  - injection Es as -> <-. rewrite Hc. constructor.
  - destruct s1 as [|c1 s1'].
    + cbn in Es. apply nullable_spec in H1. rewrite H1. apply MAltR. auto.
    + cbn in Es. injection Es as -> <-.
      destruct (nullable a); [apply MAltL|]; constructor; auto.
  - apply MAltL. auto.
  - apply MAltR. auto.
  - discriminate.
  - destruct s1 as [|c1 s1'].
    + cbn in Es. exact (IH2 s Es).
    + cbn in Es. injection Es as -> <-. constructor; auto.
Qed.

(** The matcher decides the language of the pattern. *)
Lemma regex_test_spec (r : Regex) (s : string) : regex_test r s = true <-> Matches r s.
Proof.
  revert r. induction s as [|c s IH]; intros r; cbn.
  - apply nullable_spec.
  - rewrite IH. split; [apply deriv_sound|]. intros H. eapply deriv_complete; eauto.
Qed.

Lemma Matches_eps_seq (r : Regex) (s : string) : Matches (RSeq REps r) s <-> Matches r s.
Proof.
  split.
  - intros H. inversion H as [| |? ? s1 s2 Ha Hb| | | |]; subst. inversion Ha; subst. exact Hb.
  - intros H. change (Matches (RSeq REps r) ("" ++ s)). constructor; [constructor|exact H].
Qed.

Lemma string_app_assoc (a b c : string) : ((a ++ b) ++ c = a ++ (b ++ c))%string.
Proof. induction a as [|x a IH]; [reflexivity|]. cbn. rewrite IH. reflexivity. Qed.

Lemma string_app_nil_r (a : string) : (a ++ "" = a)%string.
Proof. induction a as [|x a IH]; [reflexivity|]. cbn. rewrite IH. reflexivity. Qed.

Lemma Matches_seq_assoc (a b c : Regex) (s : string) :
  Matches (RSeq (RSeq a b) c) s <-> Matches (RSeq a (RSeq b c)) s.
Proof.
  split; intros H.
  - inversion H as [| |? ? s12 s3 H12 H3| | | |]; subst.
    inversion H12 as [| |? ? s1 s2 H1 H2| | | |]; subst.
    rewrite string_app_assoc. repeat constructor; auto.
  - inversion H as [| |? ? s1 s23 H1 H23| | | |]; subst.
    inversion H23 as [| |? ? s2 s3 H2 H3| | | |]; subst.
    rewrite <- string_app_assoc. repeat constructor; auto.
Qed.

Lemma Matches_digit_seq (r : Regex) (s : string) :
  Matches (RSeq digit r) s <->
  exists c s', s = String c s' /\ is_digit c = true /\ Matches r s'.
Proof.
  split.
  - intros H. inversion H as [| |? ? s1 s2 Ha Hb| | | |]; subst.
    inversion Ha; subst. cbn. eauto.
  - intros [c [s' [-> [Hc Hr]]]].
    change (Matches (RSeq digit r) (String c "" ++ s')). constructor; [constructor|]; auto.
Qed.

Lemma Matches_opt_digit_seq (r : Regex) (s : string) :
  Matches (RSeq (ROpt digit) r) s <->
  Matches r s \/ exists c s', s = String c s' /\ is_digit c = true /\ Matches r s'.
Proof.
  split.
  - intros H. inversion H as [| |? ? s1 s2 Ha Hb| | | |]; subst.
    inversion Ha as [| | |? ? ? He|? ? ? Hd| |]; subst.
    + inversion He; subst. left. exact Hb.
    + inversion Hd; subst. right. cbn. eauto.
  - intros [H|[c [s' [-> [Hc Hr]]]]].
    + change (Matches (RSeq (ROpt digit) r) ("" ++ s)).
      constructor; [apply MAltL; constructor|exact H].
    + change (Matches (RSeq (ROpt digit) r) (String c "" ++ s')).
      constructor; [apply MAltR; constructor|]; auto.
Qed.

Lemma Matches_eps (s : string) : Matches REps s <-> s = ""%string.
Proof. split; [intros H; inversion H; reflexivity|intros ->; constructor]. Qed.

(** Up to [e] further digits. *)
Lemma Matches_optional_digits (e : nat) (s : string) :
  Matches (RTimes e (ROpt digit)) s <-> String.length s <= e /\ all_digits s = true.
Proof.
  revert s. induction e as [|e IH]; intros s; cbn [RTimes].
  - rewrite Matches_eps. split.
    + intros ->. cbn. auto.
    + intros [H _]. destruct s; [reflexivity|cbn in H; lia].
  - rewrite Matches_opt_digit_seq. split.
    + intros [H|[c [s' [-> [Hc H]]]]]; apply IH in H; destruct H as [H1 H2].
      * split; [lia|exact H2].
      * cbn. rewrite Hc, H2. split; [lia|reflexivity].
    + intros [H1 H2]. destruct s as [|c s'].
      * left. apply IH. cbn. split; [lia|reflexivity].
      * right. cbn in H1, H2. apply andb_prop in H2. destruct H2 as [Hc H2].
        exists c, s'. split; [reflexivity|]. split; [exact Hc|]. apply IH. split; [lia|exact H2].
Qed.

(** Between [n] and [n + e] digits. *)
Lemma Matches_bounded_digits (n e : nat) (s : string) :
  Matches (RBetween n e digit) s <->
  (n <= String.length s <= n + e) /\ all_digits s = true.
Proof.
  unfold RBetween. revert s. induction n as [|n IH]; intros s; cbn [RTimes].
  - rewrite Matches_eps_seq, Matches_optional_digits. cbn. intuition lia.
  - rewrite Matches_seq_assoc, Matches_digit_seq. split.
    + intros [c [s' [-> [Hc H]]]]. apply IH in H. destruct H as [H1 H2].
      cbn. rewrite Hc, H2. split; [lia|reflexivity].
    + intros [H1 H2]. destruct s as [|c s']; [cbn in H1; lia|].
      cbn in H1, H2. apply andb_prop in H2. destruct H2 as [Hc H2].
      exists c, s'. split; [reflexivity|]. split; [exact Hc|]. apply IH. split; [lia|exact H2].
Qed.

(** Exactly [n] digits. *)
Lemma Matches_exact_digits (n : nat) (s : string) :
  Matches (RTimes n digit) s <-> String.length s = n /\ all_digits s = true.
Proof.
  revert s. induction n as [|n IH]; intros s; cbn [RTimes].
  - rewrite Matches_eps. split.
    + intros ->. cbn. auto.
    + intros [H _]. destruct s; [reflexivity|discriminate].
  - rewrite Matches_digit_seq. split.
    + intros [c [s' [-> [Hc H]]]]. apply IH in H. destruct H as [H1 H2].
      cbn. rewrite Hc, H2, H1. auto.
    + intros [H1 H2]. destruct s as [|c s']; [discriminate|].
      cbn in H1, H2. apply andb_prop in H2. destruct H2 as [Hc H2].
      exists c, s'. split; [reflexivity|]. split; [exact Hc|]. apply IH. split; [lia|exact H2].
Qed.

(** X26: the card fields accept digit strings only: a card number is
    13 to 19 digits, an expiry exactly 4 digits and a security code 3 or
    4 digits; a separator, a space or a sign anywhere in the string makes
    the pattern fail. *)
Theorem card_fields_accept_digits_only (s : string) :
  (regex_test re_card_number s = true <->
   (13 <= String.length s <= 19) /\ all_digits s = true) /\
  (regex_test re_card_expiry s = true <->
   String.length s = 4 /\ all_digits s = true) /\
  (regex_test re_security_code s = true <->
   (3 <= String.length s <= 4) /\ all_digits s = true).
Proof.
  rewrite !regex_test_spec.
  unfold re_card_number, re_card_expiry, re_security_code.
  rewrite !Matches_bounded_digits, Matches_exact_digits.
  repeat split; intuition lia.
Qed.

Lemma Matches_star_digits (s : string) : Matches (RStar digit) s <-> all_digits s = true.
Proof.
  split.
  - intros H. remember (RStar digit) as r eqn:Er.
    induction H as [| | | | |a|a s1 s2 H1 _ H2 IH2]; try discriminate; [reflexivity|].
    injection Er as ->. inversion H1; subst. cbn.
    match goal with E : in_range _ _ _ = true |- _ => unfold is_digit; rewrite E end.
    apply IH2. reflexivity.
  - induction s as [|c s IH]; intros H; [constructor|].
    cbn in H. apply andb_prop in H. destruct H as [Hc H].
    change (Matches (RStar digit) (String c "" ++ s)).
    constructor; [constructor; exact Hc|auto].
Qed.

Lemma all_digits_app (a b : string) :
  all_digits (a ++ b) = all_digits a && all_digits b.
Proof.
  induction a as [|c a IH]; [reflexivity|]. cbn. rewrite IH. apply andb_assoc.
Qed.

Lemma Matches_seq (a b : Regex) (s : string) :
  Matches (RSeq a b) s <->
  exists s1 s2, s = (s1 ++ s2)%string /\ Matches a s1 /\ Matches b s2.
Proof.
  split.
  - intros H. inversion H; subst. eauto.
  - intros [s1 [s2 [-> [H1 H2]]]]. constructor; assumption.
Qed.

Lemma Matches_alt (a b : Regex) (s : string) :
  Matches (RAlt a b) s <-> Matches a s \/ Matches b s.
Proof.
  split.
  - intros H. inversion H; subst; auto.
  - intros [H|H]; [apply MAltL|apply MAltR]; exact H.
Qed.

Lemma Matches_range (lo hi : ascii) (s : string) :
  Matches (RRange lo hi) s <-> exists c, s = String c "" /\ in_range lo hi c = true.
Proof.
  split.
  - intros H. inversion H; subst. eauto.
  - intros [c [-> H]]. constructor. exact H.
Qed.

Lemma in_range_char (c x : ascii) : in_range c c x = true -> x = c.
Proof.
  unfold in_range. intros H. apply andb_prop in H. destruct H as [H1 H2].
  apply Nat.leb_le in H1, H2.
  rewrite <- (ascii_nat_embedding x), <- (ascii_nat_embedding c). f_equal. lia.
Qed.

(** X27: an amount value is accepted exactly when it is one or more
    digits, optionally followed by a dot and any number of digits, none
    included: ["10"], ["10."] and ["10.00"] pass; a sign, a leading dot, a
    thousands separator or an exponent do not. *)
Theorem amount_value_is_digits_dot_digits (s : string) :
  regex_test re_amount_value s = true <->
  exists whole rest,
    s = (whole ++ rest)%string /\
    whole <> ""%string /\ all_digits whole = true /\
    (rest = ""%string \/
     exists frac, rest = String "." frac /\ all_digits frac = true).
Proof.
  rewrite regex_test_spec. unfold re_amount_value, RPlus, ROpt, RChar.
  rewrite Matches_seq. split.
  - intros [s1 [s2 [-> [Hwhole Hrest]]]].
    apply Matches_digit_seq in Hwhole. destruct Hwhole as [c [ds [-> [Hc Hds]]]].
    apply Matches_star_digits in Hds.
    apply Matches_seq in Hrest. destruct Hrest as [o [f [-> [Ho Hf]]]].
    apply Matches_star_digits in Hf.
    apply Matches_alt in Ho. destruct Ho as [Ho|Ho].
    + apply Matches_eps in Ho. subst o.
      exists (String c (ds ++ f)), ""%string.
      split; [cbn; rewrite string_app_nil_r; reflexivity|].
      split; [discriminate|]. split; [|left; reflexivity].
      cbn. rewrite Hc, all_digits_app, Hds, Hf. reflexivity.
    + apply Matches_range in Ho. destruct Ho as [x [-> Hx]].
      apply in_range_char in Hx. subst x.
      exists (String c ds), (String "." f).
      split; [reflexivity|]. split; [discriminate|].
      split; [cbn; rewrite Hc, Hds; reflexivity|].
      right. exists f. auto.
  - intros [whole [rest [-> [Hne [Hd Hrest]]]]].
    destruct whole as [|c ds]; [contradiction|].
    cbn in Hd. apply andb_prop in Hd. destruct Hd as [Hc Hds].
    exists (String c ds), rest. split; [reflexivity|]. split.
    + apply Matches_digit_seq. exists c, ds. split; [reflexivity|]. split; [exact Hc|].
      apply Matches_star_digits. exact Hds.
    + apply Matches_seq. destruct Hrest as [->|[frac [-> Hfrac]]].
      * exists ""%string, ""%string. split; [reflexivity|].
        split; [apply MAltL; constructor|constructor].
      * exists (String "." ""), frac. split; [reflexivity|].
        split; [apply MAltR; constructor; reflexivity|].
        apply Matches_star_digits. exact Hfrac.
Qed.
